(** * Dockerfile generator: template rewriting, two variants

    The repository holds two versions of one command-line tool that turns a
    Dockerfile template into a Dockerfile:

    - [create-dockerfile.py] rewrites the template with [str.replace];
    - the copy ([create-dockerfile copy.py]) rewrites it with [re.sub].

    Texts are lists of characters.  The template is read in text mode and
    every marker of both scripts is ASCII, so a character is modelled as an
    [ascii]; a non-ASCII character of a template is the run of its UTF-8
    bytes, none of which is a newline or part of a marker. *)

From Stdlib Require Import Ascii String List Bool Arith Lia Permutation.
Import ListNotations.

(** ** Texts *)

Definition text := list ascii.

Definition str (s : string) : text := list_ascii_of_string s.

Definition nl : ascii := ascii_of_nat 10.
Definition dq : ascii := ascii_of_nat 34.
Definition backslash : ascii := ascii_of_nat 92.

(** [s.startswith(p)] *)
Fixpoint startswith (p s : text) : bool :=
  match p, s with
  | [], _ => true
  | a :: p', b :: s' => Ascii.eqb a b && startswith p' s'
  | _ :: _, [] => false
  end.

(** [p in s] *)
Fixpoint occurs (p s : text) : bool :=
  startswith p s ||
  match s with
  | [] => false
  | _ :: s' => occurs p s'
  end.

(** Two texts clash when they differ at a position both have: neither can be
    laid over the other, whatever follows the shorter one. *)
Fixpoint clash (a b : text) : bool :=
  match a, b with
  | x :: a', y :: b' => negb (Ascii.eqb x y) || clash a' b'
  | _, _ => false
  end.

(** [p] cannot begin at any offset inside [r], whatever follows [r]. *)
Definition never_starts_in (p r : text) : bool :=
  forallb (fun k => clash p (skipn k r)) (seq 0 (length r)).

(** [p], begun before [r], cannot run into [r]. *)
Definition never_runs_into (p r : text) : bool :=
  forallb (fun k => clash (skipn k p) r) (seq 1 (length p - 1)).

Definition apart (p r : text) : bool :=
  never_starts_in p r && never_runs_into p r.

(** ** [str.replace]

    [s.replace(old, new)] replaces the occurrences of [old] found by a scan
    from the left that resumes after each occurrence.  [skip] counts the
    characters of the current occurrence still to be passed over.  With an
    empty [old], Python inserts [new] before every character and at the
    end. *)
Fixpoint replace_from (old new : text) (skip : nat) (s : text) : text :=
  match s with
  | [] =>
      match skip with
      | 0 => if startswith old [] then new else []
      | S _ => []
      end
  | c :: s' =>
      match skip with
      | S k => replace_from old new k s'
      | 0 =>
          if startswith old s then
            new ++ match length old with
                   | 0 => c :: replace_from old new 0 s'
                   | S k => replace_from old new k s'
                   end
          else c :: replace_from old new 0 s'
      end
  end.

Definition str_replace (old new s : text) : text := replace_from old new 0 s.

(** Two replacements are independent when neither pattern can begin in the
    other pattern or in the other replacement, nor run into the latter. *)
Definition independent (p1 r1 p2 r2 : text) : bool :=
  never_starts_in p2 p1 && never_starts_in p2 r1 && never_runs_into p2 r1 &&
  never_starts_in p1 p2 && never_starts_in p1 r2 && never_runs_into p1 r2.

(** A text without a backslash: as a replacement template it stands for
    itself. *)
Definition plain (t : text) : bool :=
  forallb (fun c => negb (Ascii.eqb c backslash)) t.

(** The rest of the current line, and the text from its newline on. *)
Fixpoint upto_eol (s : text) : text :=
  match s with
  | [] => []
  | c :: s' => if Ascii.eqb c nl then [] else c :: upto_eol s'
  end.

Fixpoint from_eol (s : text) : text :=
  match s with
  | [] => []
  | c :: s' => if Ascii.eqb c nl then s else from_eol s'
  end.

(** [s.split(sep)] for a one-character separator: at least one piece. *)
Fixpoint split_on (sep : ascii) (s : text) : list text :=
  match s with
  | [] => [[]]
  | c :: s' =>
      if Ascii.eqb c sep then [] :: split_on sep s'
      else match split_on sep s' with
           | l :: ls => (c :: l) :: ls
           | [] => [[c]]
           end
  end.

(** [sep.join(pieces)] *)
Fixpoint join (sep : text) (pieces : list text) : text :=
  match pieces with
  | [] => []
  | [l] => l
  | l :: ls => l ++ sep ++ join sep ls
  end.

(** The lines of a text, each ended by a newline. *)
Fixpoint unlines (ls : list text) : text :=
  match ls with
  | [] => []
  | l :: ls' => l ++ nl :: unlines ls'
  end.

Definition one_line (l : text) : bool :=
  forallb (fun c => negb (Ascii.eqb c nl)) l.

(** ** Regular expressions, as far as the copy uses them

    The patterns of the copy are built from literal characters, [^], [$],
    [.*], [.*?] and one capturing group.  A pattern string is written here
    as the list of its atoms; an escaped character of the pattern string
    ([\[], [\/], [\$], [\\]) is the literal it denotes. *)
Inductive atom : Type :=
  | Chr (c : ascii)        (* a literal character *)
  | Bol                    (* ^ *)
  | Eol                    (* $ *)
  | AnyStar (lazy : bool)  (* .*? when lazy, .* otherwise *)
  | Open                   (* ( of group 1 *)
  | Close.                 (* ) of group 1 *)

Definition regex := list atom.

Definition lits (s : text) : regex := map Chr s.

(** [re.MULTILINE] and [re.DOTALL] *)
Record flags : Type := Flags { multiline : bool; dotall : bool }.

Definition no_flags : flags := Flags false false.
Definition M : flags := Flags true false.
Definition MS : flags := Flags true true.

(** [^]: at the start of the string, and with MULTILINE after a newline. *)
Definition at_bol (fl : flags) (prev : option ascii) : bool :=
  match prev with
  | None => true
  | Some c => multiline fl && Ascii.eqb c nl
  end.

(** [$]: at the end of the string or before its last newline; with MULTILINE
    before any newline. *)
Definition at_eol (fl : flags) (s : text) : bool :=
  match s with
  | [] => true
  | c :: s' =>
      Ascii.eqb c nl && (multiline fl || match s' with [] => true | _ => false end)
  end.

(** [.]: any character but a newline; any character with DOTALL. *)
Definition dot_ok (fl : flags) (c : ascii) : bool :=
  dotall fl || negb (Ascii.eqb c nl).

(** A match: the offset of its end and the span of group 1, counted from the
    start of the match. *)
Record found : Type := Found { m_end : nat; g_start : nat; g_end : nat }.

(** The backtracking matcher: [match_here fl re pos prev s] matches [re]
    against [s], [pos] characters into the match, [prev] being the character
    before [s].  The first alternative that lets the rest of the pattern
    match wins: the longest run for [.*], the shortest for [.*?]. *)
Fixpoint match_here (fl : flags) (re : regex) {struct re}
  : nat -> option ascii -> text -> option found :=
  match re with
  | [] => fun pos _ _ => Some (Found pos 0 0)
  | Chr a :: r => fun pos _ s =>
      match s with
      | c :: s' => if Ascii.eqb a c then match_here fl r (S pos) (Some c) s' else None
      | [] => None
      end
  | Bol :: r => fun pos prev s =>
      if at_bol fl prev then match_here fl r pos prev s else None
  | Eol :: r => fun pos prev s =>
      if at_eol fl s then match_here fl r pos prev s else None
  | Open :: r => fun pos prev s =>
      match match_here fl r pos prev s with
      | Some m => Some (Found (m_end m) pos (g_end m))
      | None => None
      end
  | Close :: r => fun pos prev s =>
      match match_here fl r pos prev s with
      | Some m => Some (Found (m_end m) (g_start m) pos)
      | None => None
      end
  | AnyStar lazy :: r =>
      fix star (pos : nat) (prev : option ascii) (s : text) {struct s} : option found :=
        match s with
        | [] => match_here fl r pos prev s
        | c :: s' =>
            if lazy then
              match match_here fl r pos prev s with
              | Some m => Some m
              | None => if dot_ok fl c then star (S pos) (Some c) s' else None
              end
            else
              match (if dot_ok fl c then star (S pos) (Some c) s' else None) with
              | Some m => Some m
              | None => match_here fl r pos prev s
              end
        end
  end.

(** The character before the position reached after reading [read]. *)
Definition prev_after (prev : option ascii) (read : text) : option ascii :=
  fold_left (fun _ c => Some c) read prev.

(** [m.group(0)] and [m.group(1)] of a match that starts at [s]. *)
Definition group0 (m : found) (s : text) : text := firstn (m_end m) s.
Definition group1 (m : found) (s : text) : text :=
  firstn (g_end m - g_start m) (skipn (g_start m) s).

(** [re.sub(pattern, repl, s)] with [repl] a function of the match (here of
    its groups 0 and 1).  The scan resumes after each match.  Every pattern
    of the copy holds a literal character, so no match is empty; for an
    empty match the replacement is inserted and the character copied. *)
Fixpoint sub_from (fl : flags) (re : regex) (repl : text -> text -> text)
  (skip : nat) (prev : option ascii) (s : text) : text :=
  match s with
  | [] =>
      match skip with
      | 0 => match match_here fl re 0 prev [] with
             | Some m => repl (group0 m []) (group1 m [])
             | None => []
             end
      | S _ => []
      end
  | c :: s' =>
      match skip with
      | S k => sub_from fl re repl k (Some c) s'
      | 0 =>
          match match_here fl re 0 prev s with
          | Some m =>
              repl (group0 m s) (group1 m s) ++
              match m_end m with
              | 0 => c :: sub_from fl re repl 0 (Some c) s'
              | S k => sub_from fl re repl k (Some c) s'
              end
          | None => c :: sub_from fl re repl 0 (Some c) s'
          end
      end
  end.

Definition re_sub (fl : flags) (re : regex) (repl : text -> text -> text)
  (s : text) : text :=
  sub_from fl re repl 0 None s.

(** A pattern part without the parentheses of the group. *)
Definition groupless (re : regex) : bool :=
  forallb (fun a => match a with Open | Close => false | _ => true end) re.

(** The shape [^# (<head><tail>)$] of the copy's uncommenting patterns:
    after the comment prefix come the literal characters [head]. *)
Definition commented (head : text) (tail : regex) : regex :=
  Bol :: Chr "#" :: Chr " " :: Open :: lits head ++ tail ++ [Close; Eol].

(** [uncommented head bol s out]: [out] is [s] with the comment prefix
    ["# "] removed at the start of some of the lines that go on with
    [head]; [bol] tells whether [s] begins a line. *)
Inductive uncommented (head : text) : bool -> text -> text -> Prop :=
  | unc_nil (bol : bool) : uncommented head bol [] []
  | unc_copy (bol : bool) (c : ascii) (s out : text) :
      uncommented head (Ascii.eqb c nl) s out ->
      uncommented head bol (c :: s) (c :: out)
  | unc_drop (s out : text) :
      startswith head s = true ->
      uncommented head false s out ->
      uncommented head true ("#"%char :: " "%char :: s) out.

(** ** Replacement templates

    A replacement string given to [re.sub] is a template: a backslash starts
    an escape.  [parse_template] follows the template parser of the [re]
    module for a pattern with [groups] capturing groups, none of them named;
    [None] stands for the [re.error] (or [IndexError]) it raises. *)
Inductive part : Type :=
  | Lit (c : ascii)
  | Group (n : nat).

Definition code_between (lo hi : nat) (c : ascii) : bool :=
  (lo <=? nat_of_ascii c) && (nat_of_ascii c <=? hi).

Definition is_digit : ascii -> bool := code_between 48 57.
Definition is_octdigit : ascii -> bool := code_between 48 55.
Definition is_ascii_letter (c : ascii) : bool :=
  code_between 65 90 c || code_between 97 122 c.
Definition digit_val (c : ascii) : nat := nat_of_ascii c - 48.

(** [chr(n)] for [n < 256], in UTF-8. *)
Definition chr (n : nat) : list part :=
  if n <? 128 then [Lit (ascii_of_nat n)]
  else [Lit (ascii_of_nat (192 + n / 64)); Lit (ascii_of_nat (128 + n mod 64))].

(** The escapes that denote one character: [\a \b \f \n \r \t \v \\]. *)
Definition escape_char (c : ascii) : option nat :=
  match nat_of_ascii c with
  | 97 => Some 7
  | 98 => Some 8
  | 102 => Some 12
  | 110 => Some 10
  | 114 => Some 13
  | 116 => Some 9
  | 118 => Some 11
  | 92 => Some 92
  | _ => None
  end.

(** The digits of a group name up to [>], and what follows it. *)
Fixpoint group_name (acc : nat) (seen : bool) (s : text) : option (nat * text) :=
  match s with
  | [] => None
  | c :: s' =>
      if Ascii.eqb c ">"%char then (if seen then Some (acc, s') else None)
      else if is_digit c then group_name (10 * acc + digit_val c) true s'
      else None
  end.

Definition group_ref (groups n : nat) : option (list part) :=
  if n <=? groups then Some [Group n] else None.

Definition then_parts (p : option (list part)) (rest : option (list part))
  : option (list part) :=
  match p, rest with
  | Some a, Some b => Some (a ++ b)
  | _, _ => None
  end.

Fixpoint parse_tmpl (fuel groups : nat) (s : text) : option (list part) :=
  match fuel with
  | 0 => None
  | S fuel' =>
      let continue := parse_tmpl fuel' groups in
      match s with
      | [] => Some []
      | c :: s1 =>
          if negb (Ascii.eqb c backslash) then then_parts (Some [Lit c]) (continue s1)
          else
            match s1 with
            | [] => None                              (* bad escape (end of pattern) *)
            | e :: s2 =>
                if Ascii.eqb e "g"%char then
                  match s2 with
                  | lt :: s3 =>
                      if Ascii.eqb lt "<"%char then
                        match group_name 0 false s3 with
                        | Some (n, s4) => then_parts (group_ref groups n) (continue s4)
                        | None => None
                        end
                      else None                       (* missing < *)
                  | [] => None
                  end
                else if Ascii.eqb e "0"%char then
                  match s2 with
                  | d1 :: s3 =>
                      if is_octdigit d1 then
                        match s3 with
                        | d2 :: s4 =>
                            if is_octdigit d2 then
                              then_parts (Some (chr ((8 * digit_val d1 + digit_val d2) mod 256)))
                                         (continue s4)
                            else then_parts (Some (chr (digit_val d1))) (continue s3)
                        | [] => then_parts (Some (chr (digit_val d1))) (continue s3)
                        end
                      else then_parts (Some (chr 0)) (continue s2)
                  | [] => then_parts (Some (chr 0)) (continue s2)
                  end
                else if is_digit e then
                  match s2 with
                  | d1 :: s3 =>
                      if is_digit d1 then
                        match s3 with
                        | d2 :: s4 =>
                            if is_octdigit e && is_octdigit d1 && is_octdigit d2 then
                              let v := 64 * digit_val e + 8 * digit_val d1 + digit_val d2 in
                              if 255 <? v then None   (* octal escape out of range *)
                              else then_parts (Some (chr v)) (continue s4)
                            else then_parts (group_ref groups (10 * digit_val e + digit_val d1))
                                            (continue s3)
                        | [] => then_parts (group_ref groups (10 * digit_val e + digit_val d1))
                                           (continue s3)
                        end
                      else then_parts (group_ref groups (digit_val e)) (continue s2)
                  | [] => then_parts (group_ref groups (digit_val e)) (continue s2)
                  end
                else
                  match escape_char e with
                  | Some n => then_parts (Some (chr n)) (continue s2)
                  | None =>
                      if is_ascii_letter e then None  (* bad escape *)
                      else then_parts (Some [Lit c; Lit e]) (continue s2)
                  end
            end
      end
  end.

Definition parse_template (groups : nat) (s : text) : option (list part) :=
  parse_tmpl (S (length s)) groups s.

(** [m.expand(template)] *)
Fixpoint expand (parts : list part) (g0 g1 : text) : text :=
  match parts with
  | [] => []
  | Lit c :: ps => c :: expand ps g0 g1
  | Group 0 :: ps => g0 ++ expand ps g0 g1
  | Group 1 :: ps => g1 ++ expand ps g0 g1
  | Group _ :: ps => expand ps g0 g1
  end.

(** [re.sub(pattern, repl, s)] with [repl] a string: the template is
    compiled before the scan, so a bad template raises even when nothing
    matches. *)
Definition re_sub_str (fl : flags) (re : regex) (groups : nat) (repl s : text)
  : option text :=
  match parse_template groups repl with
  | Some parts => Some (re_sub fl re (expand parts) s)
  | None => None
  end.

(** ** What both scripts share *)

(** The choices of [--base] (of [--os] in the copy). *)
Inductive profile : Type := ubuntu | alpine.

(** The optional languages, under the names of their [INSTALL_] flags. *)
Inductive component : Type := GOLANG | RUST | PYTHON | NODEJS | JAVA.

Definition components : list component := [GOLANG; RUST; PYTHON; NODEJS; JAVA].

Definition lang_name (c : component) : text :=
  match c with
  | GOLANG => str "GOLANG"
  | RUST => str "RUST"
  | PYTHON => str "PYTHON"
  | NODEJS => str "NODEJS"
  | JAVA => str "JAVA"
  end.

Definition component_eqb (c1 c2 : component) : bool :=
  match c1, c2 with
  | GOLANG, GOLANG | RUST, RUST | PYTHON, PYTHON | NODEJS, NODEJS | JAVA, JAVA => true
  | _, _ => false
  end.

Definition bool_literal (b : bool) : text := if b then str "true" else str "false".

(** The line [ARG INSTALL_<lang>=<b>]. *)
Definition install_flag (lang : text) (b : bool) : text :=
  str "ARG INSTALL_" ++ lang ++ str "=" ++ bool_literal b.

(** The line [ARG <key>=<value>]. *)
Definition arg_line (key value : text) : text :=
  str "ARG " ++ key ++ str "=" ++ value.

Definition cmd_bash : text := str "CMD [" ++ dq :: str "/bin/bash" ++ dq :: str "]".
Definition cmd_ash : text := str "CMD [" ++ dq :: str "/bin/ash" ++ dq :: str "]".

Fixpoint text_eqb (a b : text) : bool :=
  match a, b with
  | [], [] => true
  | x :: a', y :: b' => Ascii.eqb x y && text_eqb a' b'
  | _, _ => false
  end.

(** The files the program sees: the readable files by path, and for a path
    that cannot be written the message of the error [open] raises. *)
Record world : Type := World {
  files : text -> option text;
  write_error : text -> option text
}.

Definition write_file (w : world) (path content : text) : world :=
  World (fun p => if text_eqb p path then Some content else files w p)
        (write_error w).

(** A run: the exit status, the texts given to [print] in order, and the
    files afterwards.  An uncaught exception ends the run with status 1 (its
    traceback goes to the error stream, which is not modelled). *)
Record outcome : Type := Outcome {
  exit_code : nat;
  stdout : list text;
  after : world
}.

(** [str.capitalize()] and [str(b).lower()] at the values they are applied to *)
Definition capitalized (p : profile) : text :=
  match p with ubuntu => str "Ubuntu" | alpine => str "Alpine" end.

Definition profile_name (p : profile) : text :=
  match p with ubuntu => str "ubuntu" | alpine => str "alpine" end.

(** ** create-dockerfile.py *)
Module Script.

Record args : Type := Args {
  base : profile;
  golang : bool; go_version : text;
  rust : bool;
  python : bool;
  nodejs : bool; node_version : text;
  java : bool; java_version : text;
  output : text;
  template : text;
  all : bool
}.

(** The values [parse_arguments] gives when no option is passed. *)
Definition defaults : args :=
  Args ubuntu false (str "1.22.2") false false false (str "20") false (str "17")
       (str "Dockerfile") (str "templates/Dockerfile-Template") false.

(** [display_help_message] *)
Definition help_message : list text :=
  [ nl :: str "📦 Dockerfile Generator 📦";
    str "=========================";
    str "This tool helps you create customized Dockerfiles for your projects.";
    nl :: str "Examples:";
    str "  1. Create a Ubuntu-based Dockerfile with Python:";
    str "     python3 create-dockerfile.py --base ubuntu --python";
    nl :: str "  2. Create an Alpine-based Dockerfile with Go and Node.js:";
    str "     python3 create-dockerfile.py --base alpine --golang --nodejs";
    nl :: str "  3. Create a Dockerfile with all languages:";
    str "     python3 create-dockerfile.py --all";
    nl :: str "  4. Specify custom versions and output file:";
    str "     python3 create-dockerfile.py --golang --go-version 1.21.0 --nodejs --node-version 18 --output MyDockerfile";
    nl :: str "For more options, run: python3 create-dockerfile.py --help";
    str "=========================" ++ [nl] ].

(** The base OS selection of [generate_dockerfile]. *)
Definition select_base (b : profile) (content : text) : text :=
  match b with
  | ubuntu =>
      let content := str_replace (str "#FROM ubuntu:22.04") (str "FROM ubuntu:22.04") content in
      str_replace (str "# RUN apt-get update") (str "RUN apt-get update") content
  | alpine =>
      let content := str_replace (str "FROM ubuntu:22.04") (str "# FROM ubuntu:22.04") content in
      let content := str_replace (str "# FROM alpine:latest") (str "FROM alpine:latest") content in
      let content := str_replace (str "# RUN apk update") (str "RUN apk update") content in
      let content := str_replace cmd_bash (str "# " ++ cmd_bash) content in
      str_replace
        (str "# For Alpine, use " ++ dq :: str "/bin/ash" ++ dq :: str " instead of "
           ++ dq :: str "/bin/bash" ++ [dq])
        cmd_ash content
  end.

(** [--all]: [args.golang = args.rust = ... = True] *)
Definition enable_all (a : args) : args :=
  Args (base a) true (go_version a) true true true (node_version a)
       true (java_version a) (output a) (template a) (all a).

Definition enabled (a : args) (c : component) : bool :=
  match c with
  | GOLANG => golang a
  | RUST => rust a
  | PYTHON => python a
  | NODEJS => nodejs a
  | JAVA => java a
  end.

(** The version assignment a language block rewrites: its key, the literal
    the block looks for, and the requested value. *)
Definition version_rewrite (a : args) (c : component) : option (text * text * text) :=
  match c with
  | GOLANG => Some (str "GO_VERSION", str "1.22.2", go_version a)
  | NODEJS => Some (str "NODE_MAJOR", str "20", node_version a)
  | JAVA => Some (str "JAVA_VERSION", str "17", java_version a)
  | RUST | PYTHON => None
  end.

(** One [# Configure <language>] block of [generate_dockerfile]. *)
Definition configure (a : args) (c : component) (content : text) : text :=
  if enabled a c then
    let content :=
      str_replace (install_flag (lang_name c) true) (install_flag (lang_name c) true) content in
    match version_rewrite a c with
    | Some (key, default, value) =>
        str_replace (arg_line key default) (arg_line key value) content
    | None => content
    end
  else
    str_replace (install_flag (lang_name c) true) (install_flag (lang_name c) false) content.

(** The blocks applied in a given order; the script's order is [components]. *)
Definition configure_in_order (order : list component) (a : args) (content : text) : text :=
  fold_left (fun t c => configure a c t) order content.

(** What a block comes to: the one replacement that can change the text,
    if any (replacing the flag by itself changes nothing). *)
Definition rewrite_of (a : args) (c : component) : option (text * text) :=
  if enabled a c then
    match version_rewrite a c with
    | Some (key, default, value) => Some (arg_line key default, arg_line key value)
    | None => None
    end
  else Some (install_flag (lang_name c) true, install_flag (lang_name c) false).

(** None of the markers of a block occurs in the text. *)
Definition unmarked (a : args) (c : component) (content : text) : bool :=
  negb (occurs (install_flag (lang_name c) true) content) &&
  match version_rewrite a c with
  | Some (key, default, _) => negb (occurs (arg_line key default) content)
  | None => true
  end.

(** The replacements of any two different blocks are independent. *)
Definition order_free (a : args) : bool :=
  forallb (fun c1 =>
    forallb (fun c2 =>
      component_eqb c1 c2 ||
      match rewrite_of a c1, rewrite_of a c2 with
      | Some (p1, r1), Some (p2, r2) => independent p1 r1 p2 r2
      | _, _ => true
      end) components) components.

Definition effective (a : args) : args := if all a then enable_all a else a.

(** The text [generate_dockerfile] writes for the text it read. *)
Definition transform (a : args) (content : text) : text :=
  configure_in_order components (effective a) (select_base (base a) content).

(** The entries of [languages]. *)
Definition languages (a : args) : list text :=
  (if golang a then [str "Go " ++ go_version a] else []) ++
  (if rust a then [str "Rust"] else []) ++
  (if python a then [str "Python"] else []) ++
  (if nodejs a then [str "Node.js " ++ node_version a] else []) ++
  (if java a then [str "Java " ++ java_version a] else []).

Definition report (a : args) : list text :=
  [ str "Dockerfile successfully generated at: " ++ output a;
    str "Base OS: " ++ capitalized (base a);
    match languages a with
    | [] => str "No programming languages were enabled"
    | ls => str "Included languages: " ++ join (str ", ") ls
    end;
    nl :: str "📋 Next Steps:";
    str "1. Review your Dockerfile: cat " ++ output a;
    str "2. Build your Docker image: docker build -t my-image -f " ++ output a ++ str " .";
    str "3. Run your Docker container: docker run -it --rm my-image" ].

Definition generate_dockerfile (a : args) (w : world) : outcome :=
  match files w (template a) with
  | None => Outcome 1 [str "Error: Template file not found at " ++ template a] w
  | Some content =>
      let a' := effective a in
      let content := transform a content in
      match write_error w (output a) with
      | Some _ => Outcome 1 [] w
      | None => Outcome 0 (report a') (write_file w (output a) content)
      end
  end.

(** [main], with [argc] the length of [sys.argv]. *)
Definition main (argc : nat) (a : args) (w : world) : outcome :=
  if negb (golang a || rust a || python a || nodejs a || java a || all a) && (argc <=? 2)
  then Outcome 0 help_message w
  else generate_dockerfile a w.

End Script.

(** ** The copy, which rewrites with regular expressions *)
Module Copy.

Record args : Type := Args {
  output : text;
  os : profile;
  golang : bool;
  rust : bool;
  python : bool;
  nodejs : bool;
  java : bool;
  go_version : text;
  node_version : text;
  java_version : text;
  template : text
}.

(** The values [parse_arguments] gives when no option is passed. *)
Definition defaults : args :=
  Args (str "Dockerfile") ubuntu false false false false false
       (str "1.22.2") (str "20") (str "17") (str "./templates/Dockerfile-Template").

(** [read_template]: the content, or the message printed before exit 1. *)
Definition read_template (w : world) (template_path : text) : text + text :=
  match files w template_path with
  | Some content => inl content
  | None => inr (str "Error: Template file not found at " ++ template_path)
  end.

(** [write_dockerfile]: the files afterwards, or the message printed before
    exit 1. *)
Definition write_dockerfile (w : world) (content output_file : text) : world + text :=
  match write_error w output_file with
  | None => inl (write_file w output_file content)
  | Some e => inr (str "Error writing to " ++ output_file ++ str ": " ++ e)
  end.

(** [lambda m: '\n'.join('# ' + line for line in m.group(0).split('\n'))] *)
Definition comment_out (g0 g1 : text) : text :=
  join [nl] (map (fun line => str "# " ++ line) (split_on nl g0)).

(** [lambda m: m.group(1)] *)
Definition first_group (g0 g1 : text) : text := g1.

(** [^FROM ubuntu.*?^$] *)
Definition ubuntu_section : regex :=
  Bol :: lits (str "FROM ubuntu") ++ [AnyStar true; Bol; Eol].

(** [^# (FROM alpine.*?)$] *)
Definition alpine_from : regex :=
  Bol :: lits (str "# ") ++ Open :: lits (str "FROM alpine") ++ [AnyStar true; Close; Eol].

(** [^# (RUN apk update.*?)$] *)
Definition alpine_run : regex :=
  Bol :: lits (str "# ") ++ Open :: lits (str "RUN apk update") ++ [AnyStar true; Close; Eol].

(** The replacement string [\1] *)
Definition backref1 : text := [backslash; "1"%char].

(** A line with the comment prefix the copy writes. *)
Definition comment_line (l : text) : text := str "# " ++ l.

(** A layout the base OS step is made for.  The text begins with the
    ubuntu block: the line [FROM ubuntu<u>] and the lines [body], none of
    them empty; after the empty line that ends the block come the commented
    alpine lines [# FROM alpine<x>] and [# RUN apk update<y>].  No line of
    the block reads like an alpine line, and none of these lines holds the
    bash command. *)
Definition pristine (u : text) (body : list text) (x y : text) : bool :=
  one_line u && one_line x && one_line y &&
  forallb (fun l => one_line l && negb (text_eqb l []) &&
                    negb (startswith (str "FROM alpine") l) &&
                    negb (startswith (str "RUN apk update") l)) body &&
  forallb (fun l => negb (occurs cmd_bash (comment_line l)))
          ((str "FROM ubuntu" ++ u) :: body) &&
  negb (occurs cmd_bash (str "FROM alpine" ++ x)) &&
  negb (occurs cmd_bash (str "RUN apk update" ++ y)).

(** [None] is a [re.error] raised by a replacement template. *)
Definition configure_base_os (content : text) (base_os : profile) : option text :=
  match base_os with
  | alpine =>
      let content := re_sub MS ubuntu_section comment_out content in
      match re_sub_str M alpine_from 1 backref1 content with
      | None => None
      | Some content =>
          match re_sub_str MS alpine_run 1 backref1 content with
          | None => None
          | Some content => re_sub_str no_flags (lits cmd_bash) 0 cmd_ash content
          end
      end
  | ubuntu => Some content
  end.

(** [ARG INSTALL_<lang>=true] *)
Definition install_pattern (lang : text) : regex := lits (install_flag lang true).

(** [ARG <version_arg>=.*] *)
Definition version_pattern (version_arg : text) : regex :=
  lits (arg_line version_arg []) ++ [AnyStar false].

(** [^# (RUN if \[ "\$INSTALL_<lang>" = "true" \]; then \\.*?^#     fi)$] *)
Definition block_pattern (lang : text) : regex :=
  Bol :: lits (str "# ") ++
  Open :: lits (str "RUN if [ " ++ dq :: str "$INSTALL_" ++ lang ++ dq :: str " = "
                  ++ dq :: str "true" ++ dq :: str " ]; then " ++ [backslash]) ++
  AnyStar true :: Bol :: lits (str "#     fi") ++ [Close; Eol].

(** Python's truth of an optional string argument: given and not empty. *)
Definition truthy (x : option text) : bool :=
  match x with
  | Some (_ :: _) => true
  | _ => false
  end.

Definition text_of (x : option text) : text :=
  match x with Some t => t | None => [] end.

(** [configure_language].  [lang] and [version_arg] go into the pattern as
    they are; [main] passes names made of capital letters and underscores,
    which denote themselves in a pattern.  [None] is a [re.error] raised by
    a replacement template. *)
Definition configure_language (content lang : text) (install : bool)
  (version_arg version_value : option text) : option text :=
  let install_value := bool_literal install in
  match re_sub_str no_flags (install_pattern lang) 0
          (str "ARG INSTALL_" ++ lang ++ str "=" ++ install_value) content with
  | None => None
  | Some content =>
      match (if truthy version_arg && truthy version_value then
               re_sub_str no_flags (version_pattern (text_of version_arg)) 0
                 (arg_line (text_of version_arg) (text_of version_value)) content
             else Some content) with
      | None => None
      | Some content =>
          if install then Some (re_sub MS (block_pattern lang) first_group content)
          else Some content
      end
  end.

Definition enabled (a : args) (c : component) : bool :=
  match c with
  | GOLANG => golang a
  | RUST => rust a
  | PYTHON => python a
  | NODEJS => nodejs a
  | JAVA => java a
  end.

(** The version arguments [main] passes for a language. *)
Definition version_args (a : args) (c : component) : option text * option text :=
  match c with
  | GOLANG => (Some (str "GO_VERSION"), Some (go_version a))
  | NODEJS => (Some (str "NODE_MAJOR"), Some (node_version a))
  | JAVA => (Some (str "JAVA_VERSION"), Some (java_version a))
  | RUST | PYTHON => (None, None)
  end.

(** One [configure_language] call of [main]. *)
Definition configure (a : args) (c : component) (content : text) : option text :=
  configure_language content (lang_name c) (enabled a c)
    (fst (version_args a c)) (snd (version_args a c)).

(** The three rewrites of such a call, for replacement strings that hold no
    backslash and so stand for themselves. *)
Definition flag_step (a : args) (c : component) (content : text) : text :=
  str_replace (install_flag (lang_name c) true)
              (install_flag (lang_name c) (enabled a c)) content.

Definition version_step (a : args) (c : component) (content : text) : text :=
  match version_args a c with
  | (Some key, Some (x :: v)) =>
      re_sub no_flags (version_pattern key) (fun _ _ => arg_line key (x :: v)) content
  | _ => content
  end.

Definition block_step (a : args) (c : component) (content : text) : text :=
  if enabled a c then re_sub MS (block_pattern (lang_name c)) first_group content
  else content.

(** The version values a run passes are plain. *)
Definition plain_versions (a : args) : bool :=
  plain (go_version a) && plain (node_version a) && plain (java_version a).

(** The literal start of the group of [block_pattern], and what follows
    it in the group. *)
Definition block_head (lang : text) : text :=
  str "RUN if [ " ++ dq :: str "$INSTALL_" ++ lang ++ dq :: str " = "
    ++ dq :: str "true" ++ dq :: str " ]; then " ++ [backslash].

Definition block_tail : regex := AnyStar true :: Bol :: lits (str "#     fi").

(** None of the markers of a call occurs in the text. *)
Definition unmarked (a : args) (c : component) (content : text) : bool :=
  negb (occurs (install_flag (lang_name c) true) content) &&
  match fst (version_args a c) with
  | Some key => negb (occurs (arg_line key []) content)
  | None => true
  end &&
  negb (occurs (str "# " ++ block_head (lang_name c)) content).

(** The calls in a given order; [main]'s order is [components]. *)
Fixpoint configure_in_order (order : list component) (a : args) (content : text)
  : option text :=
  match order with
  | [] => Some content
  | c :: rest =>
      match configure a c content with
      | Some content => configure_in_order rest a content
      | None => None
      end
  end.

(** The text [main] writes for the text it read. *)
Definition transform (a : args) (content : text) : option text :=
  match configure_base_os content (os a) with
  | Some content => configure_in_order components a content
  | None => None
  end.

Definition report (a : args) : list text :=
  [ str "Dockerfile generated at " ++ output a;
    nl :: str "Configuration:";
    str "  Base OS: " ++ profile_name (os a);
    str "  Golang: " ++ bool_literal (golang a) ++ str " (version " ++ go_version a ++ str ")";
    str "  Rust: " ++ bool_literal (rust a);
    str "  Python: " ++ bool_literal (python a);
    str "  Node.js: " ++ bool_literal (nodejs a) ++ str " (version " ++ node_version a ++ str ")";
    str "  Java: " ++ bool_literal (java a) ++ str " (version " ++ java_version a ++ str ")" ].

Definition main (a : args) (w : world) : outcome :=
  match read_template w (template a) with
  | inr message => Outcome 1 [message] w
  | inl content =>
      match transform a content with
      | None => Outcome 1 [] w
      | Some content =>
          match write_dockerfile w content (output a) with
          | inr message => Outcome 1 [message] w
          | inl w' => Outcome 0 (report a) w'
          end
      end
  end.

End Copy.

(** ** Concrete runs, used to test the definitions *)

Definition lines (ls : list text) : text := join [nl] ls.

(** A template with both profile blocks: ubuntu active, alpine commented. *)
Definition two_profiles : text :=
  lines [ str "FROM ubuntu:22.04";
          str "RUN apt-get update";
          str "";
          str "# FROM alpine:latest";
          str "# RUN apk update";
          str "";
          str "ARG INSTALL_RUST=true";
          cmd_bash;
          str "" ].

(** A world with one readable file. *)
Definition one_file (path content : text) : world :=
  World (fun p => if text_eqb p path then Some content else None) (fun _ => None).

Definition no_file : world := World (fun _ => None) (fun _ => None).

(** ** Tables read off the scripts, used to state what they do *)

(** The comment of the template that [create-dockerfile.py] turns into the
    [ash] command. *)
Definition ash_hint : text :=
  str "# For Alpine, use " ++ dq :: str "/bin/ash" ++ dq :: str " instead of "
    ++ dq :: str "/bin/bash" ++ [dq].

(** The markers the base OS selection of [create-dockerfile.py] looks for,
    each with the text that takes its place. *)
Definition base_markers (p : profile) : list (text * text) :=
  match p with
  | ubuntu =>
      [ (str "#FROM ubuntu:22.04", str "FROM ubuntu:22.04");
        (str "# RUN apt-get update", str "RUN apt-get update") ]
  | alpine =>
      [ (str "FROM ubuntu:22.04", str "# FROM ubuntu:22.04");
        (str "# FROM alpine:latest", str "FROM alpine:latest");
        (str "# RUN apk update", str "RUN apk update");
        (cmd_bash, str "# " ++ cmd_bash);
        (ash_hint, cmd_ash) ]
  end.

(** ** More concrete runs *)

(** [--nodejs --node-version 18] *)
Definition script_node18 : Script.args :=
  Script.Args ubuntu false (str "1.22.2") false false true (str "18")
              false (str "17") (str "Dockerfile") (str "t") false.

(** A world with the one file [t], in which the path [/proc/Dockerfile]
    cannot be written. *)
Definition read_only_world (content : text) : world :=
  World (fun p => if text_eqb p (str "t") then Some content else None)
        (fun p => if text_eqb p (str "/proc/Dockerfile")
                  then Some (str "[Errno 2] No such file or directory: '/proc/Dockerfile'")
                  else None).


Definition copy_rust_unwritable : Copy.args :=
  Copy.Args (str "/proc/Dockerfile") ubuntu false true false false false
            (str "1.22.2") (str "20") (str "17") (str "t").


Definition copy_rust : Copy.args :=
  Copy.Args (str "Dockerfile") ubuntu false true false false false
            (str "1.22.2") (str "20") (str "17") (str "t").

(** [--node-version 18\] with a template that holds no version assignment *)
Definition copy_node_backslash : Copy.args :=
  Copy.Args (str "Dockerfile") ubuntu false false false false false
            (str "1.22.2") (str "18" ++ [backslash]) (str "17") (str "t").

(** A line without its comment prefix [# ], when it is a commented line
    that goes on with [head]; any other line as it is. *)
Definition uncomment_line (head l : text) : text :=
  if startswith (str "# " ++ head) l then skipn 2 l else l.

(** The line that ends the commented block of a language. *)
Definition block_end : text := str "#     fi".

(** The commented block of Rust in a template, between two other lines. *)
Definition rust_block_before : list text := [str "FROM alpine:latest"].

Definition rust_block_body : list text :=
  [str "#     apk add --no-cache rust cargo; " ++ [backslash]].

Definition rust_block_after : text := str "CMD [" ++ dq :: str "/bin/ash" ++ dq :: str "]".

(** A template without an empty line and without a final newline. *)
Definition dense_template : list text :=
  [ str "FROM ubuntu:22.04";
    str "RUN apt-get update";
    str "# FROM alpine:latest";
    str "# RUN apk update";
    cmd_bash ].

(** No version value of a run of the copy holds the text [q]. *)
Definition versions_free_of (q : text) (b : Copy.args) : bool :=
  negb (occurs q (Copy.go_version b)) &&
  negb (occurs q (Copy.node_version b)) &&
  negb (occurs q (Copy.java_version b)).

(** No version value given to [create-dockerfile.py] holds a newline. *)
Definition script_versions_one_line (a : Script.args) : bool :=
  one_line (Script.go_version a) && one_line (Script.node_version a) &&
  one_line (Script.java_version a).

(** No language is requested from the copy. *)
Definition copy_no_language (b : Copy.args) : bool :=
  negb (Copy.golang b || Copy.rust b || Copy.python b || Copy.nodejs b || Copy.java b).

(** [--all --base alpine --go-version 1.21.0] *)
Definition script_all : Script.args :=
  Script.Args alpine false (str "1.21.0") false false false (str "20")
              false (str "17") (str "Dockerfile") (str "t") true.

(** A line of a template that the [alpine] step of the copy, once it has
    commented the line, leaves alone: it is not empty, would not begin an
    alpine line, and holds no [bash] command. *)
Definition stays_commented (l : text) : bool :=
  one_line l && negb (text_eqb l []) &&
  negb (startswith (str "FROM alpine") l) &&
  negb (startswith (str "RUN apk update") l) &&
  negb (occurs cmd_bash (Copy.comment_line l)).

(** A template that ends in a newline and has no empty line. *)
Definition no_empty_line_body : list text :=
  [ str "RUN apt-get update"; str "# FROM alpine:latest"; str "# RUN apk update" ].

(** The number of newlines of a text. *)
Definition newlines (s : text) : nat :=
  length (filter (fun c => Ascii.eqb c nl) s).

(** No version value given to the copy holds a newline. *)
Definition copy_versions_one_line (b : Copy.args) : bool :=
  one_line (Copy.go_version b) && one_line (Copy.node_version b) &&
  one_line (Copy.java_version b).

(** [--os alpine --rust --go-version 1.21.0] *)
Definition copy_alpine_rust : Copy.args :=
  Copy.Args (str "Dockerfile") alpine false true false false false
            (str "1.21.0") (str "20") (str "17") (str "t").
(** ** Facts on prefixes and occurrences *)

Lemma startswith_app (p t : text) : startswith p (p ++ t) = true.
Proof.
  induction p as [|a p IH]; simpl; [reflexivity|].
  now rewrite Ascii.eqb_refl.
Qed.

Lemma startswith_split (p s : text) :
  startswith p s = true -> s = p ++ skipn (length p) s.
Proof.
  revert s; induction p as [|a p IH]; intros [|b s]; simpl; try easy.
  intros H. apply andb_prop in H as [Hab Hp].
  apply Ascii.eqb_eq in Hab. subst b. f_equal. now apply IH.
Qed.

Lemma startswith_longer (p s : text) :
  startswith p s = true -> length p <= length s.
Proof.
  revert s; induction p as [|a p IH]; intros [|b s]; simpl; try easy; try lia.
  intros H. apply andb_prop in H as [_ Hp]. apply IH in Hp. lia.
Qed.

Lemma startswith_within (p s t : text) :
  length p <= length s -> startswith p (s ++ t) = startswith p s.
Proof.
  revert s; induction p as [|a p IH]; intros [|b s]; simpl; try easy; try lia.
  intros H. rewrite IH by lia. reflexivity.
Qed.

Lemma startswith_past (u p w : text) :
  length u <= length p ->
  startswith p (u ++ w) = true -> startswith (skipn (length u) p) w = true.
Proof.
  revert p; induction u as [|c u IH]; intros [|a p]; simpl; try easy; try lia.
  intros Hl H. apply andb_prop in H as [_ H]. apply IH; [lia|exact H].
Qed.

Lemma clash_startswith (p r t : text) :
  clash p r = true -> startswith p (r ++ t) = false.
Proof.
  revert r; induction p as [|a p IH]; intros [|b r]; simpl; try easy.
  intros H. apply orb_prop in H as [H|H].
  - apply negb_true_iff in H. now rewrite H.
  - rewrite (IH _ H). apply andb_false_r.
Qed.

Lemma never_starts_in_spec (p r : text) (k : nat) (t : text) :
  never_starts_in p r = true -> k < length r ->
  startswith p (skipn k r ++ t) = false.
Proof.
  unfold never_starts_in. intros H Hk.
  rewrite forallb_forall in H.
  apply clash_startswith, H, in_seq. lia.
Qed.

Lemma never_runs_into_spec (p r u t : text) :
  never_runs_into p r = true -> u <> [] -> length u < length p ->
  startswith p (u ++ r ++ t) = false.
Proof.
  unfold never_runs_into. intros H Hu Hl.
  rewrite forallb_forall in H.
  destruct (startswith p (u ++ r ++ t)) eqn:E; [|reflexivity].
  apply startswith_past in E; [|lia].
  assert (Hk : In (length u) (seq 1 (length p - 1))).
  { apply in_seq. destruct u; [congruence|simpl in *; lia]. }
  apply H in Hk. apply clash_startswith with (t := t) in Hk. congruence.
Qed.

Lemma occurs_tail (p : text) (c : ascii) (s : text) :
  occurs p (c :: s) = false -> occurs p s = false.
Proof. simpl. intros H. now apply orb_false_elim in H. Qed.

Lemma occurs_head (p s : text) :
  occurs p s = false -> startswith p s = false.
Proof. destruct s; simpl; intros H; now apply orb_false_elim in H. Qed.

Lemma occurs_skipn (p : text) (k : nat) (s : text) :
  occurs p s = false -> occurs p (skipn k s) = false.
Proof.
  revert s; induction k as [|k IH]; intros [|c s] H; simpl; try easy.
  apply IH. now apply occurs_tail in H.
Qed.

(** ** The equations of [str.replace] *)

Section Replace.

Variables old new : text.
Hypothesis old_nonempty : old <> [].

Lemma startswith_nil_old : startswith old [] = false.
Proof. destruct old; [congruence|reflexivity]. Qed.

Lemma replace_from_skipn (k : nat) (s : text) :
  replace_from old new k s = str_replace old new (skipn k s).
Proof.
  revert s; induction k as [|k IH]; intros s; [reflexivity|].
  destruct s as [|c s].
  - unfold str_replace. simpl. now rewrite startswith_nil_old.
  - simpl. apply IH.
Qed.

Lemma str_replace_nil : str_replace old new [] = [].
Proof. unfold str_replace; simpl. now rewrite startswith_nil_old. Qed.

Lemma str_replace_miss (c : ascii) (s : text) :
  startswith old (c :: s) = false ->
  str_replace old new (c :: s) = c :: str_replace old new s.
Proof. unfold str_replace. cbn [replace_from]. now intros ->. Qed.

Lemma old_cons : exists a p, old = a :: p.
Proof. destruct old as [|a p]; [congruence|now exists a, p]. Qed.

Lemma str_replace_hit (s : text) :
  str_replace old new (old ++ s) = new ++ str_replace old new s.
Proof.
  destruct old_cons as (a & p & E).
  unfold str_replace at 1.
  pose proof (startswith_app old s) as Hs.
  pose proof (replace_from_skipn (length p) (p ++ s)) as Hk.
  rewrite skipn_app, skipn_all, Nat.sub_diag in Hk. simpl in Hk.
  rewrite E in *. change ((a :: p) ++ s) with (a :: (p ++ s)) in *.
  cbn [replace_from]. rewrite Hs. cbn [length]. now rewrite Hk.
Qed.

(** Induction along the scan of [str.replace]. *)
Lemma scan_ind (Q : text -> Prop) :
  Q [] ->
  (forall s, Q s -> Q (old ++ s)) ->
  (forall c s, startswith old (c :: s) = false -> Q s -> Q (c :: s)) ->
  forall s, Q s.
Proof.
  intros Hnil Hhit Hmiss s.
  remember (length s) as n eqn:Hn.
  revert s Hn. induction n as [n IH] using lt_wf_ind. intros s Hn.
  destruct s as [|c s]; [exact Hnil|].
  destruct (startswith old (c :: s)) eqn:E.
  - rewrite (startswith_split _ _ E). apply Hhit.
    apply (IH (length (skipn (length old) (c :: s)))); [|reflexivity].
    rewrite length_skipn. subst n. destruct old_cons as (a & p & ->). simpl; lia.
  - apply Hmiss; [exact E|]. apply (IH (length s)); [subst n; simpl; lia|reflexivity].
Qed.

(** Nothing to replace: the text is returned as it is. *)
Lemma str_replace_absent (s : text) :
  occurs old s = false -> str_replace old new s = s.
Proof.
  induction s as [|c s IH]; intros H.
  - apply str_replace_nil.
  - rewrite str_replace_miss by now apply occurs_head.
    f_equal. apply IH. now apply occurs_tail in H.
Qed.


(** A pattern that holds no newline is replaced line by line. *)
Lemma str_replace_lines (a b : text) :
  ~ In nl old ->
  str_replace old new (a ++ nl :: b) =
  str_replace old new a ++ nl :: str_replace old new b.
Proof.
  intros Hnl. revert a. apply (scan_ind (fun a => _ = _)).
  - rewrite str_replace_nil. simpl.
    apply str_replace_miss.
    destruct old_cons as (x & p & E). rewrite E in *. simpl.
    destruct (Ascii.eqb x nl) eqn:Ex; [|reflexivity].
    apply Ascii.eqb_eq in Ex. subst x. exfalso. apply Hnl. now left.
  - intros s IH. rewrite <- app_assoc, !str_replace_hit, IH.
    now rewrite <- app_assoc.
  - intros c s E IH. change ((c :: s) ++ nl :: b) with (c :: (s ++ nl :: b)).
    rewrite !str_replace_miss, IH; [reflexivity|exact E|].
    destruct (startswith old (c :: s ++ nl :: b)) eqn:E'; [|reflexivity].
    exfalso.
    destruct (le_lt_dec (length old) (length (c :: s))) as [Hl|Hl].
    + change (c :: s ++ nl :: b) with ((c :: s) ++ nl :: b) in E'.
      rewrite startswith_within in E' by exact Hl. congruence.
    + apply Hnl.
      change (c :: s ++ nl :: b) with ((c :: s) ++ nl :: b) in E'.
      apply startswith_past in E'; [|lia].
      destruct (skipn (length (c :: s)) old) as [|y q] eqn:Es.
      * apply (f_equal (@length ascii)) in Es. rewrite length_skipn in Es.
        simpl in Es. simpl in Hl. lia.
      * simpl in E'. apply andb_prop in E' as [Ey _].
        apply Ascii.eqb_eq in Ey. subst y.
        assert (Hin : In nl (skipn (length (c :: s)) old)) by (rewrite Es; now left).
        revert Hin. generalize (length (c :: s)). clear.
        intros k. revert old. induction k; intros [|x p]; simpl; auto.
Qed.

End Replace.

(** Replacing a text by itself changes nothing. *)
Lemma str_replace_same (p s : text) : p <> [] -> str_replace p p s = s.
Proof.
  intros Hp. revert s. apply (scan_ind p Hp).
  - now apply str_replace_nil.
  - intros s IH. rewrite str_replace_hit by exact Hp. now rewrite IH.
  - intros c s E IH. rewrite str_replace_miss by exact E. now rewrite IH.
Qed.

(** ** Rewrites that do not disturb each other *)

(** A text the pattern cannot begin in is copied. *)
Lemma str_replace_over (p x r t : text) :
  p <> [] -> never_starts_in p r = true ->
  str_replace p x (r ++ t) = r ++ str_replace p x t.
Proof.
  intros Hp H.
  assert (G : forall k, k <= length r ->
            str_replace p x (skipn k r ++ t) = skipn k r ++ str_replace p x t).
  { intros k Hk. remember (length r - k) as d eqn:Hd.
    revert k Hk Hd. induction d as [|d IH]; intros k Hk Hd.
    - rewrite skipn_all2 by lia. reflexivity.
    - assert (Hlt : k < length r) by lia.
      pose proof (never_starts_in_spec p r k t H Hlt) as Hs.
      assert (E : skipn k r = nth k r nl :: skipn (S k) r).
      { clear -Hlt. revert k Hlt. induction r as [|c r IHr]; intros [|k] Hlt; simpl in *;
          try lia; try reflexivity. apply IHr. lia. }
      rewrite E in Hs |- *.
      change ((nth k r nl :: skipn (S k) r) ++ t)
        with (nth k r nl :: (skipn (S k) r ++ t)) in Hs |- *.
      rewrite str_replace_miss by exact Hs.
      rewrite <- app_comm_cons. f_equal. apply (IH (S k)); lia. }
  apply (G 0). lia.
Qed.

(** A pattern that is a prefix after another rewrite was one before it. *)
Lemma startswith_through (p p2 r2 : text) :
  p2 <> [] -> never_runs_into p r2 = true ->
  forall t u, u <> [] ->
    startswith p (u ++ str_replace p2 r2 t) = true -> startswith p (u ++ t) = true.
Proof.
  intros Hp2 H. apply (scan_ind p2 Hp2 (fun t => forall u, _ -> _ -> _)).
  - intros u _. now rewrite str_replace_nil.
  - intros s _ u Hu. rewrite str_replace_hit by exact Hp2.
    destruct (le_lt_dec (length p) (length u)) as [Hl|Hl].
    + now rewrite !startswith_within by exact Hl.
    + now rewrite never_runs_into_spec.
  - intros c s E IH u Hu. rewrite str_replace_miss by exact E.
    change (u ++ c :: str_replace p2 r2 s) with (u ++ [c] ++ str_replace p2 r2 s).
    change (u ++ c :: s) with (u ++ [c] ++ s).
    rewrite !app_assoc. apply IH. now destruct u.
Qed.

(** Running a replacement again changes nothing when the pattern cannot
    overlap what replaced it. *)
Lemma str_replace_idempotent (p r s : text) :
  p <> [] -> apart p r = true ->
  str_replace p r (str_replace p r s) = str_replace p r s.
Proof.
  intros Hp H. apply andb_prop in H as [Hin Hrun].
  revert s. apply (scan_ind p Hp).
  - now rewrite !str_replace_nil.
  - intros s IH. rewrite str_replace_hit by exact Hp.
    rewrite str_replace_over by assumption. now rewrite IH.
  - intros c s E IH. rewrite str_replace_miss by exact E.
    rewrite str_replace_miss, IH; [reflexivity|].
    destruct (startswith p (c :: str_replace p r s)) eqn:E'; [|reflexivity].
    apply (startswith_through p p r Hp Hrun s [c]) in E'; [|discriminate].
    simpl app in E'. congruence.
Qed.


(** ** A pattern of literal characters: [re.sub] is [str.replace] *)

Lemma match_here_lits (fl : flags) (p : text) (pos : nat) (prev : option ascii)
  (s : text) :
  match_here fl (lits p) pos prev s =
  if startswith p s then Some (Found (pos + length p) 0 0) else None.
Proof.
  revert pos prev s. induction p as [|a p IH]; intros pos prev s.
  - simpl. now rewrite Nat.add_0_r.
  - destruct s as [|c s]; [reflexivity|]. cbn [lits map match_here startswith].
    change (map Chr p) with (lits p). rewrite IH.
    destruct (Ascii.eqb a c); [|reflexivity]. simpl.
    now rewrite Nat.add_succ_r.
Qed.

Lemma sub_from_lits (fl : flags) (p r : text) (repl : text -> text -> text) :
  (forall g0 g1, repl g0 g1 = r) ->
  forall s k prev, sub_from fl (lits p) repl k prev s = replace_from p r k s.
Proof.
  intros Hr. induction s as [|c s IH]; intros k prev.
  - destruct k; [|reflexivity]. cbn [sub_from replace_from].
    rewrite match_here_lits. destruct (startswith p []); [apply Hr|reflexivity].
  - destruct k as [|k]; cbn [sub_from replace_from]; [|apply IH].
    rewrite match_here_lits.
    destruct (startswith p (c :: s)); [|now rewrite IH].
    cbn [m_end]. rewrite Hr. simpl. f_equal.
    destruct (length p); now rewrite IH.
Qed.

Lemma then_parts_some (a b : list part) :
  then_parts (Some a) (Some b) = Some (a ++ b).
Proof. reflexivity. Qed.

Lemma plain_cons (c : ascii) (t : text) :
  plain (c :: t) = negb (Ascii.eqb c backslash) && plain t.
Proof. reflexivity. Qed.

Lemma plain_app (a b : text) : plain (a ++ b) = plain a && plain b.
Proof. apply forallb_app. Qed.

(** A template without a backslash stands for itself. *)
Lemma parse_tmpl_plain (groups : nat) (t : text) :
  plain t = true ->
  forall fuel, length t < fuel -> parse_tmpl fuel groups t = Some (map Lit t).
Proof.
  induction t as [|c t IH]; intros H fuel Hf.
  - destruct fuel; [lia|reflexivity].
  - destruct fuel as [|fuel]; [lia|].
    rewrite plain_cons in H. apply andb_prop in H as [Hc Ht].
    cbn [parse_tmpl]. rewrite Hc, IH by (try assumption; simpl in Hf; lia).
    reflexivity.
Qed.

Lemma parse_template_plain (groups : nat) (t : text) :
  plain t = true -> parse_template groups t = Some (map Lit t).
Proof. intros H. apply parse_tmpl_plain; [exact H|lia]. Qed.

Lemma expand_lits (t g0 g1 : text) : expand (map Lit t) g0 g1 = t.
Proof. induction t as [|c t IH]; simpl; [reflexivity|now rewrite IH]. Qed.

Lemma re_sub_str_lits (fl : flags) (p r s : text) (groups : nat) :
  plain r = true ->
  re_sub_str fl (lits p) groups r s = Some (str_replace p r s).
Proof.
  intros H. unfold re_sub_str. rewrite parse_template_plain by exact H.
  unfold re_sub, str_replace. f_equal. apply sub_from_lits. apply expand_lits.
Qed.

(** ** The markers of the five languages *)

Lemma install_flag_nonempty (lang : text) (b : bool) : install_flag lang b <> [].
Proof. discriminate. Qed.

Lemma install_flag_plain (c : component) (b : bool) :
  plain (install_flag (lang_name c) b) = true.
Proof. destruct c, b; reflexivity. Qed.

Lemma install_flag_one_line (c : component) (b : bool) :
  ~ In nl (install_flag (lang_name c) b).
Proof.
  assert (H : forallb (fun x => negb (Ascii.eqb x nl)) (install_flag (lang_name c) b) = true)
    by (destruct c, b; reflexivity).
  rewrite forallb_forall in H. intros Hin. apply H in Hin.
  now rewrite Ascii.eqb_refl in Hin.
Qed.


Lemma install_flag_apart (c : component) :
  apart (install_flag (lang_name c) true) (install_flag (lang_name c) false) = true.
Proof. destruct c; vm_compute; reflexivity. Qed.

Lemma install_flag_independent (c1 c2 : component) (b1 b2 : bool) :
  c1 <> c2 ->
  independent (install_flag (lang_name c1) true) (install_flag (lang_name c1) b1)
              (install_flag (lang_name c2) true) (install_flag (lang_name c2) b2) = true.
Proof.
  intros H. destruct c1, c2, b1, b2; try congruence; vm_compute; reflexivity.
Qed.

(** The rewrite of an enable flag, as both scripts do it. *)
Lemma flag_rewrite_idempotent (c : component) (b : bool) (t : text) :
  str_replace (install_flag (lang_name c) true) (install_flag (lang_name c) b)
    (str_replace (install_flag (lang_name c) true) (install_flag (lang_name c) b) t) =
  str_replace (install_flag (lang_name c) true) (install_flag (lang_name c) b) t.
Proof.
  destruct b.
  - now rewrite !str_replace_same by apply install_flag_nonempty.
  - apply str_replace_idempotent; [apply install_flag_nonempty|apply install_flag_apart].
Qed.


Lemma script_configure_disabled (a : Script.args) (c : component) (t : text) :
  Script.enabled a c = false ->
  Script.configure a c t =
  str_replace (install_flag (lang_name c) true) (install_flag (lang_name c) false) t.
Proof. unfold Script.configure. now intros ->. Qed.


(** ** The matcher on the shapes of the copy's patterns *)

Lemma match_here_lits_then (fl : flags) (p : text) (r : regex) (pos : nat)
  (prev : option ascii) (s : text) :
  match_here fl (lits p ++ r) pos prev s =
  if startswith p s
  then match_here fl r (pos + length p) (prev_after prev p) (skipn (length p) s)
  else None.
Proof.
  revert pos prev s. induction p as [|a p IH]; intros pos prev s.
  - simpl. now rewrite Nat.add_0_r.
  - destruct s as [|c s]; [reflexivity|].
    change (lits (a :: p) ++ r) with (Chr a :: (lits p ++ r)).
    cbn [match_here startswith].
    destruct (Ascii.eqb a c) eqn:E; [|reflexivity].
    apply Ascii.eqb_eq in E. subst c.
    rewrite IH. simpl. now rewrite Nat.add_succ_r.
Qed.

Lemma match_here_greedy_line (pos : nat) (prev : option ascii) (s : text) :
  match_here no_flags [AnyStar false] pos prev s =
  Some (Found (pos + length (upto_eol s)) 0 0).
Proof.
  revert pos prev. induction s as [|c s IH]; intros pos prev.
  - simpl. now rewrite Nat.add_0_r.
  - cbn [match_here] in IH |- *. unfold dot_ok. cbn [dotall no_flags orb upto_eol].
    destruct (Ascii.eqb c nl); cbn [negb].
    + simpl. now rewrite Nat.add_0_r.
    + rewrite IH. simpl. now rewrite Nat.add_succ_r.
Qed.

Lemma skipn_upto_eol (s : text) : skipn (length (upto_eol s)) s = from_eol s.
Proof.
  induction s as [|c s IH]; [reflexivity|]. simpl.
  destruct (Ascii.eqb c nl); [reflexivity|exact IH].
Qed.

Lemma upto_eol_length (s : text) : length (upto_eol s) <= length s.
Proof.
  induction s as [|c s IH]; simpl; [lia|].
  destruct (Ascii.eqb c nl); simpl; lia.
Qed.

Lemma from_eol_length (s : text) : length (from_eol s) <= length s.
Proof.
  induction s as [|c s IH]; simpl; [lia|].
  destruct (Ascii.eqb c nl); simpl; lia.
Qed.

Lemma from_eol_app (a b : text) : from_eol (a ++ nl :: b) = from_eol a ++ nl :: b.
Proof.
  induction a as [|c a IH].
  - reflexivity.
  - simpl. destruct (Ascii.eqb c nl); [reflexivity|exact IH].
Qed.

Lemma from_eol_one_line (x : text) : ~ In nl x -> from_eol x = [].
Proof.
  induction x as [|c x IH]; intros H; [reflexivity|]. simpl.
  destruct (Ascii.eqb c nl) eqn:E.
  - apply Ascii.eqb_eq in E. subst c. exfalso. apply H. now left.
  - apply IH. intros Hin. apply H. now right.
Qed.

Lemma in_skipn (c : ascii) (k : nat) (p : text) : In c (skipn k p) -> In c p.
Proof.
  revert p; induction k as [|k IH]; intros [|x p]; simpl; auto.
Qed.

(** A pattern without a newline that begins a text before a newline lies
    before that newline. *)
Lemma startswith_line (p a b : text) :
  ~ In nl p -> startswith p (a ++ nl :: b) = startswith p a.
Proof.
  intros Hnl.
  destruct (le_lt_dec (length p) (length a)) as [Hl|Hl].
  - now apply startswith_within.
  - destruct (startswith p a) eqn:Ea.
    + apply startswith_longer in Ea. lia.
    + destruct (startswith p (a ++ nl :: b)) eqn:E; [|reflexivity].
      exfalso. apply startswith_past in E; [|lia].
      destruct (skipn (length a) p) as [|y q] eqn:Es.
      * apply (f_equal (@length ascii)) in Es. rewrite length_skipn in Es.
        simpl in Es. lia.
      * simpl in E. apply andb_prop in E as [Ey _].
        apply Ascii.eqb_eq in Ey. subst y.
        apply Hnl, (in_skipn nl (length a)). rewrite Es. now left.
Qed.

(** The scan of [re.sub] after a match. *)
Lemma sub_from_skip (fl : flags) (re : regex) (repl : text -> text -> text) :
  forall k s prev, k <= length s ->
    sub_from fl re repl k prev s =
    sub_from fl re repl 0 (prev_after prev (firstn k s)) (skipn k s).
Proof.
  induction k as [|k IH]; intros s prev Hk; [reflexivity|].
  destruct s as [|c s]; [simpl in Hk; lia|].
  cbn [sub_from firstn skipn]. rewrite IH by (simpl in Hk; lia). reflexivity.
Qed.

(** ** The rewrite of a version assignment: [ARG <key>=.*] *)

Section VersionRewrite.

Variable key : text.
Variable r : text.
Variable repl : text -> text -> text.
Hypothesis repl_const : forall g0 g1, repl g0 g1 = r.
Hypothesis key_one_line : ~ In nl (arg_line key []).

Let K : text := arg_line key [].
Let V (prev : option ascii) (s : text) : text :=
  sub_from no_flags (Copy.version_pattern key) repl 0 prev s.

Lemma match_version (pos : nat) (prev : option ascii) (s : text) :
  match_here no_flags (Copy.version_pattern key) pos prev s =
  if startswith K s
  then Some (Found (pos + length K + length (upto_eol (skipn (length K) s))) 0 0)
  else None.
Proof.
  unfold Copy.version_pattern. rewrite match_here_lits_then. fold K.
  destruct (startswith K s); [|reflexivity].
  apply match_here_greedy_line.
Qed.

Lemma K_cons : exists a p, K = a :: p.
Proof. unfold K, arg_line. simpl. eauto. Qed.

Lemma version_prev (s : text) :
  forall k prev prev',
    sub_from no_flags (Copy.version_pattern key) repl k prev s =
    sub_from no_flags (Copy.version_pattern key) repl k prev' s.
Proof.
  induction s as [|c s IH]; intros k prev prev'.
  - destruct k; [|reflexivity]. cbn [sub_from]. now rewrite !match_version.
  - destruct k; cbn [sub_from]; [|reflexivity]. now rewrite !match_version.
Qed.

Lemma version_nil (prev : option ascii) : V prev [] = [].
Proof.
  unfold V. cbn [sub_from]. rewrite match_version.
  destruct K_cons as (a & p & ->). reflexivity.
Qed.

Lemma version_miss (prev : option ascii) (c : ascii) (s : text) :
  startswith K (c :: s) = false -> V prev (c :: s) = c :: V None s.
Proof.
  intros E. unfold V. cbn [sub_from]. rewrite match_version, E.
  f_equal. apply version_prev.
Qed.

Lemma version_hit (prev : option ascii) (s : text) :
  startswith K s = true -> V prev s = r ++ V None (from_eol (skipn (length K) s)).
Proof.
  intros E. unfold V.
  pose proof (startswith_longer _ _ E) as Hl.
  pose proof (upto_eol_length (skipn (length K) s)) as Hu.
  rewrite length_skipn in Hu.
  destruct s as [|c s].
  { destruct K_cons as (a & p & HK). rewrite HK in E. discriminate. }
  cbn [sub_from]. rewrite match_version, E. cbn [m_end]. rewrite repl_const.
  f_equal.
  destruct K_cons as (a & p & HK).
  assert (HlK : length K = S (length p)) by now rewrite HK.
  rewrite <- (skipn_upto_eol (skipn (length K) (c :: s))), skipn_skipn.
  remember (length (upto_eol (skipn (length K) (c :: s)))) as u eqn:Hu'.
  change (length (c :: s)) with (S (length s)) in Hl, Hu.
  replace (0 + length K + u) with (S (length p + u)) by lia.
  rewrite sub_from_skip by lia.
  rewrite (version_prev _ 0 _ None).
  f_equal. replace (u + length K) with (S (length p + u)) by lia. reflexivity.
Qed.

(** No version assignment: the text is returned as it is. *)
Lemma version_absent (s : text) :
  forall prev, occurs K s = false -> V prev s = s.
Proof.
  induction s as [|c s IH]; intros prev H.
  - apply version_nil.
  - rewrite version_miss by now apply occurs_head.
    f_equal. apply IH. now apply occurs_tail in H.
Qed.

(** The version assignments are rewritten line by line. *)
Lemma version_lines (b : text) :
  forall a prev, V prev (a ++ nl :: b) = V None a ++ nl :: V None b.
Proof.
  intros a. remember (length a) as n eqn:Hn.
  revert a Hn. induction n as [n IH] using lt_wf_ind. intros a Hn prev.
  destruct (startswith K (a ++ nl :: b)) eqn:E.
  - pose proof E as Ea. rewrite startswith_line in Ea by exact key_one_line.
    rewrite (version_hit prev _ E), (version_hit None _ Ea).
    pose proof (startswith_longer _ _ Ea) as Hl.
    rewrite skipn_app.
    replace (length K - length a) with 0 by lia.
    cbn [skipn]. rewrite from_eol_app, <- app_assoc. f_equal.
    apply (IH (length (from_eol (skipn (length K) a)))); [|reflexivity].
    pose proof (from_eol_length (skipn (length K) a)) as Hf.
    rewrite length_skipn in Hf. destruct K_cons as (x & p & HK).
    rewrite HK in *. simpl in *. lia.
  - pose proof E as Ea. rewrite startswith_line in Ea by exact key_one_line.
    destruct a as [|c a].
    + rewrite version_nil. simpl. now apply version_miss.
    + change ((c :: a) ++ nl :: b) with (c :: (a ++ nl :: b)) in E |- *.
      rewrite (version_miss prev _ _ E), (version_miss None _ _ Ea).
      simpl. f_equal. apply (IH (length a)); [subst n; simpl; lia|reflexivity].
Qed.

(** A line that begins with the assignment becomes the replacement. *)
Lemma version_line (x : text) (prev : option ascii) :
  ~ In nl x -> V prev (K ++ x) = r.
Proof.
  intros Hx. rewrite version_hit by apply startswith_app.
  rewrite skipn_app, skipn_all, Nat.sub_diag. cbn [skipn app].
  rewrite from_eol_one_line by exact Hx.
  rewrite version_nil. apply app_nil_r.
Qed.

End VersionRewrite.

(** ** The uncommenting patterns: [^# (<body>)$] with group 1 put back *)

Lemma match_end_bounds (fl : flags) (re : regex) :
  forall pos prev s m,
    match_here fl re pos prev s = Some m ->
    pos <= m_end m /\ m_end m <= pos + length s.
Proof.
  induction re as [|a re IH]; intros pos prev s m H.
  - injection H as <-. simpl. lia.
  - destruct a as [c| | |lazy| |].
    + destruct s as [|x s]; [discriminate|]. cbn [match_here] in H.
      destruct (Ascii.eqb c x); [|discriminate].
      apply IH in H. simpl. lia.
    + cbn [match_here] in H. destruct (at_bol fl prev); [|discriminate].
      now apply IH in H.
    + cbn [match_here] in H. destruct (at_eol fl s); [|discriminate].
      now apply IH in H.
    + revert pos prev m H. induction s as [|x s IHs]; intros pos prev m H.
      * cbn [match_here] in H. now apply IH in H.
      * cbn [match_here] in H. destruct lazy.
        -- destruct (match_here fl re pos prev (x :: s)) as [m'|] eqn:E.
           ++ injection H as <-. now apply IH in E.
           ++ destruct (dot_ok fl x); [|discriminate].
              apply IHs in H. simpl. lia.
        -- destruct (dot_ok fl x).
           ++ match type of H with
              | match ?t with _ => _ end = _ => destruct t as [m'|] eqn:E
              end.
              ** injection H as <-. apply IHs in E. simpl. lia.
              ** now apply IH in H.
           ++ now apply IH in H.
    + cbn [match_here] in H.
      destruct (match_here fl re pos prev s) as [m'|] eqn:E; [|discriminate].
      injection H as <-. now apply IH in E.
    + cbn [match_here] in H.
      destruct (match_here fl re pos prev s) as [m'|] eqn:E; [|discriminate].
      injection H as <-. now apply IH in E.
Qed.

Lemma match_group_end (fl : flags) (body : regex) :
  groupless body = true ->
  forall pos prev s m,
    match_here fl (body ++ [Close; Eol]) pos prev s = Some m ->
    g_end m = m_end m.
Proof.
  induction body as [|a body IH]; intros Hg pos prev s m H.
  - cbn [app match_here] in H. destruct (at_eol fl s); [|discriminate].
    now injection H as <-.
  - cbn [groupless forallb] in Hg. apply andb_prop in Hg as [Ha Hg].
    specialize (IH Hg).
    destruct a as [c| | |lazy| |]; try discriminate; cbn [app] in H.
    + destruct s as [|x s]; [discriminate|]. cbn [match_here] in H.
      destruct (Ascii.eqb c x); [|discriminate]. now apply IH in H.
    + cbn [match_here] in H. destruct (at_bol fl prev); [|discriminate].
      now apply IH in H.
    + cbn [match_here] in H. destruct (at_eol fl s); [|discriminate].
      now apply IH in H.
    + revert pos prev m H. induction s as [|x s IHs]; intros pos prev m H.
      * cbn [match_here] in H. now apply IH in H.
      * cbn [match_here] in H. destruct lazy.
        -- destruct (match_here fl (body ++ [Close; Eol]) pos prev (x :: s)) as [m'|] eqn:E.
           ++ injection H as <-. now apply IH in E.
           ++ destruct (dot_ok fl x); [|discriminate]. now apply IHs in H.
        -- destruct (dot_ok fl x).
           ++ match type of H with
              | match ?t with _ => _ end = _ => destruct t as [m'|] eqn:E
              end.
              ** injection H as <-. now apply IHs in E.
              ** now apply IH in H.
           ++ now apply IH in H.
Qed.

(** What a match of [^# (<head><tail>)$] looks like. *)
Lemma match_commented (fl : flags) (head : text) (tail : regex)
  (prev : option ascii) (s : text) (m : found) :
  groupless tail = true ->
  match_here fl (commented head tail) 0 prev s = Some m ->
  at_bol fl prev = true /\
  exists s2, s = "#"%char :: " "%char :: s2 /\ startswith head s2 = true /\
             g_start m = 2 /\ g_end m = m_end m /\
             2 <= m_end m /\ m_end m <= length s.
Proof.
  intros Hg H. unfold commented in H. cbn [match_here] in H.
  destruct (at_bol fl prev); [|discriminate]. split; [reflexivity|].
  destruct s as [|x s]; [discriminate|].
  destruct (Ascii.eqb "#" x) eqn:Ex; [|discriminate].
  destruct s as [|y s]; [discriminate|].
  destruct (Ascii.eqb " " y) eqn:Ey; [|discriminate].
  apply Ascii.eqb_eq in Ex, Ey. subst x y.
  destruct (match_here fl (lits head ++ tail ++ [Close; Eol]) 2 (Some " "%char) s)
    as [m'|] eqn:E; [|discriminate].
  injection H as <-. exists s. cbn [g_start g_end m_end].
  assert (Hgl : groupless (lits head ++ tail) = true).
  { unfold groupless. rewrite forallb_app. fold (groupless (lits head)) (groupless tail).
    rewrite Hg. clear. induction head as [|c h IH]; [reflexivity|exact IH]. }
  pose proof E as E'. rewrite app_assoc in E'.
  pose proof (match_group_end fl _ Hgl _ _ _ _ E').
  pose proof (match_end_bounds _ _ _ _ _ _ E).
  rewrite match_here_lits_then in E.
  destruct (startswith head s); [|discriminate].
  simpl. repeat split; try lia; auto.
Qed.

Lemma uncommented_firstn (head : text) (k : nat) :
  forall s prev out,
    k <= length s ->
    uncommented head (at_bol MS (prev_after prev (firstn k s))) (skipn k s) out ->
    uncommented head (at_bol MS prev) s (firstn k s ++ out).
Proof.
  induction k as [|k IH]; intros s prev out Hk H; [exact H|].
  destruct s as [|c s]; [simpl in Hk; lia|].
  cbn [firstn skipn app] in *. apply unc_copy.
  apply (IH s (Some c) out); [simpl in Hk; lia|exact H].
Qed.

Lemma at_bol_multiline (fl : flags) (prev : option ascii) :
  multiline fl = true -> at_bol fl prev = at_bol MS prev.
Proof. intros H. destruct prev; simpl; [now rewrite H|reflexivity]. Qed.

(** [re.sub] with such a pattern removes ["# "] at the start of lines that
    go on with [head], and nothing else. *)
Lemma sub_commented (fl : flags) (head : text) (tail : regex)
  (repl : text -> text -> text) :
  multiline fl = true -> groupless tail = true ->
  (forall g0 g1, repl g0 g1 = g1) ->
  forall s prev,
    uncommented head (at_bol MS prev) s
      (sub_from fl (commented head tail) repl 0 prev s).
Proof.
  intros Hm Hg Hr s. remember (length s) as n eqn:Hn.
  revert s Hn. induction n as [n IH] using lt_wf_ind. intros s Hn prev.
  destruct s as [|c s].
  - cbn [sub_from].
    destruct (match_here fl (commented head tail) 0 prev []) as [m|] eqn:E.
    + apply match_commented in E as (_ & s2 & Hs & _); [discriminate|exact Hg].
    + constructor.
  - cbn [sub_from].
    destruct (match_here fl (commented head tail) 0 prev (c :: s)) as [m|] eqn:E.
    + apply match_commented in E as (Hb & s2 & Hs & Hh & Hgs & Hge & Hlo & Hhi);
        [|exact Hg].
      rewrite Hr. unfold group1. rewrite Hgs, Hge.
      injection Hs as -> ->.
      rewrite at_bol_multiline in Hb by exact Hm. rewrite Hb.
      destruct (m_end m) as [|[|e]] eqn:Ee; try lia.
      cbn [Nat.sub skipn sub_from]. rewrite Nat.sub_0_r.
      apply unc_drop; [exact Hh|].
      simpl in Hhi.
      rewrite sub_from_skip by lia.
      apply (uncommented_firstn head e s2 (Some " "%char)); [lia|].
      apply (IH (length (skipn e s2))); [|reflexivity].
      rewrite length_skipn. subst n. simpl. lia.
    + apply unc_copy.
      replace (Ascii.eqb c nl) with (at_bol MS (Some c)) by reflexivity.
      apply (IH (length s)); [subst n; simpl; lia|reflexivity].
Qed.

(** ** What removing comment prefixes keeps *)

Lemma uncommented_refl (head s : text) : forall bol, uncommented head bol s s.
Proof. induction s as [|c s IH]; intros bol; constructor; apply IH. Qed.

(** The text before a newline and the text after it are uncommented apart. *)
Lemma uncommented_split (head : text) (bol : bool) (x z out : text) :
  ~ In nl head ->
  uncommented head bol (x ++ nl :: z) out ->
  exists x' z', out = x' ++ nl :: z' /\
                uncommented head bol x x' /\ uncommented head true z z'.
Proof.
  intros Hhead H. remember (x ++ nl :: z) as s eqn:Hs.
  revert x Hs. induction H as [bol|bol c s out H IH|s out Hh H IH]; intros x Hs.
  - destruct x; discriminate.
  - destruct x as [|c' x].
    + injection Hs as -> ->. exists [], out. repeat split; [constructor|exact H].
    + injection Hs as -> ->.
      destruct (IH x eq_refl) as (x' & z' & -> & Hx & Hz).
      exists (c' :: x'), z'. repeat split; [now constructor|exact Hz].
  - destruct x as [|c1 [|c2 x]]; try discriminate.
    injection Hs as E1 E2 E3. subst c1 c2 s.
    destruct (IH x eq_refl) as (x' & z' & -> & Hx & Hz).
    exists x', z'. repeat split; [|exact Hz].
    constructor; [|exact Hx].
    rewrite <- Hh. symmetry. now apply startswith_line.
Qed.

(** Inside a line nothing is removed. *)
Lemma uncommented_inside (head s out : text) :
  uncommented head false s out -> ~ In nl s -> out = s.
Proof.
  intros H. remember false as b eqn:Hb.
  induction H as [b|b c s out H IH|s out Hh H IH]; intros Hn.
  - reflexivity.
  - f_equal. apply IH; [|intros Hin; apply Hn; now right].
    destruct (Ascii.eqb c nl) eqn:E; [|reflexivity].
    apply Ascii.eqb_eq in E. subst c. exfalso. apply Hn. now left.
  - discriminate.
Qed.

(** A line that does not begin with ["# " ++ head] is kept. *)
Lemma uncommented_line (head L y out : text) :
  ~ In nl L -> startswith (str "# " ++ head) (L ++ nl :: y) = false ->
  forall bol, uncommented head bol (L ++ nl :: y) out ->
    exists y', out = L ++ nl :: y' /\ uncommented head true y y'.
Proof.
  intros Hnl Hs bol H.
  assert (Hs' : bol = true -> startswith (str "# " ++ head) (L ++ nl :: y) = false)
    by (intros _; exact Hs).
  clear Hs. remember (L ++ nl :: y) as s eqn:E.
  revert L E Hnl Hs'.
  induction H as [b|b c s out H IH|s out Hh H IH]; intros L E Hnl Hs.
  - destruct L; discriminate.
  - destruct L as [|c' L].
    + injection E as -> ->. exists out. split; [reflexivity|].
      now rewrite Ascii.eqb_refl in H.
    + injection E as -> ->.
      assert (Hc : Ascii.eqb c' nl = false).
      { destruct (Ascii.eqb c' nl) eqn:E; [|reflexivity].
        apply Ascii.eqb_eq in E. subst c'. exfalso. apply Hnl. now left. }
      destruct (IH L eq_refl) as (y' & -> & Hy).
      * intros Hin. apply Hnl. now right.
      * rewrite Hc. discriminate.
      * now exists y'.
  - exfalso. specialize (Hs eq_refl).
    change (str "# " ++ head) with ("#"%char :: " "%char :: head) in Hs.
    cbn [startswith] in Hs. rewrite !Ascii.eqb_refl in Hs. simpl in Hs. congruence.
Qed.

Lemma uncommented_between (head : text) (bol : bool) (pre L post out : text) :
  ~ In nl head ->
  ~ In nl L -> startswith (str "# " ++ head) (L ++ nl :: post) = false ->
  uncommented head bol (pre ++ nl :: L ++ nl :: post) out ->
  exists x' y', out = x' ++ nl :: L ++ nl :: y' /\
                uncommented head bol pre x' /\ uncommented head true post y'.
Proof.
  intros Hhead Hnl Hs H.
  destruct (uncommented_split _ _ _ _ _ Hhead H) as (x' & z' & -> & Hx & Hz).
  destruct (uncommented_line head L post z' Hnl Hs _ Hz) as (y' & -> & Hy).
  now exists x', y'.
Qed.

(** Without a line to uncomment, the text is kept. *)
Lemma uncommented_absent (head s out : text) (bol : bool) :
  occurs (str "# " ++ head) s = false -> uncommented head bol s out -> out = s.
Proof.
  intros Ho H. induction H as [b|b c s out H IH|s out Hh H IH].
  - reflexivity.
  - f_equal. apply IH. now apply occurs_tail in Ho.
  - exfalso. apply occurs_head in Ho.
    change (str "# " ++ head) with ("#"%char :: " "%char :: head) in Ho.
    cbn [startswith] in Ho. rewrite !Ascii.eqb_refl in Ho. simpl in Ho. congruence.
Qed.

Lemma block_pattern_commented (lang : text) :
  Copy.block_pattern lang = commented (Copy.block_head lang) Copy.block_tail.
Proof.
  unfold Copy.block_pattern, commented, Copy.block_tail.
  fold (Copy.block_head lang).
  cbn [lits map str list_ascii_of_string app].
  reflexivity.
Qed.

Lemma block_tail_groupless : groupless Copy.block_tail = true.
Proof. reflexivity. Qed.

Lemma block_sub_uncommented (lang t : text) :
  uncommented (Copy.block_head lang) true t
    (re_sub MS (Copy.block_pattern lang) Copy.first_group t).
Proof.
  unfold re_sub. rewrite block_pattern_commented.
  apply (sub_commented MS (Copy.block_head lang) Copy.block_tail Copy.first_group
           eq_refl block_tail_groupless (fun _ _ => eq_refl) t None).
Qed.

Lemma block_step_uncommented (a : Copy.args) (c : component) (t : text) :
  uncommented (Copy.block_head (lang_name c)) true t (Copy.block_step a c t).
Proof.
  unfold Copy.block_step. destruct (Copy.enabled a c); [|apply uncommented_refl].
  apply block_sub_uncommented.
Qed.

(** ** One [configure_language] call of the copy, in its three rewrites *)

Lemma sub_from_ext (fl : flags) (re : regex) (repl repl' : text -> text -> text) :
  (forall g0 g1, repl g0 g1 = repl' g0 g1) ->
  forall s k prev, sub_from fl re repl k prev s = sub_from fl re repl' k prev s.
Proof.
  intros H. induction s as [|c s IH]; intros k prev.
  - destruct k; [|reflexivity]. cbn [sub_from].
    destruct (match_here fl re 0 prev []); [apply H|reflexivity].
  - destruct k; cbn [sub_from]; [|apply IH].
    destruct (match_here fl re 0 prev (c :: s)) as [m|]; [|now rewrite IH].
    rewrite H. f_equal. destruct (m_end m); now rewrite IH.
Qed.

Lemma re_sub_str_plain (fl : flags) (re : regex) (groups : nat) (r s : text) :
  plain r = true ->
  re_sub_str fl re groups r s = Some (re_sub fl re (fun _ _ => r) s).
Proof.
  intros H. unfold re_sub_str. rewrite parse_template_plain by exact H.
  f_equal. apply sub_from_ext. intros. apply expand_lits.
Qed.

Lemma arg_line_plain (key v : text) :
  plain key = true -> plain v = true -> plain (arg_line key v) = true.
Proof.
  intros Hk Hv. unfold arg_line. rewrite !plain_app, Hk, Hv. reflexivity.
Qed.

Lemma copy_version_plain (a : Copy.args) (c : component) (key v : text) :
  Copy.plain_versions a = true ->
  Copy.version_args a c = (Some key, Some v) ->
  plain key = true /\ plain v = true /\ key <> [].
Proof.
  unfold Copy.plain_versions. intros H E.
  apply andb_prop in H as [H Hj]. apply andb_prop in H as [Hg Hn].
  destruct c; simpl in E; inversion E; subst; repeat split; auto; discriminate.
Qed.

Lemma copy_configure_steps (a : Copy.args) (c : component) (t : text) :
  Copy.plain_versions a = true ->
  Copy.configure a c t =
  Some (Copy.block_step a c (Copy.version_step a c (Copy.flag_step a c t))).
Proof.
  intros Hp. unfold Copy.configure, Copy.configure_language, Copy.install_pattern.
  change (str "ARG INSTALL_" ++ lang_name c ++ str "=" ++ bool_literal (Copy.enabled a c))
    with (install_flag (lang_name c) (Copy.enabled a c)).
  rewrite re_sub_str_lits by apply install_flag_plain.
  fold (Copy.flag_step a c t).
  unfold Copy.version_step, Copy.block_step.
  destruct (Copy.version_args a c) as [[key|] [v|]] eqn:E; cbn [fst snd].
  - destruct (copy_version_plain a c key v Hp E) as (Hk & Hv & Hne).
    destruct key as [|k0 key]; [congruence|].
    destruct v as [|x v]; cbn [Copy.truthy andb Copy.text_of].
    + destruct (Copy.enabled a c); reflexivity.
    + rewrite re_sub_str_plain by now apply arg_line_plain.
      destruct (Copy.enabled a c); reflexivity.
  - destruct c; discriminate.
  - destruct c; discriminate.
  - cbn [Copy.truthy andb]. destruct (Copy.enabled a c); reflexivity.
Qed.

(** The flag rewrite and the version rewrite work line by line. *)
Lemma copy_flag_step_lines (a : Copy.args) (c : component) (x y : text) :
  Copy.flag_step a c (x ++ nl :: y) =
  Copy.flag_step a c x ++ nl :: Copy.flag_step a c y.
Proof.
  unfold Copy.flag_step.
  apply str_replace_lines; [apply install_flag_nonempty|apply install_flag_one_line].
Qed.

Lemma copy_version_key_one_line (a : Copy.args) (c : component) (key : text) (v : option text) :
  Copy.version_args a c = (Some key, v) -> ~ In nl (arg_line key []).
Proof.
  intros E Hin.
  assert (H : forallb (fun x => negb (Ascii.eqb x nl)) (arg_line key []) = true)
    by (destruct c; simpl in E; inversion E; reflexivity).
  rewrite forallb_forall in H. apply H in Hin. now rewrite Ascii.eqb_refl in Hin.
Qed.

Lemma copy_version_step_lines (a : Copy.args) (c : component) (x y : text) :
  Copy.version_step a c (x ++ nl :: y) =
  Copy.version_step a c x ++ nl :: Copy.version_step a c y.
Proof.
  unfold Copy.version_step.
  destruct (Copy.version_args a c) as [[key|] [[|v0 v]|]] eqn:E; try reflexivity.
  unfold re_sub.
  apply (version_lines key (arg_line key (v0 :: v)) _ (fun _ _ => eq_refl)).
  exact (copy_version_key_one_line a c key _ E).
Qed.

Lemma startswith_app_l (a b s : text) :
  startswith (a ++ b) s = true -> startswith a s = true.
Proof.
  revert s. induction a as [|x a IH]; intros [|y s]; simpl; try easy.
  intros H. apply andb_prop in H as [-> H]. now apply IH.
Qed.

Lemma block_head_one_line (c : component) : ~ In nl (Copy.block_head (lang_name c)).
Proof.
  assert (H : forallb (fun x => negb (Ascii.eqb x nl)) (Copy.block_head (lang_name c)) = true)
    by (destruct c; reflexivity).
  rewrite forallb_forall in H. intros Hin. apply H in Hin.
  now rewrite Ascii.eqb_refl in Hin.
Qed.

Lemma not_comment_line (head L post : text) :
  startswith (str "# ") L = false ->
  ~ In nl head ->
  startswith (str "# " ++ head) (L ++ nl :: post) = false.
Proof.
  intros H Hh.
  rewrite startswith_line.
  - destruct (startswith (str "# " ++ head) L) eqn:E; [|reflexivity].
    apply startswith_app_l in E. congruence.
  - intros [E|[E|Hin]]; try discriminate. now apply Hh.
Qed.

(** A line of the text, through one call: the call rewrites it by the flag
    and version rewrites, and when the result does not begin with ["# "]
    that is the line of the output. *)
Lemma copy_configure_line (a : Copy.args) (c : component) (pre L post : text) :
  Copy.plain_versions a = true ->
  let L' := Copy.version_step a c (Copy.flag_step a c L) in
  ~ In nl L' -> startswith (str "# ") L' = false ->
  exists x' y',
    Copy.configure a c (pre ++ nl :: L ++ nl :: post) = Some (x' ++ nl :: L' ++ nl :: y') /\
    uncommented (Copy.block_head (lang_name c)) true
      (Copy.version_step a c (Copy.flag_step a c pre)) x' /\
    uncommented (Copy.block_head (lang_name c)) true
      (Copy.version_step a c (Copy.flag_step a c post)) y'.
Proof.
  intros Hp L' Hnl Hs.
  rewrite copy_configure_steps by exact Hp.
  rewrite !copy_flag_step_lines, !copy_version_step_lines. fold L'.
  pose proof (block_step_uncommented a c
    (Copy.version_step a c (Copy.flag_step a c pre) ++ nl :: L' ++ nl ::
     Copy.version_step a c (Copy.flag_step a c post))) as H.
  apply uncommented_between in H as (x' & y' & -> & Hx & Hy).
  - now exists x', y'.
  - apply block_head_one_line.
  - exact Hnl.
  - apply not_comment_line; [exact Hs|apply block_head_one_line].
Qed.

(** When the language is not installed the call is the two rewrites. *)
Lemma copy_configure_disabled (a : Copy.args) (c : component) (t : text) :
  Copy.plain_versions a = true -> Copy.enabled a c = false ->
  Copy.configure a c t = Some (Copy.version_step a c (Copy.flag_step a c t)).
Proof.
  intros Hp He. rewrite copy_configure_steps by exact Hp.
  unfold Copy.block_step. now rewrite He.
Qed.

(** ** One language block of create-dockerfile.py *)

Lemma script_version_one_line (a : Script.args) (c : component)
  (key default value : text) :
  Script.version_rewrite a c = Some (key, default, value) ->
  ~ In nl (arg_line key default) /\ arg_line key default <> [] /\
  occurs (arg_line key default) (install_flag (lang_name c) true) = false /\
  occurs (arg_line key default) (install_flag (lang_name c) false) = false.
Proof.
  intros E.
  assert (H : forallb (fun x => negb (Ascii.eqb x nl)) (arg_line key default) = true /\
              occurs (arg_line key default) (install_flag (lang_name c) true) = false /\
              occurs (arg_line key default) (install_flag (lang_name c) false) = false)
    by (destruct c; simpl in E; inversion E; repeat split; reflexivity).
  destruct H as (H & H1 & H2). repeat split; try assumption; try discriminate.
  intros Hin. rewrite forallb_forall in H. apply H in Hin.
  now rewrite Ascii.eqb_refl in Hin.
Qed.

(** A block rewrites the text line by line. *)
Lemma script_configure_lines (a : Script.args) (c : component) (x y : text) :
  Script.configure a c (x ++ nl :: y) =
  Script.configure a c x ++ nl :: Script.configure a c y.
Proof.
  unfold Script.configure. destruct (Script.enabled a c).
  - rewrite !str_replace_same by apply install_flag_nonempty.
    destruct (Script.version_rewrite a c) as [[[key default] value]|] eqn:E;
      [|reflexivity].
    destruct (script_version_one_line a c key default value E) as (Hnl & Hne & _).
    now apply str_replace_lines.
  - apply str_replace_lines; [apply install_flag_nonempty|apply install_flag_one_line].
Qed.

Lemma str_replace_whole (p r : text) : p <> [] -> str_replace p r p = r.
Proof.
  intros Hp. rewrite <- (app_nil_r p) at 2.
  rewrite str_replace_hit, str_replace_nil by exact Hp. apply app_nil_r.
Qed.

Lemma install_flag_false_free (c : component) :
  occurs (install_flag (lang_name c) true) (install_flag (lang_name c) false) = false.
Proof. destruct c; reflexivity. Qed.

(** The flag line of a block's language: [true] becomes the requested
    value, [false] stays. *)
Lemma script_configure_flag_line (a : Script.args) (c : component) (b : bool) :
  Script.configure a c (install_flag (lang_name c) b) =
  install_flag (lang_name c) (b && Script.enabled a c).
Proof.
  unfold Script.configure. destruct (Script.enabled a c) eqn:Ee.
  - rewrite andb_true_r.
    rewrite str_replace_same by apply install_flag_nonempty.
    destruct (Script.version_rewrite a c) as [[[key default] value]|] eqn:E;
      [|reflexivity].
    destruct (script_version_one_line a c key default value E) as (_ & Hne & H1 & H2).
    apply str_replace_absent; [exact Hne|]. now destruct b.
  - rewrite andb_false_r. destruct b.
    + apply str_replace_whole, install_flag_nonempty.
    + apply str_replace_absent; [apply install_flag_nonempty|apply install_flag_false_free].
Qed.

Lemma copy_flag_step_flag_line (a : Copy.args) (c : component) (b : bool) :
  Copy.flag_step a c (install_flag (lang_name c) b) =
  install_flag (lang_name c) (b && Copy.enabled a c).
Proof.
  unfold Copy.flag_step. destruct b; cbn [andb].
  - apply str_replace_whole, install_flag_nonempty.
  - apply str_replace_absent; [apply install_flag_nonempty|apply install_flag_false_free].
Qed.

Lemma copy_version_step_absent (a : Copy.args) (c : component) (t : text) :
  (forall key v, Copy.version_args a c = (Some key, v) ->
                 occurs (arg_line key []) t = false) ->
  Copy.version_step a c t = t.
Proof.
  intros H. unfold Copy.version_step.
  destruct (Copy.version_args a c) as [[key|] [[|v0 v]|]] eqn:E; try reflexivity.
  unfold re_sub.
  apply (version_absent key (fun _ _ => arg_line key (v0 :: v)) t None).
  apply (H key _ eq_refl).
Qed.

Lemma copy_version_step_flag_line (a : Copy.args) (c : component) (b : bool) :
  Copy.version_step a c (install_flag (lang_name c) b) = install_flag (lang_name c) b.
Proof.
  apply copy_version_step_absent. intros key v E.
  destruct c, b; simpl in E; inversion E; reflexivity.
Qed.

Lemma install_flag_not_comment (c : component) (b : bool) :
  startswith (str "# ") (install_flag (lang_name c) b) = false.
Proof. reflexivity. Qed.

(** ** C1: the enable flag *)

(** C1, as stated, fails: a template whose flag reads [false] keeps [false]
    when the language is requested, in both scripts. *)
Lemma c1_false_flag_stays_false :
  let template := str "ARG INSTALL_RUST=false" ++ [nl] in
  let a := Script.Args ubuntu false (str "1.22.2") true false false (str "20")
             false (str "17") (str "Dockerfile") (str "t") false in
  let b := Copy.Args (str "Dockerfile") ubuntu false true false false false
             (str "1.22.2") (str "20") (str "17") (str "t") in
  Script.enabled a RUST = true /\ Copy.enabled b RUST = true /\
  Script.transform a template = str "ARG INSTALL_RUST=false" ++ [nl] /\
  Copy.transform b template = Some (str "ARG INSTALL_RUST=false" ++ [nl]).
Proof. vm_compute. repeat split. Qed.

(** C1 (amended): the rewrite of a language's flag line is driven by the
    requested value when the template line reads [true] and leaves a line
    that reads [false] as it is: in both scripts the line
    [ARG INSTALL_<lang>=<b>] becomes [ARG INSTALL_<lang>=<b and requested>],
    whatever the lines before and after it. *)
Theorem c1_flag_line_rewritten (a : Script.args) (b : Copy.args) (c : component)
  (template_value : bool) (pre post : text) :
  Copy.plain_versions b = true ->
  Script.configure a c (pre ++ nl :: install_flag (lang_name c) template_value ++ nl :: post) =
    Script.configure a c pre ++ nl ::
    install_flag (lang_name c) (template_value && Script.enabled a c) ++ nl ::
    Script.configure a c post
  /\
  exists pre' post',
    Copy.configure b c (pre ++ nl :: install_flag (lang_name c) template_value ++ nl :: post) =
      Some (pre' ++ nl :: install_flag (lang_name c) (template_value && Copy.enabled b c)
                 ++ nl :: post') /\
    uncommented (Copy.block_head (lang_name c)) true
      (Copy.version_step b c (Copy.flag_step b c pre)) pre' /\
    uncommented (Copy.block_head (lang_name c)) true
      (Copy.version_step b c (Copy.flag_step b c post)) post'.
Proof.
  intros Hp. split.
  - now rewrite !script_configure_lines, script_configure_flag_line.
  - pose proof (copy_configure_line b c pre (install_flag (lang_name c) template_value) post Hp) as H.
    cbv zeta in H.
    rewrite copy_flag_step_flag_line, copy_version_step_flag_line in H.
    apply H; [apply install_flag_one_line|apply install_flag_not_comment].
Qed.

Lemma c1_flag_line_rewritten_witness :
  Copy.plain_versions Copy.defaults = true /\
  (Script.configure Script.defaults RUST
     (str "FROM ubuntu:22.04" ++ nl :: install_flag (lang_name RUST) true ++ nl :: cmd_bash) =
   Script.configure Script.defaults RUST (str "FROM ubuntu:22.04") ++ nl ::
   install_flag (lang_name RUST) (true && Script.enabled Script.defaults RUST) ++ nl ::
   Script.configure Script.defaults RUST cmd_bash
   /\
   exists pre' post',
     Copy.configure Copy.defaults RUST
       (str "FROM ubuntu:22.04" ++ nl :: install_flag (lang_name RUST) true ++ nl :: cmd_bash) =
       Some (pre' ++ nl :: install_flag (lang_name RUST) (true && Copy.enabled Copy.defaults RUST)
                  ++ nl :: post') /\
     uncommented (Copy.block_head (lang_name RUST)) true
       (Copy.version_step Copy.defaults RUST
          (Copy.flag_step Copy.defaults RUST (str "FROM ubuntu:22.04"))) pre' /\
     uncommented (Copy.block_head (lang_name RUST)) true
       (Copy.version_step Copy.defaults RUST
          (Copy.flag_step Copy.defaults RUST cmd_bash)) post').
Proof.
  split; [reflexivity|].
  apply (c1_flag_line_rewritten Script.defaults Copy.defaults RUST true
           (str "FROM ubuntu:22.04") cmd_bash).
  reflexivity.
Defined.

Lemma text_eqb_neq (a b : text) : text_eqb a b = false -> a <> b.
Proof.
  revert b. induction a as [|x a IH]; intros [|y b] H E; try discriminate.
  injection E as -> ->. simpl in H. rewrite Ascii.eqb_refl in H.
  now apply (IH b).
Qed.

(** ** C2: running the transformation again *)




(** ** C3: toggling a region back *)

(** C3, as stated, fails: after a run for alpine, a run for ubuntu does not
    bring the ubuntu lines back, in either script. *)
Lemma c3_ubuntu_not_restored :
  Script.select_base ubuntu (Script.select_base alpine two_profiles) <> two_profiles /\
  Script.select_base ubuntu (Script.select_base alpine (str "FROM ubuntu:22.04"))
    = str "# FROM ubuntu:22.04" /\
  exists suppressed,
    Copy.configure_base_os two_profiles alpine = Some suppressed /\
    Copy.configure_base_os suppressed ubuntu = Some suppressed /\
    suppressed <> two_profiles.
Proof.
  split; [|split].
  - apply text_eqb_neq. vm_compute. reflexivity.
  - vm_compute. reflexivity.
  - eexists. split; [vm_compute; reflexivity|]. split; [reflexivity|].
    apply text_eqb_neq. vm_compute. reflexivity.
Qed.

(** C3 (amended): toggling goes one way.  In the copy the ubuntu profile
    returns every text as it is, so what a run for alpine produced stays as
    it is; in create-dockerfile.py the ubuntu profile changes nothing in a
    text that holds neither [#FROM ubuntu:22.04] nor
    [# RUN apt-get update]. *)
Theorem c3_ubuntu_profile_keeps_text (t : text) :
  (forall t', Copy.configure_base_os t alpine = Some t' ->
              Copy.configure_base_os t' ubuntu = Some t') /\
  (occurs (str "#FROM ubuntu:22.04") t = false ->
   occurs (str "# RUN apt-get update") t = false ->
   Script.select_base ubuntu t = t).
Proof.
  split.
  - reflexivity.
  - intros H1 H2. unfold Script.select_base.
    rewrite (str_replace_absent (str "#FROM ubuntu:22.04")) by (discriminate || exact H1).
    apply str_replace_absent; [discriminate|exact H2].
Qed.

Lemma c3_ubuntu_profile_keeps_text_witness :
  (Copy.configure_base_os two_profiles alpine =
     Some (lines [ str "# FROM ubuntu:22.04"; str "# RUN apt-get update"; str "# ";
                   str "FROM alpine:latest"; str "RUN apk update"; str "";
                   str "ARG INSTALL_RUST=true"; cmd_ash; str "" ]) /\
   Copy.configure_base_os
     (lines [ str "# FROM ubuntu:22.04"; str "# RUN apt-get update"; str "# ";
              str "FROM alpine:latest"; str "RUN apk update"; str "";
              str "ARG INSTALL_RUST=true"; cmd_ash; str "" ]) ubuntu =
     Some (lines [ str "# FROM ubuntu:22.04"; str "# RUN apt-get update"; str "# ";
                   str "FROM alpine:latest"; str "RUN apk update"; str "";
                   str "ARG INSTALL_RUST=true"; cmd_ash; str "" ])) /\
  (occurs (str "#FROM ubuntu:22.04") (Script.select_base alpine two_profiles) = false /\
   occurs (str "# RUN apt-get update") (Script.select_base alpine two_profiles) = false /\
   Script.select_base ubuntu (Script.select_base alpine two_profiles)
   = Script.select_base alpine two_profiles).
Proof.
  split.
  - assert (E : Copy.configure_base_os two_profiles alpine =
                Some (lines [ str "# FROM ubuntu:22.04"; str "# RUN apt-get update";
                              str "# "; str "FROM alpine:latest"; str "RUN apk update";
                              str ""; str "ARG INSTALL_RUST=true"; cmd_ash; str "" ]))
      by (vm_compute; reflexivity).
    split; [exact E|].
    exact (proj1 (c3_ubuntu_profile_keeps_text two_profiles) _ E).
  - split; [vm_compute; reflexivity|]. split; [vm_compute; reflexivity|].
    apply (proj2 (c3_ubuntu_profile_keeps_text (Script.select_base alpine two_profiles)));
      vm_compute; reflexivity.
Defined.

(** ** C4: the order of the language blocks *)


Lemma component_eqb_eq (c1 c2 : component) : component_eqb c1 c2 = true <-> c1 = c2.
Proof. destruct c1, c2; simpl; split; congruence. Qed.

Lemma all_components (c : component) : In c components.
Proof. destruct c; simpl; auto 10. Qed.

Lemma script_configure_rewrite (a : Script.args) (c : component) (t : text) :
  Script.configure a c t =
  match Script.rewrite_of a c with
  | Some (p, r) => str_replace p r t
  | None => t
  end.
Proof.
  unfold Script.configure, Script.rewrite_of. destruct (Script.enabled a c).
  - rewrite str_replace_same by apply install_flag_nonempty.
    now destruct (Script.version_rewrite a c) as [[[key default] value]|].
  - reflexivity.
Qed.

Lemma script_rewrite_nonempty (a : Script.args) (c : component) (p r : text) :
  Script.rewrite_of a c = Some (p, r) -> p <> [].
Proof.
  unfold Script.rewrite_of. destruct (Script.enabled a c).
  - destruct (Script.version_rewrite a c) as [[[key default] value]|];
      intros E; inversion E; discriminate.
  - intros E; inversion E; discriminate.
Qed.





(** ** The scan of [re.sub], match by match *)

Lemma sub_from_miss (fl : flags) (re : regex) (repl : text -> text -> text)
  (prev : option ascii) (c : ascii) (s : text) :
  match_here fl re 0 prev (c :: s) = None ->
  sub_from fl re repl 0 prev (c :: s) = c :: sub_from fl re repl 0 (Some c) s.
Proof. intros E. cbn [sub_from]. now rewrite E. Qed.

Lemma sub_from_hit (fl : flags) (re : regex) (repl : text -> text -> text)
  (prev : option ascii) (s : text) (m : found) :
  match_here fl re 0 prev s = Some m -> 0 < m_end m -> m_end m <= length s ->
  sub_from fl re repl 0 prev s =
  repl (group0 m s) (group1 m s) ++
  sub_from fl re repl 0 (prev_after prev (firstn (m_end m) s)) (skipn (m_end m) s).
Proof.
  intros E Hlo Hhi. destruct s as [|c s]; [simpl in Hhi; lia|].
  cbn [sub_from]. rewrite E. f_equal.
  destruct (m_end m) as [|e]; [lia|].
  rewrite sub_from_skip by (simpl in Hhi; lia). reflexivity.
Qed.

Lemma one_line_spec (l : text) : one_line l = true <-> ~ In nl l.
Proof.
  unfold one_line. rewrite forallb_forall. split.
  - intros H Hin. apply H in Hin. now rewrite Ascii.eqb_refl in Hin.
  - intros H c Hc. destruct (Ascii.eqb c nl) eqn:E; [|reflexivity].
    apply Ascii.eqb_eq in E. now subst c.
Qed.

Lemma not_nl_eqb (c : ascii) (l : text) : ~ In nl (c :: l) -> Ascii.eqb c nl = false.
Proof.
  intros H. destruct (Ascii.eqb c nl) eqn:E; [|reflexivity].
  apply Ascii.eqb_eq in E. subst c. exfalso. apply H. now left.
Qed.

(** A line the pattern cannot begin with is copied, when every match of
    the pattern begins a line with the literal [P]. *)
Lemma sub_from_keep_line (fl : flags) (re : regex) (repl : text -> text -> text)
  (P : text) :
  (forall prev s m, match_here fl re 0 prev s = Some m ->
                    at_bol MS prev = true /\ startswith P s = true) ->
  P <> [] -> ~ In nl P ->
  forall L, ~ In nl L -> forall prev y,
    (at_bol MS prev = true -> startswith P L = false) ->
    sub_from fl re repl 0 prev (L ++ nl :: y) =
    L ++ nl :: sub_from fl re repl 0 (Some nl) y.
Proof.
  intros Hm HP HnP.
  assert (Hnone : forall prev s, (at_bol MS prev = true -> startswith P s = false) ->
                                 match_here fl re 0 prev s = None).
  { intros prev s H. destruct (match_here fl re 0 prev s) as [m|] eqn:E; [|reflexivity].
    apply Hm in E as [Hb Hs]. rewrite (H Hb) in Hs. discriminate. }
  induction L as [|c L IH]; intros HnL prev y Hs.
  - simpl. apply sub_from_miss. apply Hnone. intros _.
    destruct P as [|p P']; [congruence|]. simpl.
    destruct (Ascii.eqb p nl) eqn:E; [|reflexivity].
    apply Ascii.eqb_eq in E. subst p. exfalso. apply HnP. now left.
  - change ((c :: L) ++ nl :: y) with (c :: (L ++ nl :: y)).
    rewrite sub_from_miss.
    + simpl. f_equal. apply IH.
      * intros Hin. apply HnL. now right.
      * simpl. rewrite (not_nl_eqb c L HnL). discriminate.
    + apply Hnone. intros Hb.
      change (c :: L ++ nl :: y) with ((c :: L) ++ nl :: y).
      rewrite startswith_line by exact HnP. now apply Hs.
Qed.

Lemma sub_from_keep_lines (fl : flags) (re : regex) (repl : text -> text -> text)
  (P : text) :
  (forall prev s m, match_here fl re 0 prev s = Some m ->
                    at_bol MS prev = true /\ startswith P s = true) ->
  P <> [] -> ~ In nl P ->
  forall Ls, Forall (fun L => ~ In nl L /\ startswith P L = false) Ls ->
  forall y,
    sub_from fl re repl 0 (Some nl) (unlines Ls ++ y) =
    unlines Ls ++ sub_from fl re repl 0 (Some nl) y.
Proof.
  intros Hm HP HnP Ls H. induction H as [|L Ls [HL HsL] _ IH]; intros y.
  - reflexivity.
  - cbn [unlines]. rewrite <- !app_assoc. cbn [app].
    rewrite (sub_from_keep_line fl re repl P Hm HP HnP L HL) by (intros _; exact HsL).
    now rewrite IH.
Qed.

(** ** The pattern [^FROM ubuntu.*?^$] *)

Lemma match_blank (pos : nat) (prev : option ascii) (s : text) :
  match_here MS [Bol; Eol] pos prev s =
  if at_bol MS prev && at_eol MS s then Some (Found pos 0 0) else None.
Proof.
  cbn [match_here]. destruct (at_bol MS prev); [|reflexivity].
  now destruct (at_eol MS s).
Qed.

(** The lazy [.*?] runs to the first empty line. *)
Lemma lazy_blank_here (pos : nat) (prev : option ascii) (s : text) :
  at_bol MS prev = true -> at_eol MS s = true ->
  match_here MS [AnyStar true; Bol; Eol] pos prev s = Some (Found pos 0 0).
Proof.
  intros Hb He. destruct s as [|c s].
  - cbn [match_here]. now rewrite Hb.
  - change (match_here MS [AnyStar true; Bol; Eol] pos prev (c :: s))
      with (match match_here MS [Bol; Eol] pos prev (c :: s) with
            | Some m => Some m
            | None => if dot_ok MS c
                      then match_here MS [AnyStar true; Bol; Eol] (S pos) (Some c) s
                      else None
            end).
    now rewrite match_blank, Hb, He.
Qed.

Lemma lazy_blank_step (pos : nat) (prev : option ascii) (c : ascii) (s : text) :
  at_bol MS prev && at_eol MS (c :: s) = false ->
  match_here MS [AnyStar true; Bol; Eol] pos prev (c :: s) =
  match_here MS [AnyStar true; Bol; Eol] (S pos) (Some c) s.
Proof.
  intros H.
  change (match_here MS [AnyStar true; Bol; Eol] pos prev (c :: s))
    with (match match_here MS [Bol; Eol] pos prev (c :: s) with
          | Some m => Some m
          | None => if dot_ok MS c
                    then match_here MS [AnyStar true; Bol; Eol] (S pos) (Some c) s
                    else None
          end).
  now rewrite match_blank, H.
Qed.

Lemma lazy_blank_line (l : text) :
  ~ In nl l -> forall pos prev s,
    (l = [] -> at_bol MS prev = false) ->
    match_here MS [AnyStar true; Bol; Eol] pos prev (l ++ nl :: s) =
    match_here MS [AnyStar true; Bol; Eol] (pos + length l + 1) (Some nl) s.
Proof.
  induction l as [|c l IH]; intros Hn pos prev s Hp.
  - cbn [app length]. rewrite lazy_blank_step by (rewrite (Hp eq_refl); reflexivity).
    f_equal. lia.
  - change ((c :: l) ++ nl :: s) with (c :: (l ++ nl :: s)).
    rewrite lazy_blank_step.
    + rewrite IH.
      * f_equal. simpl. lia.
      * intros Hin. apply Hn. now right.
      * intros _. simpl. apply (not_nl_eqb c l Hn).
    + simpl. rewrite (not_nl_eqb c l Hn). apply andb_false_r.
Qed.

Lemma lazy_blank_lines (ls : list text) :
  Forall (fun l => ~ In nl l /\ l <> []) ls ->
  forall pos s,
    match_here MS [AnyStar true; Bol; Eol] pos (Some nl) (unlines ls ++ s) =
    match_here MS [AnyStar true; Bol; Eol] (pos + length (unlines ls)) (Some nl) s.
Proof.
  intros H. induction H as [|l ls [Hn Hne] _ IH]; intros pos s.
  - simpl. now rewrite Nat.add_0_r.
  - cbn [unlines]. rewrite <- app_assoc. cbn [app].
    rewrite lazy_blank_line by (try assumption; intros E; congruence).
    rewrite IH. f_equal. rewrite length_app. simpl. lia.
Qed.

Lemma match_ubuntu_section (prev : option ascii) (s : text) :
  match_here MS Copy.ubuntu_section 0 prev s =
  if at_bol MS prev && startswith (str "FROM ubuntu") s
  then match_here MS [AnyStar true; Bol; Eol] 11 (Some "u"%char) (skipn 11 s)
  else None.
Proof.
  unfold Copy.ubuntu_section. cbn [match_here].
  destruct (at_bol MS prev); [|reflexivity].
  rewrite match_here_lits_then.
  destruct (startswith (str "FROM ubuntu") s); reflexivity.
Qed.

Lemma match_ubuntu_section_start (prev : option ascii) (s : text) (m : found) :
  match_here MS Copy.ubuntu_section 0 prev s = Some m ->
  at_bol MS prev = true /\ startswith (str "FROM ubuntu") s = true.
Proof.
  rewrite match_ubuntu_section.
  destruct (at_bol MS prev); [|discriminate].
  destruct (startswith (str "FROM ubuntu") s); [|discriminate]. now split.
Qed.

(** The match on an ubuntu block that an empty line (or the end) follows is
    the block. *)
Lemma match_ubuntu_block (prev : option ascii) (u : text) (body : list text) (s : text) :
  at_bol MS prev = true -> ~ In nl u ->
  Forall (fun l => ~ In nl l /\ l <> []) body ->
  at_eol MS s = true ->
  match_here MS Copy.ubuntu_section 0 prev (unlines ((str "FROM ubuntu" ++ u) :: body) ++ s) =
  Some (Found (length (unlines ((str "FROM ubuntu" ++ u) :: body))) 0 0).
Proof.
  intros Hb Hu Hbody He. rewrite match_ubuntu_section, Hb.
  cbn [unlines]. rewrite <- !app_assoc.
  rewrite startswith_app. cbn [andb].
  rewrite skipn_app.
  change (length (str "FROM ubuntu")) with 11.
  change (skipn 11 (str "FROM ubuntu")) with (@nil ascii).
  cbn [Nat.sub app skipn].
  rewrite lazy_blank_line by (try assumption; intros _; reflexivity).
  rewrite lazy_blank_lines by exact Hbody.
  rewrite lazy_blank_here by (try reflexivity; exact He).
  f_equal. f_equal. rewrite !length_app. simpl. lia.
Qed.


Lemma split_on_line (l : text) (s : text) :
  ~ In nl l ->
  split_on nl (l ++ nl :: s) = l :: split_on nl s.
Proof.
  induction l as [|c l IH]; intros Hn.
  - reflexivity.
  - cbn [app split_on]. rewrite (not_nl_eqb c l Hn).
    rewrite IH by (intros Hin; apply Hn; now right). reflexivity.
Qed.

Lemma split_on_unlines (ls : list text) :
  Forall (fun l => ~ In nl l) ls -> split_on nl (unlines ls) = ls ++ [[]].
Proof.
  intros H. induction H as [|l ls Hl _ IH]; [reflexivity|].
  cbn [unlines]. rewrite split_on_line by exact Hl. now rewrite IH.
Qed.

Lemma join_unlines (ls : list text) (z : text) :
  join [nl] (ls ++ [z]) = unlines ls ++ z.
Proof.
  induction ls as [|l ls IH]; [reflexivity|].
  cbn [app join unlines]. rewrite IH.
  destruct (ls ++ [z]) eqn:E; [destruct ls; discriminate|].
  now rewrite <- app_assoc.
Qed.

(** The replacement for an ubuntu block: every line commented, and the
    comment prefix once more, before the empty line. *)
Lemma comment_out_unlines (ls : list text) (g1 : text) :
  Forall (fun l => ~ In nl l) ls ->
  Copy.comment_out (unlines ls) g1 = unlines (map Copy.comment_line ls) ++ str "# ".
Proof.
  intros H. unfold Copy.comment_out. rewrite split_on_unlines by exact H.
  rewrite map_app. cbn [map]. rewrite join_unlines.
  reflexivity.
Qed.

Lemma unlines_app (a b : list text) : unlines (a ++ b) = unlines a ++ unlines b.
Proof.
  induction a as [|l a IH]; [reflexivity|].
  cbn [app unlines]. now rewrite IH, <- app_assoc.
Qed.

Lemma prev_after_unlines (prev : option ascii) (l : text) (ls : list text) :
  prev_after prev (unlines (l :: ls)) = Some nl.
Proof.
  unfold prev_after. revert prev l. induction ls as [|l' ls IH]; intros prev l.
  - cbn [unlines]. rewrite app_nil_r || idtac.
    rewrite fold_left_app. reflexivity.
  - cbn [unlines]. rewrite fold_left_app. cbn [fold_left].
    apply (IH (Some nl) l').
Qed.

(** The first substitution of the base OS step, on a text that begins with
    an ubuntu block. *)
Lemma comment_ubuntu_block (u : text) (body : list text) (rest : text) :
  ~ In nl u -> Forall (fun l => ~ In nl l /\ l <> []) body ->
  re_sub MS Copy.ubuntu_section Copy.comment_out
    (unlines ((str "FROM ubuntu" ++ u) :: body) ++ nl :: rest) =
  unlines (map Copy.comment_line ((str "FROM ubuntu" ++ u) :: body)) ++ str "# " ++
  nl :: sub_from MS Copy.ubuntu_section Copy.comment_out 0 (Some nl) rest.
Proof.
  intros Hu Hbody. unfold re_sub.
  pose proof (match_ubuntu_block None u body (nl :: rest) eq_refl Hu Hbody eq_refl) as E.
  set (block := unlines ((str "FROM ubuntu" ++ u) :: body)) in *.
  rewrite (sub_from_hit MS _ _ None _ _ E).
  - cbn [m_end]. unfold group0. cbn [m_end].
    rewrite firstn_app, firstn_all, Nat.sub_diag. cbn [firstn]. rewrite app_nil_r.
    rewrite skipn_app, skipn_all, Nat.sub_diag. cbn [skipn app].
    unfold block at 1.
    rewrite comment_out_unlines.
    + rewrite <- app_assoc. f_equal. f_equal.
      unfold block. rewrite prev_after_unlines.
      apply sub_from_miss. rewrite match_ubuntu_section. reflexivity.
    + constructor.
      * intros Hin. apply in_app_or in Hin as [Hin|Hin]; [|now apply Hu].
        simpl in Hin. repeat (destruct Hin as [Hin|Hin]; [discriminate|]). exact Hin.
      * eapply Forall_impl; [|exact Hbody]. now intros l [Hl _].
  - cbn [m_end]. unfold block. cbn [unlines]. rewrite !length_app. simpl. lia.
  - cbn [m_end]. rewrite length_app. lia.
Qed.


(** ** The patterns [^# (FROM alpine.*?)$] and [^# (RUN apk update.*?)$] *)

Lemma lazy_to_eol (fl : flags) (x : text) :
  multiline fl = true -> ~ In nl x ->
  forall pos prev s,
    match_here fl [AnyStar true; Close; Eol] pos prev (x ++ nl :: s) =
    Some (Found (pos + length x) 0 (pos + length x)).
Proof.
  intros Hm. induction x as [|c x IH]; intros Hn pos prev s.
  - cbn [app length]. rewrite Nat.add_0_r.
    change (match_here fl [AnyStar true; Close; Eol] pos prev (nl :: s))
      with (match match_here fl [Close; Eol] pos prev (nl :: s) with
            | Some m => Some m
            | None => if dot_ok fl nl
                      then match_here fl [AnyStar true; Close; Eol] (S pos) (Some nl) s
                      else None
            end).
    cbn [match_here at_eol]. rewrite Hm. reflexivity.
  - change ((c :: x) ++ nl :: s) with (c :: (x ++ nl :: s)).
    change (match_here fl [AnyStar true; Close; Eol] pos prev (c :: x ++ nl :: s))
      with (match match_here fl [Close; Eol] pos prev (c :: x ++ nl :: s) with
            | Some m => Some m
            | None => if dot_ok fl c
                      then match_here fl [AnyStar true; Close; Eol] (S pos) (Some c)
                                      (x ++ nl :: s)
                      else None
            end).
    cbn [match_here at_eol]. unfold dot_ok. rewrite (not_nl_eqb c x Hn).
    cbn [andb negb]. rewrite orb_true_r.
    rewrite IH by (intros Hin; apply Hn; now right).
    f_equal. f_equal; simpl; lia.
Qed.

Lemma match_commented_start (fl : flags) (head : text) (tail : regex)
  (prev : option ascii) (s : text) (m : found) :
  multiline fl = true -> groupless tail = true ->
  match_here fl (commented head tail) 0 prev s = Some m ->
  at_bol MS prev = true /\ startswith (str "# " ++ head) s = true.
Proof.
  intros Hm Hg E.
  apply match_commented in E as (Hb & s2 & -> & Hh & _); [|exact Hg].
  rewrite at_bol_multiline in Hb by exact Hm. split; [exact Hb|].
  simpl. exact Hh.
Qed.

(** A commented line that goes on with [head] loses its comment prefix. *)
Lemma sub_commented_line (fl : flags) (head x : text) (repl : text -> text -> text)
  (prev : option ascii) (s : text) :
  multiline fl = true -> (forall g0 g1, repl g0 g1 = g1) ->
  at_bol MS prev = true -> ~ In nl x ->
  sub_from fl (commented head [AnyStar true]) repl 0 prev
    ((str "# " ++ head ++ x) ++ nl :: s) =
  (head ++ x) ++ nl :: sub_from fl (commented head [AnyStar true]) repl 0 (Some nl) s.
Proof.
  intros Hm Hr Hb Hx.
  assert (E : match_here fl (commented head [AnyStar true]) 0 prev
                ((str "# " ++ head ++ x) ++ nl :: s)
              = Some (Found (2 + length head + length x) 2 (2 + length head + length x))).
  { unfold commented. cbn [match_here str list_ascii_of_string app].
    rewrite at_bol_multiline, Hb by exact Hm.
    rewrite !Ascii.eqb_refl.
    rewrite <- app_assoc, match_here_lits_then, startswith_app.
    rewrite skipn_app, skipn_all, Nat.sub_diag. cbn [skipn app].
    rewrite lazy_to_eol by assumption. reflexivity. }
  rewrite (sub_from_hit fl _ _ prev _ _ E).
  - rewrite Hr. unfold group1. cbn [m_end g_start g_end].
    replace (2 + length head + length x - 2) with (length (head ++ x))
      by (rewrite length_app; lia).
    change (skipn 2 ((str "# " ++ head ++ x) ++ nl :: s)) with ((head ++ x) ++ nl :: s).
    rewrite firstn_app, firstn_all, Nat.sub_diag. cbn [firstn]. rewrite app_nil_r.
    f_equal.
    replace (2 + length head + length x) with (length (str "# " ++ head ++ x))
      by (rewrite !length_app; simpl; lia).
    rewrite skipn_app, skipn_all, Nat.sub_diag. cbn [skipn app].
    rewrite sub_from_miss; [reflexivity|].
    destruct (match_here fl (commented head [AnyStar true]) 0
                (prev_after prev (firstn (length (str "# " ++ head ++ x))
                                    ((str "# " ++ head ++ x) ++ nl :: s)))
                (nl :: s)) as [m|] eqn:E'; [|reflexivity].
    apply match_commented in E' as (_ & s2 & Hs & _); [discriminate|reflexivity].
  - cbn [m_end]. lia.
  - cbn [m_end]. rewrite !length_app. simpl. lia.
Qed.

Lemma commented_keep_lines (fl : flags) (head : text) (tail : regex)
  (repl : text -> text -> text) (Ls : list text) (y : text) :
  multiline fl = true -> groupless tail = true -> ~ In nl head ->
  Forall (fun L => ~ In nl L /\ startswith (str "# " ++ head) L = false) Ls ->
  sub_from fl (commented head tail) repl 0 (Some nl) (unlines Ls ++ y) =
  unlines Ls ++ sub_from fl (commented head tail) repl 0 (Some nl) y.
Proof.
  intros Hm Hg Hh HLs.
  apply (sub_from_keep_lines fl (commented head tail) repl (str "# " ++ head)).
  - intros prev s m. now apply match_commented_start.
  - discriminate.
  - intros [E|[E|Hin]]; try discriminate. now apply Hh.
  - exact HLs.
Qed.

Lemma str_replace_keep_lines (p r : text) (Ls : list text) (y : text) :
  p <> [] -> ~ In nl p ->
  Forall (fun L => occurs p L = false) Ls ->
  str_replace p r (unlines Ls ++ y) = unlines Ls ++ str_replace p r y.
Proof.
  intros Hp Hn H. induction H as [|L Ls HL _ IH]; [reflexivity|].
  cbn [unlines]. rewrite <- app_assoc. cbn [app].
  rewrite str_replace_lines by assumption.
  rewrite (str_replace_absent p r Hp L HL), IH. now rewrite <- app_assoc.
Qed.


Lemma sub_from_keep_first_lines (fl : flags) (re : regex) (repl : text -> text -> text)
  (P : text) :
  (forall prev s m, match_here fl re 0 prev s = Some m ->
                    at_bol MS prev = true /\ startswith P s = true) ->
  P <> [] -> ~ In nl P ->
  forall L Ls, Forall (fun L => ~ In nl L /\ startswith P L = false) (L :: Ls) ->
  forall prev y,
    sub_from fl re repl 0 prev (unlines (L :: Ls) ++ y) =
    unlines (L :: Ls) ++ sub_from fl re repl 0 (Some nl) y.
Proof.
  intros Hm HP HnP L Ls H prev y. inversion H as [|L' Ls' [HL HsL] HLs]; subst.
  cbn [unlines]. rewrite <- !app_assoc. cbn [app].
  rewrite (sub_from_keep_line fl re repl P Hm HP HnP L HL) by (intros _; exact HsL).
  now rewrite (sub_from_keep_lines fl re repl P Hm HP HnP Ls HLs).
Qed.

Lemma alpine_from_commented :
  Copy.alpine_from = commented (str "FROM alpine") [AnyStar true].
Proof. reflexivity. Qed.

Lemma alpine_run_commented :
  Copy.alpine_run = commented (str "RUN apk update") [AnyStar true].
Proof. reflexivity. Qed.

Lemma re_sub_str_backref1 (fl : flags) (re : regex) (s : text) :
  re_sub_str fl re 1 Copy.backref1 s = Some (re_sub fl re Copy.first_group s).
Proof.
  unfold re_sub_str. change (parse_template 1 Copy.backref1) with (Some [Group 1]).
  cbv iota. f_equal. apply sub_from_ext. intros g0 g1. simpl. apply app_nil_r.
Qed.

Lemma startswith_comment_line (head l : text) :
  startswith (str "# " ++ head) (Copy.comment_line l) = startswith head l.
Proof. reflexivity. Qed.

Lemma in_comment_line (l : text) : ~ In nl l -> ~ In nl (Copy.comment_line l).
Proof.
  intros H [E|[E|Hin]]; try discriminate. now apply H.
Qed.

(** What [pristine] asks, spelled out. *)
Lemma pristine_spec (u : text) (body : list text) (x y : text) :
  Copy.pristine u body x y = true ->
  ~ In nl u /\ ~ In nl x /\ ~ In nl y /\
  Forall (fun l => ~ In nl l /\ l <> []) body /\
  Forall (fun l => startswith (str "FROM alpine") l = false) body /\
  Forall (fun l => startswith (str "RUN apk update") l = false) body /\
  Forall (fun l => occurs cmd_bash (Copy.comment_line l) = false)
         ((str "FROM ubuntu" ++ u) :: body) /\
  occurs cmd_bash (str "FROM alpine" ++ x) = false /\
  occurs cmd_bash (str "RUN apk update" ++ y) = false.
Proof.
  unfold Copy.pristine. intros H.
  apply andb_prop in H as [H He]. apply andb_prop in H as [H Hd].
  apply andb_prop in H as [H Hc]. apply andb_prop in H as [H Hb].
  apply andb_prop in H as [H Hy]. apply andb_prop in H as [Hu Hx].
  apply one_line_spec in Hu, Hx, Hy. apply negb_true_iff in Hd, He.
  rewrite forallb_forall in Hb, Hc.
  assert (G : forall l, In l body ->
                (~ In nl l /\ l <> []) /\
                startswith (str "FROM alpine") l = false /\
                startswith (str "RUN apk update") l = false).
  { intros l Hl. specialize (Hb l Hl).
    apply andb_prop in Hb as [Hb H4]. apply andb_prop in Hb as [Hb H3].
    apply andb_prop in Hb as [H1 H2]. apply one_line_spec in H1.
    apply negb_true_iff in H3, H4. repeat split; try assumption.
    intros ->. discriminate. }
  repeat split; try assumption.
  - apply Forall_forall. intros l Hl. now apply G.
  - apply Forall_forall. intros l Hl. now apply G.
  - apply Forall_forall. intros l Hl. now apply G.
  - apply Forall_forall. intros l Hl. apply negb_true_iff. now apply Hc.
Qed.


Ltac flat_text :=
  repeat first
    [ rewrite unlines_app
    | rewrite <- app_assoc
    | rewrite <- app_comm_cons
    | progress cbn [unlines app str list_ascii_of_string] ].

(** The base OS step for alpine on a pristine layout: every line of the
    ubuntu block is commented, the two alpine lines are uncommented. *)
Lemma copy_alpine_pristine (u : text) (body : list text) (x y rest : text) :
  Copy.pristine u body x y = true ->
  exists rest',
    Copy.configure_base_os
      (unlines ((str "FROM ubuntu" ++ u) :: body) ++ nl ::
       unlines [str "# FROM alpine" ++ x; str "# RUN apk update" ++ y] ++ rest) alpine =
    Some (unlines (map Copy.comment_line ((str "FROM ubuntu" ++ u) :: body)) ++
          str "# " ++ nl ::
          unlines [str "FROM alpine" ++ x; str "RUN apk update" ++ y] ++ rest').
Proof.
  intros H.
  destruct (pristine_spec u body x y H)
    as (Hu & Hx & Hy & Hbody & Hfa & Hra & Hcmd & Hcx & Hcy).
  set (a1 := str "# FROM alpine" ++ x).
  set (a2 := str "# RUN apk update" ++ y).
  set (b1 := str "FROM alpine" ++ x).
  set (b2 := str "RUN apk update" ++ y).
  set (c0 := Copy.comment_line (str "FROM ubuntu" ++ u)).
  set (cs := map Copy.comment_line body).
  assert (Ha1 : ~ In nl a1).
  { intros Hin. apply in_app_or in Hin as [Hin|Hin]; [|now apply Hx].
    simpl in Hin. repeat (destruct Hin as [Hin|Hin]; [discriminate|]). exact Hin. }
  assert (Ha2 : ~ In nl a2).
  { intros Hin. apply in_app_or in Hin as [Hin|Hin]; [|now apply Hy].
    simpl in Hin. repeat (destruct Hin as [Hin|Hin]; [discriminate|]). exact Hin. }
  assert (Hb1 : ~ In nl b1).
  { intros Hin. apply Ha1. right. right. exact Hin. }
  assert (Hb2 : ~ In nl b2).
  { intros Hin. apply Ha2. right. right. exact Hin. }
  assert (Hc0 : ~ In nl c0).
  { apply in_comment_line. intros Hin. apply in_app_or in Hin as [Hin|Hin]; [|now apply Hu].
    simpl in Hin. repeat (destruct Hin as [Hin|Hin]; [discriminate|]). exact Hin. }
  assert (Hcs : Forall (fun L => ~ In nl L) cs).
  { apply Forall_map. eapply Forall_impl; [|exact Hbody].
    intros l [Hl _]. now apply in_comment_line. }
  unfold Copy.configure_base_os.
  (* the ubuntu block *)
  rewrite comment_ubuntu_block by assumption.
  rewrite (sub_from_keep_first_lines MS Copy.ubuntu_section Copy.comment_out
             (str "FROM ubuntu") match_ubuntu_section_start).
  2: discriminate.
  2: { intros Hin; simpl in Hin.
       repeat (destruct Hin as [Hin|Hin]; [discriminate|]); exact Hin. }
  2: { repeat constructor; assumption. }
  cbn [map]. fold c0 cs.
  set (R1 := sub_from MS Copy.ubuntu_section Copy.comment_out 0 (Some nl) rest).
  (* the alpine FROM line *)
  rewrite re_sub_str_backref1. unfold re_sub. rewrite alpine_from_commented.
  match goal with
  | |- context [sub_from _ _ _ 0 None ?t] =>
      assert (E1 : t = unlines (c0 :: cs ++ [str "# "]) ++
                       (str "# " ++ str "FROM alpine" ++ x) ++ nl :: unlines [a2] ++ R1)
        by (unfold a1; flat_text; reflexivity);
      rewrite E1; clear E1
  end.
  rewrite (sub_from_keep_first_lines M (commented (str "FROM alpine") [AnyStar true])
             Copy.first_group (str "# " ++ str "FROM alpine")
             (fun prev s m => match_commented_start M (str "FROM alpine") [AnyStar true]
                                prev s m eq_refl eq_refl)).
  2: discriminate.
  2: { intros Hin; simpl in Hin.
       repeat (destruct Hin as [Hin|Hin]; [discriminate|]); exact Hin. }
  2: { constructor; [split; [exact Hc0|reflexivity]|].
       apply Forall_app. split.
       - apply Forall_map. apply Forall_forall. intros l Hl.
         rewrite Forall_forall in Hbody, Hfa.
         split; [apply in_comment_line; now apply Hbody|].
         rewrite startswith_comment_line. now apply Hfa.
       - repeat constructor. intros Hin; simpl in Hin.
         repeat (destruct Hin as [Hin|Hin]; [discriminate|]); exact Hin. }
  rewrite (sub_commented_line M (str "FROM alpine") x Copy.first_group (Some nl))
    by (try reflexivity; exact Hx).
  fold b1.
  rewrite (commented_keep_lines M (str "FROM alpine") [AnyStar true] Copy.first_group [a2]).
  2, 3: reflexivity.
  2: { intros Hin; simpl in Hin.
       repeat (destruct Hin as [Hin|Hin]; [discriminate|]); exact Hin. }
  2: { repeat constructor; assumption. }
  set (R2 := sub_from M (commented (str "FROM alpine") [AnyStar true]) Copy.first_group
               0 (Some nl) R1).
  (* the alpine RUN line *)
  rewrite re_sub_str_backref1. unfold re_sub. rewrite alpine_run_commented.
  match goal with
  | |- context [sub_from _ _ _ 0 None ?t] =>
      assert (E2 : t = unlines (c0 :: cs ++ [str "# "; b1]) ++
                       (str "# " ++ str "RUN apk update" ++ y) ++ nl :: R2)
        by (unfold a2; flat_text; reflexivity);
      rewrite E2; clear E2
  end.
  rewrite (sub_from_keep_first_lines MS (commented (str "RUN apk update") [AnyStar true])
             Copy.first_group (str "# " ++ str "RUN apk update")
             (fun prev s m => match_commented_start MS (str "RUN apk update") [AnyStar true]
                                prev s m eq_refl eq_refl)).
  2: discriminate.
  2: { intros Hin; simpl in Hin.
       repeat (destruct Hin as [Hin|Hin]; [discriminate|]); exact Hin. }
  2: { constructor; [split; [exact Hc0|reflexivity]|].
       apply Forall_app. split.
       - apply Forall_map. apply Forall_forall. intros l Hl.
         rewrite Forall_forall in Hbody, Hra.
         split; [apply in_comment_line; now apply Hbody|].
         rewrite startswith_comment_line. now apply Hra.
       - apply Forall_cons.
         + split; [|reflexivity]. intros Hin; simpl in Hin.
           repeat (destruct Hin as [Hin|Hin]; [discriminate|]); exact Hin.
         + apply Forall_cons; [|apply Forall_nil].
           split; [exact Hb1|reflexivity]. }
  rewrite (sub_commented_line MS (str "RUN apk update") y Copy.first_group (Some nl))
    by (try reflexivity; exact Hy).
  fold b2.
  set (R3 := sub_from MS (commented (str "RUN apk update") [AnyStar true]) Copy.first_group
               0 (Some nl) R2).
  (* the shell *)
  rewrite re_sub_str_lits by reflexivity.
  exists (str_replace cmd_bash cmd_ash R3). f_equal.
  match goal with
  | |- str_replace _ _ ?t = _ =>
      assert (E3 : t = unlines (c0 :: cs ++ [str "# "; b1; b2]) ++ R3)
        by (flat_text; reflexivity);
      rewrite E3; clear E3
  end.
  rewrite str_replace_keep_lines.
  - flat_text. reflexivity.
  - discriminate.
  - intros Hin; simpl in Hin.
    repeat (destruct Hin as [Hin|Hin]; [discriminate|]); exact Hin.
  - inversion Hcmd as [|l0 ls0 Hc0' Hcs']; subst.
    constructor; [exact Hc0'|]. apply Forall_app. split.
    + now apply Forall_map.
    + repeat constructor; try assumption.
Qed.

(** ** C5: one profile active *)

(** The base OS selection of create-dockerfile.py works line by line. *)
Lemma script_select_base_lines (p : profile) (x y : text) :
  Script.select_base p (x ++ nl :: y) =
  Script.select_base p x ++ nl :: Script.select_base p y.
Proof.
  assert (N : forall q : text, forallb (fun c => negb (Ascii.eqb c nl)) q = true ->
                               ~ In nl q).
  { intros q H Hin. rewrite forallb_forall in H. apply H in Hin.
    now rewrite Ascii.eqb_refl in Hin. }
  destruct p; unfold Script.select_base; cbv zeta.
  - rewrite (str_replace_lines (str "#FROM ubuntu:22.04")) by (discriminate || now apply N).
    now rewrite (str_replace_lines (str "# RUN apt-get update"))
      by (discriminate || now apply N).
  - rewrite (str_replace_lines (str "FROM ubuntu:22.04")) by (discriminate || now apply N).
    rewrite (str_replace_lines (str "# FROM alpine:latest")) by (discriminate || now apply N).
    rewrite (str_replace_lines (str "# RUN apk update")) by (discriminate || now apply N).
    rewrite (str_replace_lines cmd_bash) by (discriminate || now apply N).
    now rewrite (str_replace_lines (str "# For Alpine, use " ++ dq :: str "/bin/ash" ++ dq ::
                                    str " instead of " ++ dq :: str "/bin/bash" ++ [dq]))
      by (discriminate || now apply N).
Qed.

(** C5, as stated, fails.  For the ubuntu choice neither script suppresses
    anything: a template whose two profile blocks are both active comes out
    with both active.  (For the alpine choice create-dockerfile.py comments
    the [FROM ubuntu:22.04] line of [two_profiles] and leaves the ubuntu
    command [RUN apt-get update] active.) *)
Lemma c5_two_profiles_active :
  let both_active :=
    lines [ str "FROM ubuntu:22.04"; str "RUN apt-get update"; str "";
            str "FROM alpine:latest"; str "RUN apk update"; str "" ] in
  Script.select_base ubuntu both_active = both_active /\
  Copy.configure_base_os both_active ubuntu = Some both_active /\
  In (str "FROM ubuntu:22.04") (split_on nl both_active) /\
  In (str "FROM alpine:latest") (split_on nl both_active) /\
  split_on nl (Script.select_base alpine two_profiles) =
    [ str "# FROM ubuntu:22.04"; str "RUN apt-get update"; str "";
      str "FROM alpine:latest"; str "RUN apk update"; str "";
      str "ARG INSTALL_RUST=true"; str "# " ++ cmd_bash; str "" ].
Proof.
  cbv zeta. split; [vm_compute; reflexivity|]. split; [reflexivity|].
  split; [vm_compute; auto|]. split; [vm_compute; auto 10|].
  vm_compute. reflexivity.
Qed.

(** C5 (amended): what the base OS step does by design.  For alpine, the
    copy, on a template that begins with the ubuntu block and goes on,
    after the empty line, with the commented alpine lines ([pristine]),
    comments every line of the ubuntu block and uncomments the two alpine
    lines; create-dockerfile.py works line by line, comments the line
    [FROM ubuntu:22.04] and uncomments the lines [# FROM alpine:latest] and
    [# RUN apk update].  For ubuntu the copy returns the template as it is:
    nothing is suppressed. *)
Theorem c5_base_os_step (u : text) (body : list text) (x y rest pre post : text) :
  (Copy.pristine u body x y = true ->
   exists rest',
     Copy.configure_base_os
       (unlines ((str "FROM ubuntu" ++ u) :: body) ++ nl ::
        unlines [str "# FROM alpine" ++ x; str "# RUN apk update" ++ y] ++ rest) alpine =
     Some (unlines (map Copy.comment_line ((str "FROM ubuntu" ++ u) :: body)) ++
           str "# " ++ nl ::
           unlines [str "FROM alpine" ++ x; str "RUN apk update" ++ y] ++ rest')) /\
  Script.select_base alpine
    (pre ++ nl :: unlines [str "FROM ubuntu:22.04"; str "# FROM alpine:latest";
                           str "# RUN apk update"] ++ post) =
    Script.select_base alpine pre ++ nl ::
    unlines [str "# FROM ubuntu:22.04"; str "FROM alpine:latest"; str "RUN apk update"] ++
    Script.select_base alpine post /\
  Copy.configure_base_os rest ubuntu = Some rest.
Proof.
  split; [apply copy_alpine_pristine|]. split; [|reflexivity].
  cbn [unlines]. rewrite <- !app_assoc. cbn [app].
  rewrite !script_select_base_lines.
  repeat f_equal.
Qed.

Lemma c5_base_os_step_witness :
  Copy.pristine (str ":22.04") [str "RUN apt-get update"] (str ":latest") [] = true /\
  exists rest',
    Copy.configure_base_os
      (unlines ((str "FROM ubuntu" ++ str ":22.04") :: [str "RUN apt-get update"]) ++ nl ::
       unlines [str "# FROM alpine" ++ str ":latest"; str "# RUN apk update" ++ []] ++
       unlines [str ""; str "ARG INSTALL_RUST=true"; cmd_bash]) alpine =
    Some (unlines (map Copy.comment_line
                     ((str "FROM ubuntu" ++ str ":22.04") :: [str "RUN apt-get update"])) ++
          str "# " ++ nl ::
          unlines [str "FROM alpine" ++ str ":latest"; str "RUN apk update" ++ []] ++ rest').
Proof.
  split; [vm_compute; reflexivity|].
  apply (c5_base_os_step (str ":22.04") [str "RUN apt-get update"] (str ":latest") []
           (unlines [str ""; str "ARG INSTALL_RUST=true"; cmd_bash]) [] []).
  vm_compute. reflexivity.
Defined.

(** ** C6: where markers match *)




(** ** C7: a language without markers in the template *)






(** ** C8: the template file is missing *)

(** C8, as stated, fails for create-dockerfile.py: run with no language
    option and at most one argument (here only [--template=<path>], so
    [sys.argv] has length 2), it prints the help text and ends with status 0
    before it looks for the template. *)
Lemma c8_help_before_template_check :
  let a := Script.Args ubuntu false (str "1.22.2") false false false (str "20")
             false (str "17") (str "Dockerfile") (str "missing") false in
  files no_file (Script.template a) = None /\
  Script.main 2 a no_file = Outcome 0 Script.help_message no_file.
Proof. split; reflexivity. Qed.

(** C8 (amended): when the template file does not exist, [generate_dockerfile]
    of create-dockerfile.py and [main] of the copy print the error, end with
    status 1 and leave the files as they were; [main] of create-dockerfile.py
    does so when a language option or [--all] is given or [sys.argv] has more
    than two entries (otherwise it prints the help text and ends with
    status 0). *)
Theorem c8_missing_template (a : Script.args) (b : Copy.args) (argc : nat) (w : world) :
  (files w (Script.template a) = None ->
   Script.generate_dockerfile a w =
     Outcome 1 [str "Error: Template file not found at " ++ Script.template a] w) /\
  (files w (Script.template a) = None ->
   Script.golang a || Script.rust a || Script.python a || Script.nodejs a
     || Script.java a || Script.all a = true \/ 2 < argc ->
   Script.main argc a w =
     Outcome 1 [str "Error: Template file not found at " ++ Script.template a] w) /\
  (files w (Copy.template b) = None ->
   Copy.main b w =
     Outcome 1 [str "Error: Template file not found at " ++ Copy.template b] w).
Proof.
  assert (G : files w (Script.template a) = None ->
              Script.generate_dockerfile a w =
              Outcome 1 [str "Error: Template file not found at " ++ Script.template a] w).
  { intros H. unfold Script.generate_dockerfile. now rewrite H. }
  split; [exact G|]. split.
  - intros H Hg. unfold Script.main.
    destruct Hg as [Hg|Hg].
    + rewrite Hg. cbn [negb andb]. now apply G.
    + apply Nat.leb_gt in Hg. rewrite Hg, andb_false_r. now apply G.
  - intros H. unfold Copy.main, Copy.read_template. now rewrite H.
Qed.

Lemma c8_missing_template_witness :
  (files no_file (Script.template Script.defaults) = None /\
   Script.generate_dockerfile Script.defaults no_file =
     Outcome 1 [str "Error: Template file not found at " ++ Script.template Script.defaults]
             no_file) /\
  (Script.golang Script.defaults || Script.rust Script.defaults
     || Script.python Script.defaults || Script.nodejs Script.defaults
     || Script.java Script.defaults || Script.all Script.defaults = true \/ 2 < 3) /\
  Script.main 3 Script.defaults no_file =
    Outcome 1 [str "Error: Template file not found at " ++ Script.template Script.defaults]
            no_file /\
  files no_file (Copy.template Copy.defaults) = None /\
  Copy.main Copy.defaults no_file =
    Outcome 1 [str "Error: Template file not found at " ++ Copy.template Copy.defaults]
            no_file.
Proof.
  pose proof (c8_missing_template Script.defaults Copy.defaults 3 no_file) as (H1 & H2 & H3).
  assert (Hg : Script.golang Script.defaults || Script.rust Script.defaults
                 || Script.python Script.defaults || Script.nodejs Script.defaults
                 || Script.java Script.defaults || Script.all Script.defaults = true
               \/ 2 < 3) by (right; lia).
  split; [split; [reflexivity|exact (H1 eq_refl)]|].
  split; [exact Hg|]. split; [exact (H2 eq_refl Hg)|].
  split; [reflexivity|exact (H3 eq_refl)].
Defined.

(** ** C9: the two scripts on a language that is not requested *)




(** ** C10: the version assignment of a language that is not installed *)

Lemma arg_line_app (key v : text) : arg_line key v = arg_line key [] ++ v.
Proof. unfold arg_line. now rewrite <- !app_assoc, app_nil_l. Qed.

Lemma str_replace_one_line (p r s : text) :
  p <> [] -> ~ In nl r -> ~ In nl s -> ~ In nl (str_replace p r s).
Proof.
  intros Hp Hr. revert s.
  apply (scan_ind p Hp (fun s => ~ In nl s -> ~ In nl (str_replace p r s))).
  - intros _. rewrite str_replace_nil by exact Hp. intros [].
  - intros s IH Hs. rewrite str_replace_hit by exact Hp.
    intros Hin. apply in_app_or in Hin as [Hin|Hin]; [now apply Hr|].
    revert Hin. apply IH. intros Hin. apply Hs, in_or_app. now right.
  - intros c s E IH Hs. rewrite str_replace_miss by exact E.
    intros [Hin|Hin]; [apply Hs; now left|].
    revert Hin. apply IH. intros Hin. apply Hs. now right.
Qed.

Lemma copy_flag_step_version_line (b : Copy.args) (c : component) (key old : text)
  (v : option text) :
  Copy.version_args b c = (Some key, v) ->
  Copy.flag_step b c (arg_line key old) = arg_line key [] ++ Copy.flag_step b c old.
Proof.
  intros E. rewrite arg_line_app. unfold Copy.flag_step.
  apply str_replace_over; [apply install_flag_nonempty|].
  destruct c; simpl in E; inversion E; reflexivity.
Qed.

Lemma copy_version_step_version_line (b : Copy.args) (c : component)
  (key v x : text) :
  Copy.version_args b c = (Some key, Some v) -> v <> [] -> ~ In nl x ->
  Copy.version_step b c (arg_line key [] ++ x) = arg_line key v.
Proof.
  intros E Hv Hx. unfold Copy.version_step. rewrite E.
  destruct v as [|v0 v]; [congruence|].
  unfold re_sub.
  apply (version_line key (arg_line key (v0 :: v)) _ (fun _ _ => eq_refl) x None Hx).
Qed.

(** The version line of a call's language, through the flag and version
    rewrites. *)
Lemma copy_version_line_rewritten (b : Copy.args) (c : component) (key v old : text) :
  Copy.version_args b c = (Some key, Some v) -> v <> [] -> ~ In nl old ->
  Copy.version_step b c (Copy.flag_step b c (arg_line key old)) = arg_line key v.
Proof.
  intros E Hv Ho.
  rewrite (copy_flag_step_version_line b c key old _ E).
  apply copy_version_step_version_line; try assumption.
  unfold Copy.flag_step.
  apply str_replace_one_line;
    [apply install_flag_nonempty|apply install_flag_one_line|exact Ho].
Qed.

(** C10, as stated, fails for some version values.  With the language not
    installed: a value with a backslash is read as a replacement template
    (backslash-n writes a newline, not the value); a template the [re]
    module rejects (backslash-d) makes the call raise; and an empty value
    leaves the assignment as it is. *)
Lemma c10_version_value_not_written :
  let with_version v :=
    Copy.Args (str "Dockerfile") ubuntu false false false false false
              v (str "20") (str "17") (str "t") in
  Copy.enabled (with_version [backslash; "n"%char]) GOLANG = false /\
  Copy.configure (with_version [backslash; "n"%char]) GOLANG (str "ARG GO_VERSION=1.22.2")
    = Some (str "ARG GO_VERSION=" ++ [nl]) /\
  Copy.configure (with_version [backslash; "d"%char]) GOLANG (str "ARG GO_VERSION=1.22.2")
    = None /\
  Copy.configure (with_version []) GOLANG (str "ARG GO_VERSION=1.22.2")
    = Some (str "ARG GO_VERSION=1.22.2").
Proof. cbv zeta. repeat split; vm_compute; reflexivity. Qed.

(** C10 (amended): in the copy, for every language with a version
    parameter (Go, Node.js, Java) and every version value that is not empty
    and holds no backslash, the call [main] makes rewrites the line
    [ARG <key>=...] to [ARG <key>=<value>] also when the language is not
    installed; the lines before and after it are configured on their own.
    When the value holds no newline either, the line is rewritten so
    whatever the install flag. *)
Theorem c10_version_rewritten_when_disabled (b : Copy.args) (c : component)
  (key v pre old post : text) :
  Copy.version_args b c = (Some key, Some v) ->
  Copy.plain_versions b = true -> v <> [] -> ~ In nl old ->
  (Copy.enabled b c = false ->
   exists pre' post',
     Copy.configure b c pre = Some pre' /\ Copy.configure b c post = Some post' /\
     Copy.configure b c (pre ++ nl :: arg_line key old ++ nl :: post) =
       Some (pre' ++ nl :: arg_line key v ++ nl :: post')) /\
  (~ In nl v ->
   exists pre' post',
     Copy.configure b c (pre ++ nl :: arg_line key old ++ nl :: post) =
       Some (pre' ++ nl :: arg_line key v ++ nl :: post')).
Proof.
  intros E Hp Hv Ho. split.
  - intros He. do 2 eexists.
    rewrite !copy_configure_disabled by assumption.
    split; [reflexivity|]. split; [reflexivity|].
    rewrite !copy_flag_step_lines, !copy_version_step_lines.
    now rewrite (copy_version_line_rewritten b c key v old E Hv Ho).
  - intros Hnv.
    pose proof (copy_configure_line b c pre (arg_line key old) post Hp) as H.
    cbv zeta in H.
    rewrite (copy_version_line_rewritten b c key v old E Hv Ho) in H.
    destruct H as (x' & y' & H & _).
    + rewrite arg_line_app. intros Hin. apply in_app_or in Hin as [Hin|Hin];
        [|now apply Hnv].
      revert Hin. exact (copy_version_key_one_line b c key _ E).
    + reflexivity.
    + now exists x', y'.
Qed.

Lemma c10_version_rewritten_when_disabled_witness :
  Copy.version_args Copy.defaults GOLANG = (Some (str "GO_VERSION"), Some (str "1.22.2")) /\
  Copy.plain_versions Copy.defaults = true /\
  str "1.22.2" <> [] /\ ~ In nl (str "1.19") /\
  (Copy.enabled Copy.defaults GOLANG = false /\
   exists pre' post',
     Copy.configure Copy.defaults GOLANG (str "ARG INSTALL_GOLANG=true") = Some pre' /\
     Copy.configure Copy.defaults GOLANG (str "ARG INSTALL_RUST=true") = Some post' /\
     Copy.configure Copy.defaults GOLANG
       (str "ARG INSTALL_GOLANG=true" ++ nl :: arg_line (str "GO_VERSION") (str "1.19")
          ++ nl :: str "ARG INSTALL_RUST=true") =
     Some (pre' ++ nl :: arg_line (str "GO_VERSION") (str "1.22.2") ++ nl :: post')) /\
  (~ In nl (str "1.22.2") /\
   exists pre' post',
     Copy.configure Copy.defaults GOLANG
       (str "ARG INSTALL_GOLANG=true" ++ nl :: arg_line (str "GO_VERSION") (str "1.19")
          ++ nl :: str "ARG INSTALL_RUST=true") =
     Some (pre' ++ nl :: arg_line (str "GO_VERSION") (str "1.22.2") ++ nl :: post')).
Proof.
  assert (Hn : ~ In nl (str "1.19")).
  { simpl. intros [H|[H|[H|[H|H]]]]; try discriminate; exact H. }
  assert (Hv : ~ In nl (str "1.22.2")).
  { simpl. intros [H|[H|[H|[H|[H|[H|H]]]]]]; try discriminate; exact H. }
  assert (Hne : str "1.22.2" <> []) by discriminate.
  pose proof (c10_version_rewritten_when_disabled Copy.defaults GOLANG (str "GO_VERSION")
                (str "1.22.2") (str "ARG INSTALL_GOLANG=true") (str "1.19")
                (str "ARG INSTALL_RUST=true") eq_refl eq_refl Hne Hn) as [H1 H2].
  split; [reflexivity|]. split; [reflexivity|]. split; [exact Hne|].
  split; [exact Hn|]. split.
  - split; [reflexivity|exact (H1 eq_refl)].
  - split; [exact Hv|exact (H2 Hv)].
Defined.
(** ** What a rewrite cannot bring about *)

Lemma occurs_nil (q : text) : q <> [] -> occurs q [] = false.
Proof. destruct q; [congruence|reflexivity]. Qed.

Lemma occurs_over (q r t : text) :
  (forall k, k < length r -> startswith q (skipn k r ++ t) = false) ->
  occurs q t = false -> occurs q (r ++ t) = false.
Proof.
  induction r as [|a r IH]; intros H Ht; [exact Ht|].
  cbn [app occurs]. apply orb_false_intro.
  - apply (H 0). simpl. lia.
  - apply IH; [|exact Ht]. intros k Hk. apply (H (S k)). simpl. lia.
Qed.

(** A text [q] that can neither begin inside the replacement nor run into
    it does not come to occur through the replacement. *)
Lemma str_replace_brings_none (q p r : text) :
  p <> [] -> never_starts_in q r = true -> never_runs_into q r = true ->
  forall s, occurs q s = false -> occurs q (str_replace p r s) = false.
Proof.
  intros Hp Hs Hr s. pattern s. apply (scan_ind p Hp); clear s.
  - intros H. rewrite (str_replace_nil p r Hp). exact H.
  - intros s IH H. rewrite (str_replace_hit p r Hp).
    apply occurs_over.
    + intros k Hk. apply never_starts_in_spec; assumption.
    + apply IH. pose proof (occurs_skipn q (length p) (p ++ s) H) as E.
      rewrite skipn_app, skipn_all, Nat.sub_diag in E. exact E.
  - intros c s Hm IH H. rewrite (str_replace_miss p r c s Hm).
    cbn [occurs] in H |- *. apply orb_false_elim in H as [H1 H2].
    apply orb_false_intro; [|apply IH; exact H2].
    destruct (startswith q (c :: str_replace p r s)) eqn:E; [|reflexivity].
    pose proof (startswith_through q p r Hp Hr s [c] ltac:(discriminate) E) as E'.
    simpl app in E'. congruence.
Qed.

(** After a replacement whose pattern is apart from what replaces it, the
    pattern occurs nowhere. *)
Lemma str_replace_leaves_none (p r : text) :
  p <> [] -> apart p r = true -> forall s, occurs p (str_replace p r s) = false.
Proof.
  intros Hp Ha s. unfold apart in Ha. apply andb_prop in Ha as [Hs Hr].
  pattern s. apply (scan_ind p Hp); clear s.
  - rewrite (str_replace_nil p r Hp). apply occurs_nil. exact Hp.
  - intros s IH. rewrite (str_replace_hit p r Hp).
    apply occurs_over; [|exact IH].
    intros k Hk. apply never_starts_in_spec; assumption.
  - intros c s Hm IH. rewrite (str_replace_miss p r c s Hm).
    cbn [occurs]. apply orb_false_intro; [|exact IH].
    destruct (startswith p (c :: str_replace p r s)) eqn:E; [|reflexivity].
    pose proof (startswith_through p p r Hp Hr s [c] ltac:(discriminate) E) as E'.
    simpl app in E'. congruence.
Qed.

(** ** create-dockerfile.py: a language that is not requested *)

Lemma script_configure_keeps_flag_absent (a : Script.args) (c c' : component) (t : text) :
  Script.order_free a = true -> Script.enabled a c = false ->
  occurs (install_flag (lang_name c) true) t = false ->
  occurs (install_flag (lang_name c) true) (Script.configure a c' t) = false.
Proof.
  intros H Hc Ht. unfold Script.order_free in H. rewrite forallb_forall in H.
  specialize (H c (all_components c)). rewrite forallb_forall in H.
  specialize (H c' (all_components c')).
  rewrite script_configure_rewrite.
  apply orb_prop in H as [H|H].
  - apply component_eqb_eq in H. subst c'.
    unfold Script.rewrite_of. rewrite Hc.
    rewrite str_replace_absent; [exact Ht|apply install_flag_nonempty|exact Ht].
  - destruct (Script.rewrite_of a c') as [[p' r']|] eqn:E'; [|exact Ht].
    unfold Script.rewrite_of in H. rewrite Hc in H.
    unfold independent in H.
    apply andb_prop in H as [H Hr]. apply andb_prop in H as [_ Hs].
    apply str_replace_brings_none; try assumption.
    eapply script_rewrite_nonempty; eassumption.
Qed.

Lemma script_configure_in_order_flag_gone (a : Script.args) (c : component) :
  Script.order_free a = true -> Script.enabled a c = false ->
  forall order t,
    In c order \/ occurs (install_flag (lang_name c) true) t = false ->
    occurs (install_flag (lang_name c) true) (Script.configure_in_order order a t) = false.
Proof.
  intros H Hc. unfold Script.configure_in_order.
  induction order as [|c' order IH]; intros t Hin; cbn [fold_left].
  - destruct Hin as [[]|Ht]. exact Ht.
  - apply IH. destruct Hin as [[E|Hin]|Ht].
    + right. subst c'. rewrite script_configure_disabled by exact Hc.
      apply str_replace_leaves_none;
        [apply install_flag_nonempty|apply install_flag_apart].
    + now left.
    + right. now apply script_configure_keeps_flag_absent.
Qed.

(** X1.  In the Dockerfile [create-dockerfile.py] writes, the flag of a
    language that was not requested is nowhere left at [true]: when the
    replacements of the blocks are independent (as they are for the default
    version values), the text holds no [ARG INSTALL_<LANG>=true] for a
    language that neither its own option nor [--all] enables. *)
Theorem x1_script_flag_of_unrequested_language_gone (a : Script.args) (c : component)
  (content : text) :
  Script.order_free (Script.effective a) = true ->
  Script.enabled (Script.effective a) c = false ->
  occurs (install_flag (lang_name c) true) (Script.transform a content) = false.
Proof.
  intros H Hc. unfold Script.transform.
  apply script_configure_in_order_flag_gone; [exact H|exact Hc|].
  left. apply all_components.
Qed.

Lemma x1_script_flag_of_unrequested_language_gone_witness :
  Script.order_free (Script.effective Script.defaults) = true /\
  Script.enabled (Script.effective Script.defaults) RUST = false /\
  occurs (install_flag (lang_name RUST) true) two_profiles = true /\
  occurs (install_flag (lang_name RUST) true)
         (Script.transform Script.defaults two_profiles) = false.
Proof.
  split; [vm_compute; reflexivity|]. split; [reflexivity|].
  split; [vm_compute; reflexivity|].
  apply (x1_script_flag_of_unrequested_language_gone Script.defaults RUST two_profiles);
    vm_compute; reflexivity.
Defined.

(** ** create-dockerfile.py: one line at a time *)

Lemma script_configure_in_order_lines (a : Script.args) (order : list component) :
  forall x y,
    Script.configure_in_order order a (x ++ nl :: y) =
    Script.configure_in_order order a x ++ nl :: Script.configure_in_order order a y.
Proof.
  unfold Script.configure_in_order.
  induction order as [|c order IH]; intros x y; cbn [fold_left]; [reflexivity|].
  rewrite script_configure_lines. apply IH.
Qed.

Lemma script_transform_lines (a : Script.args) (x y : text) :
  Script.transform a (x ++ nl :: y) = Script.transform a x ++ nl :: Script.transform a y.
Proof.
  unfold Script.transform. rewrite script_select_base_lines.
  apply script_configure_in_order_lines.
Qed.

Lemma script_transform_nil (a : Script.args) : Script.transform a [] = [].
Proof.
  unfold Script.transform, Script.configure_in_order.
  assert (B : Script.select_base (Script.base a) [] = [])
    by (destruct (Script.base a); reflexivity).
  rewrite B. generalize (Script.effective a) as a'. intros a'.
  assert (C : forall c, Script.configure a' c [] = []).
  { intros c. rewrite script_configure_rewrite.
    destruct (Script.rewrite_of a' c) as [[p r]|] eqn:E; [|reflexivity].
    apply str_replace_nil. eapply script_rewrite_nonempty; eassumption. }
  unfold components. cbn [fold_left]. now rewrite !C.
Qed.

(** X2.  [create-dockerfile.py] rewrites a template one line at a time: the
    text it writes for the lines [ls] joined by newlines is the join of the
    texts it writes for each line alone, whatever the options.  No line of
    the Dockerfile depends on another line of the template, and an empty
    template gives an empty Dockerfile. *)
Theorem x2_script_rewrites_line_by_line (a : Script.args) (ls : list text) :
  Script.transform a (join [nl] ls) = join [nl] (map (Script.transform a) ls).
Proof.
  induction ls as [|l ls IH]; [apply script_transform_nil|].
  destruct ls as [|l' ls]; [reflexivity|].
  change (join [nl] (l :: l' :: ls)) with (l ++ nl :: join [nl] (l' :: ls)).
  rewrite script_transform_lines, IH. reflexivity.
Qed.

(** ** create-dockerfile.py: the markers of the base OS selection *)

Lemma script_select_base_chain (p : profile) (t : text) :
  Script.select_base p t =
  fold_left (fun t m => str_replace (fst m) (snd m) t) (base_markers p) t.
Proof. destruct p; reflexivity. Qed.

Ltac nonempty_text :=
  let E := fresh in intros E; vm_compute in E; discriminate E.

Ltac over_marker :=
  rewrite str_replace_over by (first [nonempty_text | vm_compute; reflexivity]).

Ltac hit_marker :=
  rewrite str_replace_hit by nonempty_text.

(** X3.  The base OS selection of [create-dockerfile.py] replaces each of
    its markers where it stands and goes on with the text behind it: a text
    that begins with a marker of the chosen base OS is rewritten to the
    marker's replacement followed by the rewritten rest.  So what follows a
    marker on its line is kept ([# RUN apt-get update && ...] loses its
    comment prefix only), and under [alpine] the [bash] command line gets
    the comment prefix while the hint comment becomes the [ash] command. *)
Theorem x3_script_base_marker_replaced (p : profile) (m m' rest : text) :
  In (m, m') (base_markers p) ->
  Script.select_base p (m ++ rest) = m' ++ Script.select_base p rest.
Proof.
  intros H. rewrite !script_select_base_chain.
  destruct p; cbn [base_markers In] in H; cbn [base_markers fold_left fst snd];
    repeat (destruct H as [H|H]; [inversion H; subst m m'; clear H|]);
    try contradiction.
  - hit_marker. over_marker. reflexivity.
  - over_marker. hit_marker. reflexivity.
  - hit_marker. repeat over_marker. reflexivity.
  - over_marker. hit_marker. repeat over_marker. reflexivity.
  - repeat over_marker. hit_marker. repeat over_marker. reflexivity.
  - repeat over_marker. hit_marker. over_marker. reflexivity.
  - repeat over_marker. hit_marker. reflexivity.
Qed.

Lemma x3_script_base_marker_replaced_witness :
  In (str "# RUN apt-get update", str "RUN apt-get update") (base_markers ubuntu) /\
  Script.select_base ubuntu (str "# RUN apt-get update" ++ str " && apt-get install -y curl") =
  str "RUN apt-get update" ++ Script.select_base ubuntu (str " && apt-get install -y curl").
Proof.
  split; [right; left; reflexivity|].
  apply (x3_script_base_marker_replaced ubuntu). right; left; reflexivity.
Defined.

(** ** create-dockerfile.py: the version assignments *)

(** X4.  [create-dockerfile.py] writes a requested version only over the
    default literal it knows ([1.22.2], [20], [17]), and only for a language
    that is enabled.  For an enabled language a text that begins with the
    default assignment gets the requested value and is rewritten further
    behind it (so [ARG NODE_MAJOR=200] turns into the requested value
    followed by [0]); a text without the default assignment is left as it
    is; and for a language that is not enabled the default assignment
    stays. *)
Theorem x4_script_version_written_over_default_only (a : Script.args) (c : component)
  (key default value rest t : text) :
  Script.version_rewrite a c = Some (key, default, value) ->
  (Script.enabled a c = true ->
   Script.configure a c (arg_line key default ++ rest) =
     arg_line key value ++ Script.configure a c rest) /\
  (Script.enabled a c = true -> occurs (arg_line key default) t = false ->
   Script.configure a c t = t) /\
  (Script.enabled a c = false ->
   Script.configure a c (arg_line key default) = arg_line key default).
Proof.
  intros Hv.
  destruct (script_version_one_line a c key default value Hv) as (_ & Hne & _ & _).
  split; [|split].
  - intros He. rewrite !script_configure_rewrite.
    unfold Script.rewrite_of. rewrite He, Hv.
    apply str_replace_hit. exact Hne.
  - intros He Ht. rewrite script_configure_rewrite.
    unfold Script.rewrite_of. rewrite He, Hv.
    apply str_replace_absent; assumption.
  - intros He. rewrite script_configure_disabled by exact He.
    apply str_replace_absent; [apply install_flag_nonempty|].
    destruct c; simpl in Hv; inversion Hv; subst; vm_compute; reflexivity.
Qed.

Lemma x4_script_version_written_over_default_only_witness :
  Script.version_rewrite script_node18 NODEJS = Some (str "NODE_MAJOR", str "20", str "18") /\
  Script.version_rewrite script_node18 JAVA = Some (str "JAVA_VERSION", str "17", str "17") /\
  (Script.enabled script_node18 NODEJS = true /\
   Script.configure script_node18 NODEJS (arg_line (str "NODE_MAJOR") (str "20") ++ str "0") =
     arg_line (str "NODE_MAJOR") (str "18") ++ Script.configure script_node18 NODEJS (str "0")) /\
  (occurs (arg_line (str "NODE_MAJOR") (str "20")) (str "ARG NODE_MAJOR=16") = false /\
   Script.configure script_node18 NODEJS (str "ARG NODE_MAJOR=16") = str "ARG NODE_MAJOR=16") /\
  (Script.enabled script_node18 JAVA = false /\
   Script.configure script_node18 JAVA (arg_line (str "JAVA_VERSION") (str "17")) =
     arg_line (str "JAVA_VERSION") (str "17")).
Proof.
  pose proof (x4_script_version_written_over_default_only script_node18 NODEJS
                (str "NODE_MAJOR") (str "20") (str "18") (str "0")
                (str "ARG NODE_MAJOR=16") eq_refl) as (H1 & H2 & _).
  pose proof (x4_script_version_written_over_default_only script_node18 JAVA
                (str "JAVA_VERSION") (str "17") (str "17") [] [] eq_refl) as (_ & _ & H3).
  split; [reflexivity|]. split; [reflexivity|].
  split; [split; [reflexivity|exact (H1 eq_refl)]|].
  split; [split; [reflexivity|exact (H2 eq_refl eq_refl)]|].
  split; [reflexivity|exact (H3 eq_refl)].
Defined.

(** ** Both scripts: what a run does to the files *)

Lemma text_eqb_refl (a : text) : text_eqb a a = true.
Proof.
  induction a as [|c a IH]; [reflexivity|].
  cbn [text_eqb]. now rewrite Ascii.eqb_refl, IH.
Qed.


Lemma files_write_file_same (w : world) (path content : text) :
  files (write_file w path content) path = Some content.
Proof. unfold write_file. cbn [files]. now rewrite text_eqb_refl. Qed.



(** ** The copy: a run that does not fail *)

(** The base OS step of the copy never raises: its replacement templates
    are well formed. *)
Lemma copy_alpine_steps (content : text) :
  Copy.configure_base_os content alpine =
  Some (str_replace cmd_bash cmd_ash
          (re_sub MS Copy.alpine_run Copy.first_group
             (re_sub M Copy.alpine_from Copy.first_group
                (re_sub MS Copy.ubuntu_section Copy.comment_out content)))).
Proof.
  unfold Copy.configure_base_os.
  rewrite re_sub_str_backref1, re_sub_str_backref1.
  apply re_sub_str_lits. vm_compute. reflexivity.
Qed.

Lemma copy_configure_in_order_some (b : Copy.args) (order : list component) :
  Copy.plain_versions b = true ->
  forall t, exists t', Copy.configure_in_order order b t = Some t'.
Proof.
  intros Hp. induction order as [|c order IH]; intros t; cbn [Copy.configure_in_order].
  - now exists t.
  - rewrite copy_configure_steps by exact Hp. apply IH.
Qed.

Lemma copy_transform_some (b : Copy.args) (content : text) :
  Copy.plain_versions b = true -> exists t, Copy.transform b content = Some t.
Proof.
  intros Hp. unfold Copy.transform. destruct (Copy.os b).
  - cbn [Copy.configure_base_os]. now apply copy_configure_in_order_some.
  - rewrite copy_alpine_steps. now apply copy_configure_in_order_some.
Qed.

(** X6.  When the template can be read and no version value holds a
    backslash, the copy transforms it without an error, and the run then
    depends on the output path alone.  If the path can be written, the run
    ends with status 0, prints the configuration summary, and the output
    file reads back as the transformed text; if it cannot,
    [write_dockerfile] prints [Error writing to <output>: <error>], the run
    ends with status 1 and no file has changed. *)
Theorem x6_copy_run_on_a_readable_template (b : Copy.args) (w : world) (content : text) :
  Copy.plain_versions b = true ->
  files w (Copy.template b) = Some content ->
  exists t,
    Copy.transform b content = Some t /\
    (write_error w (Copy.output b) = None ->
     Copy.main b w = Outcome 0 (Copy.report b) (write_file w (Copy.output b) t) /\
     files (after (Copy.main b w)) (Copy.output b) = Some t) /\
    (forall e, write_error w (Copy.output b) = Some e ->
     Copy.main b w =
       Outcome 1 [str "Error writing to " ++ Copy.output b ++ str ": " ++ e] w).
Proof.
  intros Hp Hf. destruct (copy_transform_some b content Hp) as [t Ht].
  exists t. split; [exact Ht|].
  unfold Copy.main, Copy.read_template, Copy.write_dockerfile. rewrite Hf, Ht.
  split.
  - intros Hw. rewrite Hw. split; [reflexivity|].
    cbn [after]. apply files_write_file_same.
  - intros e Hw. rewrite Hw. reflexivity.
Qed.

Lemma x6_copy_run_on_a_readable_template_witness :
  (Copy.plain_versions copy_rust = true /\
   files (one_file (str "t") two_profiles) (Copy.template copy_rust) = Some two_profiles /\
   write_error (one_file (str "t") two_profiles) (Copy.output copy_rust) = None /\
   exit_code (Copy.main copy_rust (one_file (str "t") two_profiles)) = 0) /\
  (Copy.plain_versions copy_rust_unwritable = true /\
   files (read_only_world two_profiles) (Copy.template copy_rust_unwritable)
     = Some two_profiles /\
   write_error (read_only_world two_profiles) (Copy.output copy_rust_unwritable)
     = Some (str "[Errno 2] No such file or directory: '/proc/Dockerfile'") /\
   Copy.main copy_rust_unwritable (read_only_world two_profiles) =
     Outcome 1 [str "Error writing to /proc/Dockerfile: [Errno 2] No such file or directory: '/proc/Dockerfile'"]
             (read_only_world two_profiles)).
Proof.
  destruct (x6_copy_run_on_a_readable_template copy_rust
              (one_file (str "t") two_profiles) two_profiles eq_refl eq_refl)
    as (t1 & _ & H1 & _).
  destruct (x6_copy_run_on_a_readable_template copy_rust_unwritable
              (read_only_world two_profiles) two_profiles eq_refl eq_refl)
    as (t2 & _ & _ & H2).
  split.
  - split; [reflexivity|]. split; [reflexivity|]. split; [reflexivity|].
    destruct (H1 eq_refl) as [E _]. rewrite E. reflexivity.
  - split; [reflexivity|]. split; [reflexivity|]. split; [reflexivity|].
    exact (H2 _ eq_refl).
Defined.

(** ** The copy: a version value that is no replacement template *)

Lemma parse_tmpl_trailing_backslash (groups : nat) (t : text) :
  plain t = true -> forall fuel, parse_tmpl fuel groups (t ++ [backslash]) = None.
Proof.
  induction t as [|c t IH]; intros Hp fuel.
  - destruct fuel; reflexivity.
  - rewrite plain_cons in Hp. apply andb_prop in Hp as [Hc Hp].
    destruct fuel as [|fuel]; [reflexivity|].
    cbn [app parse_tmpl]. rewrite Hc, (IH Hp). reflexivity.
Qed.

Lemma copy_configure_language_bad_version (content lang key v : text) (install : bool) :
  plain (arg_line key v) = true -> key <> [] ->
  Copy.configure_language content lang install (Some key) (Some (v ++ [backslash])) = None.
Proof.
  intros Hp Hk. unfold Copy.configure_language.
  destruct (re_sub_str no_flags (Copy.install_pattern lang) 0 _ content); [|reflexivity].
  assert (T : Copy.truthy (Some key) && Copy.truthy (Some (v ++ [backslash])) = true).
  { destruct key; [congruence|]. destruct v; reflexivity. }
  rewrite T. cbn [Copy.text_of].
  unfold re_sub_str, parse_template.
  rewrite arg_line_app, app_assoc, <- arg_line_app.
  now rewrite parse_tmpl_trailing_backslash.
Qed.

Lemma copy_configure_in_order_fails (b : Copy.args) (c : component) :
  (forall t, Copy.configure b c t = None) ->
  forall order, In c order -> forall t, Copy.configure_in_order order b t = None.
Proof.
  intros H. induction order as [|c' order IH]; intros Hin t; [contradiction|].
  cbn [Copy.configure_in_order].
  destruct (Copy.configure b c' t) as [t'|] eqn:E; [|reflexivity].
  destruct Hin as [->|Hin]; [|now apply IH].
  rewrite H in E. discriminate.
Qed.

(** X7.  A version value that ends in a backslash (after characters that
    are none) is no replacement template for [re.sub]: the copy then fails
    with the uncaught error of [re], whatever the template holds - even a
    template without any version assignment, since the replacement is
    compiled before the text is scanned.  The run ends with status 1, prints
    nothing and writes no file. *)
Theorem x7_copy_version_ending_in_backslash_fails (b : Copy.args) (c : component)
  (key v : text) (w : world) (content : text) :
  Copy.version_args b c = (Some key, Some (v ++ [backslash])) ->
  plain v = true ->
  files w (Copy.template b) = Some content ->
  Copy.transform b content = None /\ Copy.main b w = Outcome 1 [] w.
Proof.
  intros Hv Hp Hf.
  assert (Hk : plain key = true /\ key <> []).
  { destruct c; simpl in Hv; inversion Hv; subst; split;
      solve [reflexivity | discriminate]. }
  destruct Hk as [Hk Hne].
  assert (F : forall t, Copy.configure b c t = None).
  { intros t. unfold Copy.configure. rewrite Hv. cbn [fst snd].
    apply copy_configure_language_bad_version; [|exact Hne].
    now apply arg_line_plain. }
  assert (T : Copy.transform b content = None).
  { unfold Copy.transform.
    destruct (Copy.configure_base_os content (Copy.os b)) as [t|]; [|reflexivity].
    apply (copy_configure_in_order_fails b c F). apply all_components. }
  split; [exact T|].
  unfold Copy.main, Copy.read_template. rewrite Hf, T. reflexivity.
Qed.

Lemma x7_copy_version_ending_in_backslash_fails_witness :
  Copy.version_args copy_node_backslash NODEJS
    = (Some (str "NODE_MAJOR"), Some (str "18" ++ [backslash])) /\
  plain (str "18") = true /\
  files (one_file (str "t") (str "FROM debian:12")) (Copy.template copy_node_backslash)
    = Some (str "FROM debian:12") /\
  Copy.transform copy_node_backslash (str "FROM debian:12") = None /\
  Copy.main copy_node_backslash (one_file (str "t") (str "FROM debian:12"))
    = Outcome 1 [] (one_file (str "t") (str "FROM debian:12")).
Proof.
  split; [reflexivity|]. split; [reflexivity|]. split; [reflexivity|].
  exact (x7_copy_version_ending_in_backslash_fails copy_node_backslash NODEJS
           (str "NODE_MAJOR") (str "18") (one_file (str "t") (str "FROM debian:12"))
           (str "FROM debian:12") eq_refl eq_refl eq_refl).
Defined.

(** ** The copy: the function that comments a match out *)

Lemma split_on_cons (s : text) : exists l ls, split_on nl s = l :: ls.
Proof.
  induction s as [|c s (l & ls & E)]; [now exists [], []|].
  cbn [split_on]. destruct (Ascii.eqb c nl); [now eexists _, _|].
  rewrite E. now eexists _, _.
Qed.

Lemma split_on_one_line (s : text) : Forall (fun l => ~ In nl l) (split_on nl s).
Proof.
  induction s as [|c s IH]; [repeat constructor; intros []|].
  cbn [split_on]. destruct (Ascii.eqb c nl) eqn:E.
  - constructor; [intros []|exact IH].
  - destruct (split_on nl s) as [|l ls].
    + constructor; [|constructor]. intros [H|[]]. subst c.
      now rewrite Ascii.eqb_refl in E.
    + inversion IH as [|? ? Hl Hls]; subst. constructor; [|exact Hls].
      intros [H|H]; [|now apply Hl]. subst c. now rewrite Ascii.eqb_refl in E.
Qed.

Lemma join_split_on (s : text) : join [nl] (split_on nl s) = s.
Proof.
  induction s as [|c s IH]; [reflexivity|].
  cbn [split_on]. destruct (Ascii.eqb c nl) eqn:E.
  - apply Ascii.eqb_eq in E. subst c.
    destruct (split_on_cons s) as (l & ls & El). rewrite El in IH |- *.
    change (join [nl] ([] :: l :: ls)) with (nl :: join [nl] (l :: ls)).
    now rewrite IH.
  - destruct (split_on_cons s) as (l & ls & El). rewrite El in IH |- *.
    rewrite <- IH. destruct ls; reflexivity.
Qed.

Lemma split_on_join (l : text) (ls : list text) :
  Forall (fun l => ~ In nl l) (l :: ls) -> split_on nl (join [nl] (l :: ls)) = l :: ls.
Proof.
  revert l. induction ls as [|l' ls IH]; intros l H; inversion H as [|? ? Hl Hls]; subst.
  - cbn [join]. clear H Hls. induction l as [|c l IHl]; [reflexivity|].
    cbn [split_on]. rewrite (not_nl_eqb c l Hl).
    rewrite IHl; [reflexivity|]. intros Hin. apply Hl. now right.
  - change (join [nl] (l :: l' :: ls)) with (l ++ nl :: join [nl] (l' :: ls)).
    rewrite split_on_line by exact Hl. now rewrite IH.
Qed.

Lemma skipn_comment_line (l : text) : skipn 2 (Copy.comment_line l) = l.
Proof. reflexivity. Qed.

Lemma length_join_comment_lines (ls : list text) :
  length (join [nl] (map Copy.comment_line ls)) = length (join [nl] ls) + 2 * length ls.
Proof.
  induction ls as [|l ls IH]; [reflexivity|].
  destruct ls as [|l' ls].
  - cbn [map join length]. unfold Copy.comment_line. rewrite length_app.
    change (length (str "# ")) with 2. lia.
  - change (join [nl] (map Copy.comment_line (l :: l' :: ls)))
      with (Copy.comment_line l ++ nl :: join [nl] (map Copy.comment_line (l' :: ls))).
    change (join [nl] (l :: l' :: ls)) with (l ++ nl :: join [nl] (l' :: ls)).
    rewrite !length_app. cbn [length] in IH |- *. rewrite IH.
    unfold Copy.comment_line. rewrite length_app.
    change (length (str "# ")) with 2. lia.
Qed.

(** X8.  The function the copy substitutes for the ubuntu section puts the
    comment prefix in front of every line of the match, the empty last line
    of a match that ends in a newline included: the lines of its result are
    the lines of the match with [# ] in front, taking the first two
    characters off each line of the result gives the match back, and the
    result is two characters longer per line (so an empty match gives
    [# ]). *)
Theorem x8_copy_comment_out_prefixes_each_line (g0 g1 : text) :
  split_on nl (Copy.comment_out g0 g1) = map Copy.comment_line (split_on nl g0) /\
  join [nl] (map (skipn 2) (split_on nl (Copy.comment_out g0 g1))) = g0 /\
  length (Copy.comment_out g0 g1) = length g0 + 2 * length (split_on nl g0).
Proof.
  assert (S : split_on nl (Copy.comment_out g0 g1) = map Copy.comment_line (split_on nl g0)).
  { unfold Copy.comment_out. change (fun line => str "# " ++ line) with Copy.comment_line.
    pose proof (split_on_one_line g0) as H.
    destruct (split_on_cons g0) as (l & ls & E). rewrite E in H |- *.
    cbn [map]. apply split_on_join.
    change (Copy.comment_line l :: map Copy.comment_line ls)
      with (map Copy.comment_line (l :: ls)).
    apply Forall_map. eapply Forall_impl; [|exact H].
    intros x Hx. now apply in_comment_line. }
  split; [exact S|]. split.
  - rewrite S, map_map.
    rewrite (map_ext _ (fun l => l) skipn_comment_line), map_id.
    apply join_split_on.
  - unfold Copy.comment_out. change (fun line => str "# " ++ line) with Copy.comment_line.
    rewrite length_join_comment_lines, join_split_on. reflexivity.
Qed.

(** X9.  With [alpine], the base OS step of the copy does not fail and
    leaves no [bash] command behind: whatever the template, the text it
    returns holds no [CMD ["/bin/bash"]] (in the quoted form of the
    template) any more. *)
Theorem x9_copy_alpine_leaves_no_bash_command (content : text) :
  exists t, Copy.configure_base_os content alpine = Some t /\ occurs cmd_bash t = false.
Proof.
  eexists. split; [apply copy_alpine_steps|].
  apply str_replace_leaves_none; [nonempty_text|vm_compute; reflexivity].
Qed.

(** ** The copy: the lines the alpine choice uncomments *)

Lemma lazy_to_end (fl : flags) (x : text) :
  ~ In nl x ->
  forall pos prev,
    match_here fl [AnyStar true; Close; Eol] pos prev x =
    Some (Found (pos + length x) 0 (pos + length x)).
Proof.
  induction x as [|c x IH]; intros Hn pos prev.
  - cbn [length]. rewrite Nat.add_0_r. reflexivity.
  - change (match_here fl [AnyStar true; Close; Eol] pos prev (c :: x))
      with (match match_here fl [Close; Eol] pos prev (c :: x) with
            | Some m => Some m
            | None => if dot_ok fl c
                      then match_here fl [AnyStar true; Close; Eol] (S pos) (Some c) x
                      else None
            end).
    cbn [match_here at_eol]. unfold dot_ok. rewrite (not_nl_eqb c x Hn).
    cbn [andb negb]. rewrite orb_true_r.
    rewrite IH by (intros Hin; apply Hn; now right).
    f_equal. f_equal; simpl; lia.
Qed.

Lemma sub_from_end (fl : flags) (re : regex) (repl : text -> text -> text)
  (prev : option ascii) :
  match_here fl re 0 prev [] = None -> sub_from fl re repl 0 prev [] = [].
Proof. intros E. cbn [sub_from]. now rewrite E. Qed.

Lemma commented_no_match_at_end (fl : flags) (head : text) (tail : regex)
  (prev : option ascii) :
  groupless tail = true -> match_here fl (commented head tail) 0 prev [] = None.
Proof.
  intros Hg. destruct (match_here fl (commented head tail) 0 prev []) as [m|] eqn:E;
    [|reflexivity].
  apply match_commented in E as (_ & s2 & Hs & _); [discriminate|exact Hg].
Qed.

(** The last line of a text, when it is a commented line that goes on with
    [head], loses its comment prefix as well. *)
Lemma sub_commented_last_line (fl : flags) (head x : text) (repl : text -> text -> text)
  (prev : option ascii) :
  multiline fl = true -> (forall g0 g1, repl g0 g1 = g1) ->
  at_bol MS prev = true -> ~ In nl x ->
  sub_from fl (commented head [AnyStar true]) repl 0 prev (str "# " ++ head ++ x) =
  head ++ x.
Proof.
  intros Hm Hr Hb Hx.
  assert (E : match_here fl (commented head [AnyStar true]) 0 prev (str "# " ++ head ++ x)
              = Some (Found (2 + length head + length x) 2 (2 + length head + length x))).
  { unfold commented. cbn [match_here str list_ascii_of_string app].
    rewrite at_bol_multiline, Hb by exact Hm.
    rewrite !Ascii.eqb_refl.
    rewrite match_here_lits_then, startswith_app.
    rewrite skipn_app, skipn_all, Nat.sub_diag. cbn [skipn app].
    rewrite lazy_to_end by assumption. reflexivity. }
  rewrite (sub_from_hit fl _ _ prev _ _ E).
  - rewrite Hr. unfold group1. cbn [m_end g_start g_end].
    replace (2 + length head + length x - 2) with (length (head ++ x))
      by (rewrite length_app; lia).
    change (skipn 2 (str "# " ++ head ++ x)) with (head ++ x).
    rewrite firstn_all.
    replace (2 + length head + length x) with (length (str "# " ++ head ++ x))
      by (rewrite !length_app; simpl; lia).
    rewrite skipn_all.
    rewrite sub_from_end; [apply app_nil_r|].
    now apply commented_no_match_at_end.
  - cbn [m_end]. lia.
  - cbn [m_end]. rewrite !length_app. simpl. lia.
Qed.

(** A last line the pattern cannot begin with is copied. *)
Lemma sub_from_keep_last_line (fl : flags) (re : regex) (repl : text -> text -> text)
  (P : text) :
  (forall prev s m, match_here fl re 0 prev s = Some m ->
                    at_bol MS prev = true /\ startswith P s = true) ->
  P <> [] ->
  forall L, ~ In nl L -> forall prev,
    (at_bol MS prev = true -> startswith P L = false) ->
    sub_from fl re repl 0 prev L = L.
Proof.
  intros Hm HP.
  assert (Hnone : forall prev s, (at_bol MS prev = true -> startswith P s = false) ->
                                 match_here fl re 0 prev s = None).
  { intros prev s H. destruct (match_here fl re 0 prev s) as [m|] eqn:E; [|reflexivity].
    apply Hm in E as [Hb Hs]. rewrite (H Hb) in Hs. discriminate. }
  induction L as [|c L IH]; intros HnL prev Hs.
  - apply sub_from_end. apply Hnone. intros _. destruct P; [congruence|reflexivity].
  - rewrite sub_from_miss by (apply Hnone; exact Hs).
    f_equal. apply IH.
    + intros Hin. apply HnL. now right.
    + simpl. rewrite (not_nl_eqb c L HnL). discriminate.
Qed.

Lemma startswith_commented_split (head l : text) :
  startswith (str "# " ++ head) l = true ->
  l = str "# " ++ head ++ skipn (length (str "# " ++ head)) l.
Proof.
  intros H. apply startswith_split in H. rewrite <- app_assoc in H. exact H.
Qed.

Lemma sub_commented_lines (fl : flags) (head : text) :
  multiline fl = true -> ~ In nl head ->
  forall ls l prev,
    Forall (fun l => ~ In nl l) (l :: ls) -> at_bol MS prev = true ->
    sub_from fl (commented head [AnyStar true]) Copy.first_group 0 prev (join [nl] (l :: ls)) =
    join [nl] (map (uncomment_line head) (l :: ls)).
Proof.
  intros Hm Hh.
  assert (HP : ~ In nl (str "# " ++ head)).
  { intros [E|[E|Hin]]; try discriminate. now apply Hh. }
  assert (Hstart : forall prev s m,
             match_here fl (commented head [AnyStar true]) 0 prev s = Some m ->
             at_bol MS prev = true /\ startswith (str "# " ++ head) s = true).
  { intros prev s m. now apply match_commented_start. }
  induction ls as [|l' ls IH]; intros l prev H Hb;
    inversion H as [|? ? Hl Hls]; subst.
  - cbn [join map]. unfold uncomment_line.
    destruct (startswith (str "# " ++ head) l) eqn:E.
    + pose proof (startswith_commented_split head l E) as El.
      set (x := skipn (length (str "# " ++ head)) l) in El.
      assert (Hx : ~ In nl x).
      { intros Hin. apply Hl. rewrite El. apply in_or_app. right.
        apply in_or_app. now right. }
      rewrite El. rewrite sub_commented_last_line; try assumption; reflexivity.
    + apply (sub_from_keep_last_line fl _ _ (str "# " ++ head)); try assumption.
      * discriminate.
      * intros _. exact E.
  - change (join [nl] (l :: l' :: ls)) with (l ++ nl :: join [nl] (l' :: ls)).
    change (join [nl] (map (uncomment_line head) (l :: l' :: ls)))
      with (uncomment_line head l ++ nl :: join [nl] (map (uncomment_line head) (l' :: ls))).
    rewrite <- (IH l' (Some nl) Hls eq_refl).
    unfold uncomment_line at 1.
    destruct (startswith (str "# " ++ head) l) eqn:E.
    + pose proof (startswith_commented_split head l E) as El.
      set (x := skipn (length (str "# " ++ head)) l) in El.
      assert (Hx : ~ In nl x).
      { intros Hin. apply Hl. rewrite El. apply in_or_app. right.
        apply in_or_app. now right. }
      rewrite El.
      rewrite sub_commented_line; try assumption; reflexivity.
    + apply (sub_from_keep_line fl _ _ (str "# " ++ head)); try assumption.
      * discriminate.
      * intros _. exact E.
Qed.

Lemma re_sub_commented_lines (fl : flags) (head s : text) :
  multiline fl = true -> ~ In nl head ->
  re_sub fl (commented head [AnyStar true]) Copy.first_group s =
  join [nl] (map (uncomment_line head) (split_on nl s)).
Proof.
  intros Hm Hh. rewrite <- (join_split_on s) at 1.
  pose proof (split_on_one_line s) as H.
  destruct (split_on_cons s) as (l & ls & E). rewrite E in H |- *.
  unfold re_sub. now apply sub_commented_lines.
Qed.

(** X10.  With [alpine], the second and the third substitution of the base
    OS step work line by line: they take the comment prefix off every line
    that begins with [# FROM alpine], respectively [# RUN apk update] - the
    last line of a text without a final newline included - and change
    nothing else.  (For the third one [re.DOTALL] makes no difference: the
    lazy [.*?] ends at the first end of line.) *)
Theorem x10_copy_alpine_lines_uncommented (s : text) :
  re_sub_str M Copy.alpine_from 1 Copy.backref1 s =
    Some (join [nl] (map (uncomment_line (str "FROM alpine")) (split_on nl s))) /\
  re_sub_str MS Copy.alpine_run 1 Copy.backref1 s =
    Some (join [nl] (map (uncomment_line (str "RUN apk update")) (split_on nl s))).
Proof.
  rewrite !re_sub_str_backref1, alpine_from_commented, alpine_run_commented.
  split; f_equal; apply re_sub_commented_lines; try reflexivity;
    intros H; repeat (destruct H as [H|H]; [discriminate H|]); exact H.
Qed.

(** ** The copy: the commented block of a language *)

(** Of the character before the text, a match sees only whether it makes
    the text begin a line. *)
Lemma match_here_prev_ext (fl : flags) (re : regex) :
  forall pos prev prev' s,
    at_bol fl prev = at_bol fl prev' ->
    match_here fl re pos prev s = match_here fl re pos prev' s.
Proof.
  induction re as [|a re IH]; intros pos prev prev' s H; [reflexivity|].
  destruct a as [c| | |lazy| |].
  - reflexivity.
  - cbn [match_here]. rewrite H. destruct (at_bol fl prev') eqn:E; [|reflexivity].
    apply IH. congruence.
  - cbn [match_here]. destruct (at_eol fl s); [|reflexivity]. apply IH. exact H.
  - destruct s as [|c s].
    + cbn [match_here]. apply IH. exact H.
    + change (match_here fl (AnyStar lazy :: re) pos prev (c :: s))
        with (if lazy then
                match match_here fl re pos prev (c :: s) with
                | Some m => Some m
                | None => if dot_ok fl c
                          then match_here fl (AnyStar lazy :: re) (S pos) (Some c) s
                          else None
                end
              else
                match (if dot_ok fl c
                       then match_here fl (AnyStar lazy :: re) (S pos) (Some c) s
                       else None) with
                | Some m => Some m
                | None => match_here fl re pos prev (c :: s)
                end).
      change (match_here fl (AnyStar lazy :: re) pos prev' (c :: s))
        with (if lazy then
                match match_here fl re pos prev' (c :: s) with
                | Some m => Some m
                | None => if dot_ok fl c
                          then match_here fl (AnyStar lazy :: re) (S pos) (Some c) s
                          else None
                end
              else
                match (if dot_ok fl c
                       then match_here fl (AnyStar lazy :: re) (S pos) (Some c) s
                       else None) with
                | Some m => Some m
                | None => match_here fl re pos prev' (c :: s)
                end).
      now rewrite (IH pos prev prev' (c :: s) H).
  - cbn [match_here]. now rewrite (IH pos prev prev' s H).
  - cbn [match_here]. now rewrite (IH pos prev prev' s H).
Qed.

Lemma sub_from_prev_ext (fl : flags) (re : regex) (repl : text -> text -> text)
  (prev prev' : option ascii) (s : text) :
  at_bol fl prev = at_bol fl prev' ->
  sub_from fl re repl 0 prev s = sub_from fl re repl 0 prev' s.
Proof.
  intros H. destruct s as [|c s]; cbn [sub_from];
    now rewrite (match_here_prev_ext fl re 0 prev prev' _ H).
Qed.

Lemma match_block_end (pos : nat) (prev : option ascii) (s : text) :
  match_here MS (Bol :: lits block_end ++ [Close; Eol]) pos prev s =
  if at_bol MS prev && startswith block_end s && at_eol MS (skipn 8 s)
  then Some (Found (pos + 8) 0 (pos + 8)) else None.
Proof.
  cbn [match_here]. destruct (at_bol MS prev); [|reflexivity].
  rewrite match_here_lits_then. destruct (startswith block_end s); [|reflexivity].
  change (length block_end) with 8. cbn [match_here andb].
  destruct (at_eol MS (skipn 8 s)); reflexivity.
Qed.

Lemma lazy_block_end_unfold (pos : nat) (prev : option ascii) (c : ascii) (s : text) :
  match_here MS (AnyStar true :: Bol :: lits block_end ++ [Close; Eol]) pos prev (c :: s) =
  match match_here MS (Bol :: lits block_end ++ [Close; Eol]) pos prev (c :: s) with
  | Some m => Some m
  | None => match_here MS (AnyStar true :: Bol :: lits block_end ++ [Close; Eol])
                       (S pos) (Some c) s
  end.
Proof. reflexivity. Qed.

(** The lazy [.*?] of the block pattern passes a line that is not the end
    line of a block. *)
Lemma lazy_block_line (l : text) :
  ~ In nl l -> forall pos prev s,
    (at_bol MS prev = true -> startswith block_end l = false) ->
    match_here MS (AnyStar true :: Bol :: lits block_end ++ [Close; Eol]) pos prev
               (l ++ nl :: s) =
    match_here MS (AnyStar true :: Bol :: lits block_end ++ [Close; Eol])
               (pos + length l + 1) (Some nl) s.
Proof.
  induction l as [|c l IH]; intros Hn pos prev s Hp.
  - cbn [app length]. rewrite lazy_block_end_unfold, match_block_end.
    replace (startswith block_end (nl :: s)) with false by reflexivity.
    rewrite andb_false_r. cbn [andb]. f_equal. lia.
  - change ((c :: l) ++ nl :: s) with (c :: (l ++ nl :: s)).
    rewrite lazy_block_end_unfold, match_block_end.
    assert (E : at_bol MS prev && startswith block_end (c :: l ++ nl :: s) = false).
    { destruct (at_bol MS prev) eqn:Hb; [|reflexivity]. cbn [andb].
      change (c :: l ++ nl :: s) with ((c :: l) ++ nl :: s).
      rewrite startswith_line; [now apply Hp|].
      intros H. repeat (destruct H as [H|H]; [discriminate H|]). exact H. }
    rewrite E. cbn [andb].
    rewrite IH.
    + f_equal. simpl. lia.
    + intros Hin. apply Hn. now right.
    + simpl. rewrite (not_nl_eqb c l Hn). discriminate.
Qed.

Lemma lazy_block_lines (ls : list text) :
  Forall (fun l => ~ In nl l /\ startswith block_end l = false) ls ->
  forall pos s,
    match_here MS (AnyStar true :: Bol :: lits block_end ++ [Close; Eol]) pos (Some nl)
               (unlines ls ++ s) =
    match_here MS (AnyStar true :: Bol :: lits block_end ++ [Close; Eol])
               (pos + length (unlines ls)) (Some nl) s.
Proof.
  intros H. induction H as [|l ls [Hn Hs] _ IH]; intros pos s.
  - simpl. now rewrite Nat.add_0_r.
  - cbn [unlines]. rewrite <- app_assoc. cbn [app].
    rewrite lazy_block_line by (try assumption; intros _; exact Hs).
    rewrite IH. f_equal. rewrite length_app. simpl. lia.
Qed.

Lemma lazy_block_end_here (pos : nat) (s : text) :
  at_eol MS s = true ->
  match_here MS (AnyStar true :: Bol :: lits block_end ++ [Close; Eol]) pos (Some nl)
             (block_end ++ s) =
  Some (Found (pos + 8) 0 (pos + 8)).
Proof.
  intros He.
  change (block_end ++ s) with ("#"%char :: skipn 1 block_end ++ s).
  rewrite lazy_block_end_unfold, match_block_end.
  change ("#"%char :: skipn 1 block_end ++ s) with (block_end ++ s).
  rewrite startswith_app.
  change (skipn 8 (block_end ++ s)) with s. rewrite He. reflexivity.
Qed.

Lemma prev_after_block_head (prev : option ascii) (lang : text) :
  prev_after prev (Copy.block_head lang) = Some backslash.
Proof.
  unfold prev_after, Copy.block_head.
  repeat (rewrite fold_left_app; cbn [fold_left]). reflexivity.
Qed.

(** The match of the block pattern on a commented block: from the comment
    prefix of its first line to the end of its end line. *)
Lemma match_block (lang x : text) (body : list text) (prev : option ascii) (s : text) :
  at_bol MS prev = true -> ~ In nl x ->
  Forall (fun l => ~ In nl l /\ startswith block_end l = false) body ->
  at_eol MS s = true ->
  match_here MS (Copy.block_pattern lang) 0 prev
    ((str "# " ++ Copy.block_head lang ++ x) ++ nl :: unlines body ++ block_end ++ s) =
  Some (Found (length ((str "# " ++ Copy.block_head lang ++ x) ++ nl :: unlines body ++ block_end))
              2
              (length ((str "# " ++ Copy.block_head lang ++ x) ++ nl :: unlines body ++ block_end))).
Proof.
  intros Hb Hx Hbody He.
  rewrite block_pattern_commented. unfold commented, Copy.block_tail.
  cbn [match_here str list_ascii_of_string app].
  rewrite Hb, !Ascii.eqb_refl.
  rewrite <- app_assoc, match_here_lits_then, startswith_app.
  rewrite skipn_app, skipn_all, Nat.sub_diag. cbn [skipn app].
  change ((AnyStar true :: Bol :: lits (str "#     fi")) ++ [Close; Eol])
    with (AnyStar true :: Bol :: lits block_end ++ [Close; Eol]).
  rewrite prev_after_block_head.
  rewrite lazy_block_line by (try assumption; discriminate).
  rewrite lazy_block_lines by exact Hbody.
  rewrite lazy_block_end_here by exact He.
  cbn [m_end g_end].
  match goal with
  | |- Some (Found ?a _ _) = Some (Found ?b _ _) =>
      assert (L : b = a)
        by (cbn [length]; rewrite !length_app; cbn [length]; rewrite length_app;
            change (length block_end) with 8; lia);
      rewrite L; reflexivity
  end.
Qed.

Lemma sub_block (lang x : text) (body : list text) (prev : option ascii) (rest : text) :
  at_bol MS prev = true -> ~ In nl x ->
  Forall (fun l => ~ In nl l /\ startswith block_end l = false) body ->
  sub_from MS (Copy.block_pattern lang) Copy.first_group 0 prev
    ((str "# " ++ Copy.block_head lang ++ x) ++ nl :: unlines body ++ block_end ++ nl :: rest) =
  (Copy.block_head lang ++ x) ++ nl :: unlines body ++ block_end ++
  nl :: sub_from MS (Copy.block_pattern lang) Copy.first_group 0 (Some nl) rest.
Proof.
  intros Hb Hx Hbody.
  pose proof (match_block lang x body prev (nl :: rest) Hb Hx Hbody eq_refl) as E.
  set (B2 := (Copy.block_head lang ++ x) ++ nl :: unlines body ++ block_end).
  assert (EB : (str "# " ++ Copy.block_head lang ++ x) ++ nl :: unlines body ++ block_end
               = "#"%char :: " "%char :: B2).
  { unfold B2. cbn [str list_ascii_of_string app]. reflexivity. }
  assert (ET : (str "# " ++ Copy.block_head lang ++ x) ++ nl :: unlines body ++ block_end
                 ++ nl :: rest
               = "#"%char :: " "%char :: B2 ++ nl :: rest).
  { unfold B2. cbn [str list_ascii_of_string app]. rewrite <- !app_assoc. cbn [app].
    now rewrite <- !app_assoc. }
  rewrite EB in E. rewrite ET in E |- *.
  rewrite (sub_from_hit MS _ _ prev _ _ E).
  - unfold Copy.first_group, group1. cbn [m_end g_start g_end length skipn Nat.sub].
    rewrite Nat.sub_0_r, firstn_app, firstn_all, Nat.sub_diag. cbn [firstn].
    rewrite app_nil_r.
    change (skipn (S (S (length B2))) ("#"%char :: " "%char :: B2 ++ nl :: rest))
      with (skipn (length B2) (B2 ++ nl :: rest)).
    rewrite skipn_app, skipn_all, Nat.sub_diag. cbn [skipn app].
    unfold B2 at 1. rewrite <- !app_assoc. cbn [app]. rewrite <- !app_assoc.
    do 5 f_equal.
    apply sub_from_miss.
    match goal with
    | |- ?mm = None => destruct mm as [m'|] eqn:E'; [|reflexivity]
    end.
    rewrite block_pattern_commented in E'.
    apply match_commented in E' as (_ & s2 & Hs & _); [discriminate|reflexivity].
  - cbn [m_end length]. lia.
  - cbn [m_end length]. rewrite length_app. lia.
Qed.

Lemma copy_configure_language_install (c : component) (t : text) :
  Copy.configure_language t (lang_name c) true None None =
  Some (re_sub MS (Copy.block_pattern (lang_name c)) Copy.first_group t).
Proof.
  unfold Copy.configure_language. cbn [bool_literal Copy.truthy andb].
  change (str "ARG INSTALL_" ++ lang_name c ++ str "=" ++ str "true")
    with (install_flag (lang_name c) true).
  unfold Copy.install_pattern.
  rewrite re_sub_str_lits by apply install_flag_plain.
  rewrite str_replace_same by apply install_flag_nonempty. reflexivity.
Qed.

(** X11.  For a language that is requested, [configure_language] takes the
    comment prefix off the first line of the language's commented block
    and off nothing else: the lines of the block after it, down to the line
    [#     fi] that ends the block, stay commented as they were.  The lines
    before the block and the block's lines are given as they stand in the
    template; what follows the block is configured in the same way. *)
Theorem x11_copy_block_loses_its_first_prefix_only (c : component) (pre : list text)
  (x : text) (body : list text) (rest : text) :
  Forall (fun l => ~ In nl l /\
                   startswith (str "# " ++ Copy.block_head (lang_name c)) l = false) pre ->
  ~ In nl x ->
  Forall (fun l => ~ In nl l /\ startswith block_end l = false) body ->
  exists rest',
    Copy.configure_language rest (lang_name c) true None None = Some rest' /\
    Copy.configure_language
      (unlines pre ++ Copy.comment_line (Copy.block_head (lang_name c) ++ x) ++ nl ::
       unlines body ++ block_end ++ nl :: rest)
      (lang_name c) true None None =
    Some (unlines pre ++ (Copy.block_head (lang_name c) ++ x) ++ nl ::
          unlines body ++ block_end ++ nl :: rest').
Proof.
  intros Hpre Hx Hbody. rewrite !copy_configure_language_install.
  eexists. split; [reflexivity|]. f_equal.
  unfold re_sub.
  rewrite (sub_from_prev_ext MS _ _ None (Some nl)) by reflexivity.
  rewrite block_pattern_commented at 1.
  rewrite commented_keep_lines;
    [|reflexivity|apply block_tail_groupless|apply block_head_one_line|exact Hpre].
  rewrite <- block_pattern_commented. f_equal.
  unfold Copy.comment_line.
  rewrite sub_block by (try assumption; reflexivity).
  now rewrite (sub_from_prev_ext MS _ _ (Some nl) None) by reflexivity.
Qed.

Lemma x11_copy_block_loses_its_first_prefix_only_witness :
  Forall (fun l => ~ In nl l /\
                   startswith (str "# " ++ Copy.block_head (lang_name RUST)) l = false)
         rust_block_before /\
  ~ In nl (@nil ascii) /\
  Forall (fun l => ~ In nl l /\ startswith block_end l = false) rust_block_body /\
  exists rest',
    Copy.configure_language rust_block_after (lang_name RUST) true None None = Some rest' /\
    Copy.configure_language
      (unlines rust_block_before ++
       Copy.comment_line (Copy.block_head (lang_name RUST) ++ []) ++ nl ::
       unlines rust_block_body ++ block_end ++ nl :: rust_block_after)
      (lang_name RUST) true None None =
    Some (unlines rust_block_before ++ (Copy.block_head (lang_name RUST) ++ []) ++ nl ::
          unlines rust_block_body ++ block_end ++ nl :: rest').
Proof.
  assert (H1 : Forall (fun l => ~ In nl l /\
                         startswith (str "# " ++ Copy.block_head (lang_name RUST)) l = false)
                      rust_block_before).
  { repeat constructor. apply one_line_spec. reflexivity. }
  assert (H2 : ~ In nl (@nil ascii)) by (intros []).
  assert (H3 : Forall (fun l => ~ In nl l /\ startswith block_end l = false) rust_block_body).
  { repeat constructor. apply one_line_spec. reflexivity. }
  split; [exact H1|]. split; [exact H2|]. split; [exact H3|].
  exact (x11_copy_block_loses_its_first_prefix_only RUST rust_block_before []
           rust_block_body rust_block_after H1 H2 H3).
Defined.

(** ** The copy: an ubuntu section that no empty line ends *)

(** In a text without an empty line and without a final newline the lazy
    [.*?^$] finds no place to end. *)
Lemma lazy_blank_none (ls : list text) :
  Forall (fun l => ~ In nl l /\ l <> []) ls ->
  forall l pos prev,
    ~ In nl l -> (l = [] -> at_bol MS prev = false) ->
    match_here MS [AnyStar true; Bol; Eol] pos prev (join [nl] (l :: ls)) = None.
Proof.
  intros H. induction H as [|l2 ls [Hn2 Hne2] _ IH].
  - cbn [join]. induction l as [|c l IHl]; intros pos prev Hn Hp.
    + cbn [match_here]. now rewrite (Hp eq_refl).
    + rewrite lazy_blank_step.
      * apply IHl; [intros Hin; apply Hn; now right|].
        intros _. simpl. apply (not_nl_eqb c l Hn).
      * simpl. rewrite (not_nl_eqb c l Hn). apply andb_false_r.
  - intros l pos prev Hn Hp.
    change (join [nl] (l :: l2 :: ls)) with (l ++ nl :: join [nl] (l2 :: ls)).
    rewrite lazy_blank_line by assumption.
    apply IH; [exact Hn2|]. intros E. congruence.
Qed.

Lemma skipn_join_first (k : nat) (l : text) (ls : list text) :
  k <= length l -> skipn k (join [nl] (l :: ls)) = join [nl] (skipn k l :: ls).
Proof.
  intros Hk. destruct ls as [|l2 ls]; [reflexivity|].
  change (join [nl] (l :: l2 :: ls)) with (l ++ nl :: join [nl] (l2 :: ls)).
  change (join [nl] (skipn k l :: l2 :: ls)) with (skipn k l ++ nl :: join [nl] (l2 :: ls)).
  rewrite skipn_app. replace (k - length l) with 0 by lia. reflexivity.
Qed.

Lemma startswith_join_first (p l : text) (ls : list text) :
  ~ In nl p -> startswith p (join [nl] (l :: ls)) = startswith p l.
Proof.
  intros Hp. destruct ls as [|l2 ls]; [reflexivity|].
  change (join [nl] (l :: l2 :: ls)) with (l ++ nl :: join [nl] (l2 :: ls)).
  now apply startswith_line.
Qed.

Lemma ubuntu_section_no_match (ls : list text) (l : text) (prev : option ascii) :
  Forall (fun l => ~ In nl l /\ l <> []) ls -> ~ In nl l ->
  match_here MS Copy.ubuntu_section 0 prev (join [nl] (l :: ls)) = None.
Proof.
  intros H Hn. rewrite match_ubuntu_section.
  destruct (at_bol MS prev); [|reflexivity]. cbn [andb].
  rewrite startswith_join_first
    by (intros Hin; repeat (destruct Hin as [Hin|Hin]; [discriminate Hin|]); exact Hin).
  destruct (startswith (str "FROM ubuntu") l) eqn:E; [|reflexivity].
  apply startswith_longer in E. change (length (str "FROM ubuntu")) with 11 in E.
  rewrite skipn_join_first by exact E.
  apply lazy_blank_none; [exact H| |intros _; reflexivity].
  intros Hin. apply Hn. eapply in_skipn. exact Hin.
Qed.

Lemma ubuntu_section_sub_keeps (ls : list text) :
  Forall (fun l => ~ In nl l /\ l <> []) ls ->
  forall l prev, ~ In nl l ->
    sub_from MS Copy.ubuntu_section Copy.comment_out 0 prev (join [nl] (l :: ls)) =
    join [nl] (l :: ls).
Proof.
  intros H. induction H as [|l2 ls [Hn2 Hne2] Hls IH].
  - cbn [join]. induction l as [|c l IHl]; intros prev Hn.
    + apply sub_from_end. apply (ubuntu_section_no_match [] [] prev); [constructor|exact Hn].
    + rewrite sub_from_miss
        by (apply (ubuntu_section_no_match [] (c :: l) prev); [constructor|exact Hn]).
      f_equal. apply IHl. intros Hin. apply Hn. now right.
  - induction l as [|c l IHl]; intros prev Hn.
    + change (join [nl] ([] :: l2 :: ls)) with (nl :: join [nl] (l2 :: ls)).
      rewrite sub_from_miss.
      * f_equal. now apply IH.
      * apply (ubuntu_section_no_match (l2 :: ls) [] prev); [|exact Hn].
        now constructor.
    + change (join [nl] ((c :: l) :: l2 :: ls)) with (c :: join [nl] (l :: l2 :: ls)).
      rewrite sub_from_miss.
      * f_equal. apply IHl. intros Hin. apply Hn. now right.
      * apply (ubuntu_section_no_match (l2 :: ls) (c :: l) prev); [|exact Hn].
        now constructor.
Qed.

Lemma uncomment_line_one_line (head l : text) : ~ In nl l -> ~ In nl (uncomment_line head l).
Proof.
  intros Hn. unfold uncomment_line.
  destruct (startswith (str "# " ++ head) l); [|exact Hn].
  intros Hin. apply Hn. eapply in_skipn. exact Hin.
Qed.

(** X12.  The pattern that comments the ubuntu section out ends at an
    empty line (or at the end of a text that ends in a newline).  On a
    template without an empty line and without a final newline it matches
    nothing: the first substitution of the [alpine] step returns the text as
    it is, the [FROM ubuntu] line stays active, and the whole step comes to
    uncommenting the two kinds of alpine lines, line by line, and replacing
    the [bash] command. *)
Theorem x12_copy_ubuntu_section_needs_an_empty_line (l : text) (ls : list text) :
  Forall (fun l => ~ In nl l /\ l <> []) (l :: ls) ->
  re_sub MS Copy.ubuntu_section Copy.comment_out (join [nl] (l :: ls)) = join [nl] (l :: ls) /\
  Copy.configure_base_os (join [nl] (l :: ls)) alpine =
  Some (str_replace cmd_bash cmd_ash
          (join [nl] (map (fun l => uncomment_line (str "RUN apk update")
                                      (uncomment_line (str "FROM alpine") l)) (l :: ls)))).
Proof.
  intros H. inversion H as [|? ? [Hn Hne] Hls]; subst.
  assert (E : re_sub MS Copy.ubuntu_section Copy.comment_out (join [nl] (l :: ls))
              = join [nl] (l :: ls)).
  { unfold re_sub. now apply ubuntu_section_sub_keeps. }
  split; [exact E|].
  assert (H1 : Forall (fun l => ~ In nl l) (l :: ls)).
  { eapply Forall_impl; [|exact H]. now intros x [Hx _]. }
  assert (Hh1 : ~ In nl (str "FROM alpine"))
    by (intros Hin; repeat (destruct Hin as [Hin|Hin]; [discriminate Hin|]); exact Hin).
  assert (Hh2 : ~ In nl (str "RUN apk update"))
    by (intros Hin; repeat (destruct Hin as [Hin|Hin]; [discriminate Hin|]); exact Hin).
  rewrite copy_alpine_steps, E. do 2 f_equal.
  rewrite alpine_from_commented, alpine_run_commented.
  rewrite (re_sub_commented_lines M) by (reflexivity || exact Hh1).
  rewrite split_on_join by exact H1.
  rewrite (re_sub_commented_lines MS) by (reflexivity || exact Hh2).
  cbn [map]. rewrite split_on_join.
  - cbn [map]. now rewrite map_map.
  - change (uncomment_line (str "FROM alpine") l :: map (uncomment_line (str "FROM alpine")) ls)
      with (map (uncomment_line (str "FROM alpine")) (l :: ls)).
    apply Forall_map. eapply Forall_impl; [|exact H1].
    intros x Hx. now apply uncomment_line_one_line.
Qed.

Lemma x12_copy_ubuntu_section_needs_an_empty_line_witness :
  Forall (fun l => ~ In nl l /\ l <> []) dense_template /\
  Copy.configure_base_os (join [nl] dense_template) alpine =
  Some (join [nl] [ str "FROM ubuntu:22.04"; str "RUN apt-get update";
                    str "FROM alpine:latest"; str "RUN apk update"; cmd_ash ]).
Proof.
  assert (H : Forall (fun l => ~ In nl l /\ l <> []) dense_template).
  { repeat constructor; try discriminate; apply one_line_spec; reflexivity. }
  split; [exact H|].
  destruct (x12_copy_ubuntu_section_needs_an_empty_line
              (str "FROM ubuntu:22.04")
              [ str "RUN apt-get update"; str "# FROM alpine:latest";
                str "# RUN apk update"; cmd_bash ] H) as [_ E].
  etransitivity; [exact E|]. vm_compute. reflexivity.
Defined.

(** ** The copy: what the rewrite of a version assignment cannot bring about *)

Lemma clash_app (a b t : text) : clash a b = true -> clash a (b ++ t) = true.
Proof.
  revert b. induction a as [|x a IH]; intros b H; [discriminate|].
  destruct b as [|y b]; [discriminate|].
  cbn [app clash] in H |- *. apply orb_prop in H as [H|H].
  - now rewrite H.
  - rewrite (IH b H). apply orb_true_r.
Qed.

Lemma never_runs_into_app (q r t : text) :
  never_runs_into q r = true -> never_runs_into q (r ++ t) = true.
Proof.
  unfold never_runs_into. rewrite !forallb_forall. intros H k Hk.
  apply clash_app. now apply H.
Qed.

Lemma from_eol_shape (s : text) : from_eol s = [] \/ exists t, from_eol s = nl :: t.
Proof.
  induction s as [|c s IH]; [now left|].
  cbn [from_eol]. destruct (Ascii.eqb c nl) eqn:E; [|exact IH].
  apply Ascii.eqb_eq in E. subst c. right. now exists s.
Qed.

Lemma startswith_before_eol (q a X : text) :
  ~ In nl q -> X = [] \/ (exists t, X = nl :: t) ->
  startswith q (a ++ X) = startswith q a.
Proof.
  intros Hq [->|[t ->]]; [now rewrite app_nil_r|now apply startswith_line].
Qed.

Section VersionBringsNone.

Variable key v q : text.
Variable repl : text -> text -> text.
Hypothesis repl_const : forall g0 g1, repl g0 g1 = arg_line key v.
Hypothesis q_one_line : ~ In nl q.
Hypothesis q_nonempty : q <> [].
Hypothesis q_not_in_key : never_starts_in q (arg_line key []) = true.
Hypothesis q_not_into_key : never_runs_into q (arg_line key []) = true.
Hypothesis q_not_in_value : occurs q v = false.

Let K : text := arg_line key [].
Let V (prev : option ascii) (s : text) : text :=
  sub_from no_flags (Copy.version_pattern key) repl 0 prev s.

Lemma version_keeps_eol (prev : option ascii) (s : text) :
  s = [] \/ (exists t, s = nl :: t) ->
  V prev s = [] \/ exists t, V prev s = nl :: t.
Proof.
  intros [->|[t ->]].
  - left. apply version_nil.
  - right. unfold V. rewrite version_miss by reflexivity. eauto.
Qed.

Lemma startswith_through_version :
  forall t u prev, u <> [] ->
    startswith q (u ++ V prev t) = true -> startswith q (u ++ t) = true.
Proof.
  induction t as [|c t IH]; intros u prev Hu H.
  - unfold V in H. now rewrite version_nil in H.
  - destruct (Nat.le_gt_cases (length q) (length u)) as [Hl|Hl].
    + rewrite startswith_within in H |- * by exact Hl. exact H.
    + destruct (startswith K (c :: t)) eqn:E.
      * unfold V in H. rewrite (version_hit key _ repl repl_const prev _ E) in H.
        rewrite never_runs_into_spec in H; [discriminate| |exact Hu|exact Hl].
        rewrite arg_line_app. now apply never_runs_into_app.
      * unfold V in H. rewrite (version_miss key repl prev c t E) in H.
        change (u ++ c :: ?x) with (u ++ [c] ++ x) in H |- *.
        rewrite app_assoc in H |- *. apply (IH (u ++ [c]) None); [|exact H].
        destruct u; discriminate.
Qed.

Lemma version_brings_none (s : text) :
  forall prev, occurs q s = false -> occurs q (V prev s) = false.
Proof.
  remember (length s) as n eqn:Hn. revert s Hn.
  induction n as [n IH] using lt_wf_ind. intros s Hn prev H.
  destruct s as [|c s].
  - unfold V. rewrite version_nil. exact H.
  - destruct (startswith K (c :: s)) eqn:E.
    + unfold V. rewrite (version_hit key _ repl repl_const prev _ E).
      fold K. fold (V None (from_eol (skipn (length K) (c :: s)))).
      set (rest := from_eol (skipn (length K) (c :: s))).
      assert (Hrest : occurs q (V None rest) = false).
      { apply (IH (length rest)); [|reflexivity|].
        - unfold rest. pose proof (from_eol_length (skipn (length K) (c :: s))) as Hf.
          rewrite length_skipn in Hf. subst n.
          assert (0 < length K) by (unfold K, arg_line; simpl; lia).
          change (length (c :: s)) with (S (length s)) in *. lia.
        - unfold rest. rewrite <- skipn_upto_eol. now do 2 apply occurs_skipn. }
      apply occurs_over; [|exact Hrest].
      intros k Hk. rewrite arg_line_app. fold K.
      destruct (Nat.lt_ge_cases k (length K)) as [Hlt|Hge].
      * rewrite skipn_app. replace (k - length K) with 0 by lia.
        cbn [skipn]. rewrite <- app_assoc.
        now apply never_starts_in_spec.
      * rewrite skipn_app, (skipn_all2 K) by exact Hge. cbn [app].
        rewrite startswith_before_eol;
          [|exact q_one_line|apply version_keeps_eol, from_eol_shape].
        apply occurs_head. now apply occurs_skipn.
    + unfold V. rewrite (version_miss key repl prev c s E). fold (V None s).
      cbn [occurs] in H |- *. apply orb_false_elim in H as [H1 H2].
      apply orb_false_intro.
      * destruct (startswith q (c :: V None s)) eqn:E'; [|reflexivity].
        pose proof (startswith_through_version s [c] None ltac:(discriminate) E') as E2.
        simpl app in E2. congruence.
      * apply (IH (length s)); [subst n; simpl; lia|reflexivity|exact H2].
Qed.

End VersionBringsNone.

(** ** The copy: what uncommenting cannot bring about *)

Lemma startswith_upto_eol (q s : text) :
  ~ In nl q -> startswith q s = startswith q (upto_eol s).
Proof.
  revert s. induction q as [|a q IH]; intros s Hq; [reflexivity|].
  destruct s as [|c s]; [reflexivity|].
  cbn [upto_eol]. destruct (Ascii.eqb c nl) eqn:E.
  - apply Ascii.eqb_eq in E. subst c. cbn [startswith].
    rewrite (not_nl_eqb a q Hq). reflexivity.
  - cbn [startswith]. rewrite IH; [reflexivity|].
    intros Hin. apply Hq. now right.
Qed.

Lemma uncommented_inside_upto_eol (head : text) (bol : bool) (s out : text) :
  uncommented head bol s out -> bol = false -> upto_eol out = upto_eol s.
Proof.
  intros H. induction H as [bol|bol c s out H IH|s out Hs H IH]; intros Hb.
  - reflexivity.
  - cbn [upto_eol]. destruct (Ascii.eqb c nl); [reflexivity|]. now rewrite IH.
  - discriminate.
Qed.

Lemma uncommented_brings_none (head q : text) :
  ~ In nl q -> q <> [] ->
  forall bol s out, uncommented head bol s out ->
    occurs q s = false -> occurs q out = false.
Proof.
  intros Hq Hne bol s out H.
  induction H as [bol|bol c s out H IH|s out Hs H IH]; intros Ho.
  - exact Ho.
  - cbn [occurs] in Ho |- *. apply orb_false_elim in Ho as [H1 H2].
    apply orb_false_intro; [|now apply IH].
    rewrite startswith_upto_eol in H1 |- * by exact Hq.
    cbn [upto_eol] in H1 |- *. destruct (Ascii.eqb c nl) eqn:E; [exact H1|].
    now rewrite (uncommented_inside_upto_eol head _ s out H eq_refl).
  - apply IH. now do 2 apply occurs_tail in Ho.
Qed.

(** ** The copy: a language that is not requested *)

Lemma install_flag_past_version_key (c c' : component) (b : Copy.args) (key : text) :
  fst (Copy.version_args b c') = Some key ->
  never_starts_in (install_flag (lang_name c) true) (arg_line key []) = true /\
  never_runs_into (install_flag (lang_name c) true) (arg_line key []) = true.
Proof.
  destruct c'; cbn [Copy.version_args fst]; intros E; inversion E; subst;
    destruct c; split; vm_compute; reflexivity.
Qed.

Lemma versions_free_of_spec (q : text) (b : Copy.args) (c : component) (v : text) :
  versions_free_of q b = true -> snd (Copy.version_args b c) = Some v ->
  occurs q v = false.
Proof.
  unfold versions_free_of. intros H.
  apply andb_prop in H as [H H3]. apply andb_prop in H as [H1 H2].
  apply negb_true_iff in H1, H2, H3.
  destruct c; cbn [Copy.version_args snd]; intros E; inversion E; subst; assumption.
Qed.

Lemma copy_configure_keeps_flag_absent (b : Copy.args) (c c' : component) (t : text) :
  Copy.plain_versions b = true ->
  versions_free_of (install_flag (lang_name c) true) b = true ->
  Copy.enabled b c = false ->
  occurs (install_flag (lang_name c) true) t = false ->
  occurs (install_flag (lang_name c) true)
         (Copy.block_step b c' (Copy.version_step b c' (Copy.flag_step b c' t))) = false.
Proof.
  intros Hp Hv Hc Ht.
  assert (Hq : ~ In nl (install_flag (lang_name c) true)) by apply install_flag_one_line.
  assert (F : occurs (install_flag (lang_name c) true) (Copy.flag_step b c' t) = false).
  { unfold Copy.flag_step.
    destruct (component_eqb c c') eqn:E.
    - apply component_eqb_eq in E. subst c'.
      rewrite str_replace_absent; [exact Ht|apply install_flag_nonempty|exact Ht].
    - assert (Hne : c <> c') by (intros ->; destruct c'; discriminate).
      pose proof (install_flag_independent c c' false (Copy.enabled b c') Hne) as I.
      unfold independent in I.
      apply andb_prop in I as [I Hr]. apply andb_prop in I as [_ Hs].
      apply str_replace_brings_none; try assumption. apply install_flag_nonempty. }
  assert (W : occurs (install_flag (lang_name c) true)
                     (Copy.version_step b c' (Copy.flag_step b c' t)) = false).
  { unfold Copy.version_step.
    destruct (Copy.version_args b c') as [[key|] [[|x v]|]] eqn:E; try exact F.
    destruct (install_flag_past_version_key c c' b key) as [Hs Hr];
      [now rewrite E|].
    unfold re_sub. apply (version_brings_none key (x :: v)); try assumption.
    - reflexivity.
    - apply (versions_free_of_spec _ b c'); [exact Hv|now rewrite E]. }
  pose proof (block_step_uncommented b c' (Copy.version_step b c' (Copy.flag_step b c' t))) as U.
  eapply uncommented_brings_none; [exact Hq|apply install_flag_nonempty|exact U|exact W].
Qed.

Lemma copy_flag_step_idempotent (b : Copy.args) (c : component) (t : text) :
  Copy.flag_step b c (Copy.flag_step b c t) = Copy.flag_step b c t.
Proof. unfold Copy.flag_step. apply flag_rewrite_idempotent. Qed.

Lemma copy_configure_in_order_flag_gone (b : Copy.args) (c : component) :
  Copy.plain_versions b = true ->
  versions_free_of (install_flag (lang_name c) true) b = true ->
  Copy.enabled b c = false ->
  forall order t,
    In c order \/ occurs (install_flag (lang_name c) true) t = false ->
    exists t', Copy.configure_in_order order b t = Some t' /\
               occurs (install_flag (lang_name c) true) t' = false.
Proof.
  intros Hp Hv Hc.
  induction order as [|c' order IH]; intros t Hin; cbn [Copy.configure_in_order].
  - destruct Hin as [[]|Ht]. now exists t.
  - rewrite copy_configure_steps by exact Hp. apply IH.
    destruct Hin as [[E|Hin]|Ht].
    + right. subst c'.
      assert (F : occurs (install_flag (lang_name c) true) (Copy.flag_step b c t) = false).
      { unfold Copy.flag_step. rewrite Hc.
        apply str_replace_leaves_none;
          [apply install_flag_nonempty|apply install_flag_apart]. }
      pose proof (copy_configure_keeps_flag_absent b c c (Copy.flag_step b c t)
                    Hp Hv Hc F) as G.
      rewrite copy_flag_step_idempotent in G. exact G.
    + now left.
    + right. now apply copy_configure_keeps_flag_absent.
Qed.

(** X13.  In the Dockerfile the copy writes, the flag of a language that was
    not requested is nowhere left at [true] either: when no version value
    holds a backslash or the text [ARG INSTALL_<LANG>=true] itself, the run
    does not fail and its output holds no [ARG INSTALL_<LANG>=true] for a
    language that is not requested - whatever the base OS, the other
    languages and the template. *)
Theorem x13_copy_flag_of_unrequested_language_gone (b : Copy.args) (c : component)
  (content : text) :
  Copy.plain_versions b = true ->
  versions_free_of (install_flag (lang_name c) true) b = true ->
  Copy.enabled b c = false ->
  exists t, Copy.transform b content = Some t /\
            occurs (install_flag (lang_name c) true) t = false.
Proof.
  intros Hp Hv Hc. unfold Copy.transform.
  assert (B : exists t0, Copy.configure_base_os content (Copy.os b) = Some t0).
  { destruct (Copy.os b); [now eexists|]. rewrite copy_alpine_steps. now eexists. }
  destruct B as [t0 ->].
  apply copy_configure_in_order_flag_gone; try assumption.
  left. apply all_components.
Qed.

Lemma x13_copy_flag_of_unrequested_language_gone_witness :
  Copy.plain_versions Copy.defaults = true /\
  versions_free_of (install_flag (lang_name RUST) true) Copy.defaults = true /\
  Copy.enabled Copy.defaults RUST = false /\
  occurs (install_flag (lang_name RUST) true) two_profiles = true /\
  exists t, Copy.transform Copy.defaults two_profiles = Some t /\
            occurs (install_flag (lang_name RUST) true) t = false.
Proof.
  split; [reflexivity|]. split; [reflexivity|]. split; [reflexivity|].
  split; [vm_compute; reflexivity|].
  exact (x13_copy_flag_of_unrequested_language_gone Copy.defaults RUST two_profiles
           eq_refl eq_refl eq_refl).
Defined.

(** ** create-dockerfile.py: as many lines as the template *)

Lemma script_select_base_one_line (p : profile) (l : text) :
  ~ In nl l -> ~ In nl (Script.select_base p l).
Proof.
  intros Hl. rewrite script_select_base_chain.
  assert (H : Forall (fun m => fst m <> [] /\ ~ In nl (snd m)) (base_markers p)).
  { destruct p; repeat constructor; try nonempty_text;
      apply one_line_spec; reflexivity. }
  revert l Hl. induction H as [|m ms [Hp Hr] _ IH]; intros l Hl; [exact Hl|].
  cbn [fold_left]. apply IH. now apply str_replace_one_line.
Qed.

Lemma script_versions_one_line_effective (a : Script.args) :
  script_versions_one_line (Script.effective a) = script_versions_one_line a.
Proof. unfold Script.effective. now destruct (Script.all a). Qed.

Lemma script_configure_one_line (a : Script.args) (c : component) (l : text) :
  script_versions_one_line a = true -> ~ In nl l -> ~ In nl (Script.configure a c l).
Proof.
  intros Hv Hl. rewrite script_configure_rewrite.
  destruct (Script.rewrite_of a c) as [[p r]|] eqn:E; [|exact Hl].
  apply str_replace_one_line; [eapply script_rewrite_nonempty; eassumption| |exact Hl].
  unfold script_versions_one_line in Hv.
  apply andb_prop in Hv as [Hv H3]. apply andb_prop in Hv as [H1 H2].
  apply one_line_spec in H1, H2, H3.
  unfold Script.rewrite_of in E. destruct (Script.enabled a c).
  - destruct c; cbn [Script.version_rewrite] in E; inversion E; subst;
      unfold arg_line; intros Hin;
      repeat (apply in_app_or in Hin as [Hin|Hin];
              [simpl in Hin; repeat (destruct Hin as [Hin|Hin]; [discriminate Hin|]);
               exact Hin|]);
      auto.
  - inversion E; subst. apply install_flag_one_line.
Qed.

Lemma script_transform_one_line (a : Script.args) (l : text) :
  script_versions_one_line a = true -> ~ In nl l -> ~ In nl (Script.transform a l).
Proof.
  intros Hv Hl. unfold Script.transform, Script.configure_in_order.
  rewrite <- script_versions_one_line_effective in Hv.
  pose proof (script_select_base_one_line (Script.base a) l Hl) as H.
  revert H. generalize (Script.select_base (Script.base a) l) as t.
  generalize components as order.
  induction order as [|c order IH]; intros t Ht; [exact Ht|].
  cbn [fold_left]. apply IH. now apply script_configure_one_line.
Qed.

(** X14.  When no version value holds a newline, the Dockerfile
    [create-dockerfile.py] writes has the lines of the template, each
    rewritten on its own: splitting the output at the newlines gives the
    rewritten lines of the template, one for one, so no line is added,
    dropped, split or joined. *)
Theorem x14_script_keeps_the_lines_apart (a : Script.args) (t : text) :
  script_versions_one_line a = true ->
  split_on nl (Script.transform a t) = map (Script.transform a) (split_on nl t) /\
  length (split_on nl (Script.transform a t)) = length (split_on nl t).
Proof.
  intros Hv.
  assert (E : split_on nl (Script.transform a t) = map (Script.transform a) (split_on nl t)).
  { rewrite <- (join_split_on t) at 1.
    pose proof (split_on_one_line t) as H.
    destruct (split_on_cons t) as (l & ls & El). rewrite El in H |- *. clear El t.
    revert l H. induction ls as [|l' ls IH]; intros l H;
      inversion H as [|? ? Hl Hls]; subst.
    - cbn [join map]. apply (split_on_join _ []). constructor; [|constructor].
      now apply script_transform_one_line.
    - change (join [nl] (l :: l' :: ls)) with (l ++ nl :: join [nl] (l' :: ls)).
      rewrite script_transform_lines.
      rewrite split_on_line by now apply script_transform_one_line.
      rewrite (IH l' Hls). reflexivity. }
  split; [exact E|]. rewrite E. apply length_map.
Qed.

Lemma x14_script_keeps_the_lines_apart_witness :
  script_versions_one_line script_node18 = true /\
  split_on nl (Script.transform script_node18 two_profiles) =
    map (Script.transform script_node18) (split_on nl two_profiles) /\
  length (split_on nl (Script.transform script_node18 two_profiles)) =
    length (split_on nl two_profiles).
Proof.
  split; [reflexivity|].
  exact (x14_script_keeps_the_lines_apart script_node18 two_profiles eq_refl).
Defined.

(** ** The copy without a language: one line at a time *)

Lemma copy_no_language_spec (b : Copy.args) (c : component) :
  copy_no_language b = true -> Copy.enabled b c = false.
Proof.
  unfold copy_no_language. intros H. apply negb_true_iff in H.
  repeat (apply orb_false_elim in H as [H ?]). destruct c; assumption.
Qed.

Lemma copy_configure_in_order_lines (b : Copy.args) (order : list component) :
  Copy.plain_versions b = true -> copy_no_language b = true ->
  forall x y tx ty,
    Copy.configure_in_order order b x = Some tx ->
    Copy.configure_in_order order b y = Some ty ->
    Copy.configure_in_order order b (x ++ nl :: y) = Some (tx ++ nl :: ty).
Proof.
  intros Hp Hn. induction order as [|c order IH]; intros x y tx ty Hx Hy;
    cbn [Copy.configure_in_order] in *.
  - inversion Hx; inversion Hy; subst. reflexivity.
  - pose proof (copy_no_language_spec b c Hn) as Hc.
    rewrite copy_configure_disabled in Hx, Hy |- * by assumption.
    rewrite copy_flag_step_lines, copy_version_step_lines.
    now apply IH.
Qed.

(** X15.  When no language is requested and the base OS is [ubuntu], the
    copy too rewrites a template one line at a time (for version values
    without a backslash): the output for two texts with a newline between
    them is the two outputs with a newline between them.  The rewrites that
    reach over several lines - the ubuntu section and the commented blocks -
    belong to [alpine] and to the requested languages. *)
Theorem x15_copy_without_language_rewrites_line_by_line (b : Copy.args)
  (x y tx ty : text) :
  Copy.plain_versions b = true -> copy_no_language b = true -> Copy.os b = ubuntu ->
  Copy.transform b x = Some tx -> Copy.transform b y = Some ty ->
  Copy.transform b (x ++ nl :: y) = Some (tx ++ nl :: ty).
Proof.
  intros Hp Hn Ho. unfold Copy.transform. rewrite Ho. cbn [Copy.configure_base_os].
  now apply copy_configure_in_order_lines.
Qed.

Lemma x15_copy_without_language_rewrites_line_by_line_witness :
  Copy.plain_versions Copy.defaults = true /\ copy_no_language Copy.defaults = true /\
  Copy.os Copy.defaults = ubuntu /\
  Copy.transform Copy.defaults (str "ARG INSTALL_RUST=true")
    = Some (str "ARG INSTALL_RUST=false") /\
  Copy.transform Copy.defaults (str "ARG NODE_MAJOR=18") = Some (str "ARG NODE_MAJOR=20") /\
  Copy.transform Copy.defaults (str "ARG INSTALL_RUST=true" ++ nl :: str "ARG NODE_MAJOR=18")
    = Some (str "ARG INSTALL_RUST=false" ++ nl :: str "ARG NODE_MAJOR=20").
Proof.
  split; [reflexivity|]. split; [reflexivity|]. split; [reflexivity|].
  split; [reflexivity|]. split; [reflexivity|].
  exact (x15_copy_without_language_rewrites_line_by_line Copy.defaults
           (str "ARG INSTALL_RUST=true") (str "ARG NODE_MAJOR=18")
           (str "ARG INSTALL_RUST=false") (str "ARG NODE_MAJOR=20")
           eq_refl eq_refl eq_refl eq_refl eq_refl).
Defined.

(** ** Both scripts: one call on a text without version line and block *)

Lemma occurs_longer (p x s : text) : occurs p s = false -> occurs (p ++ x) s = false.
Proof.
  induction s as [|c s IH]; intros H.
  - cbn [occurs] in H |- *. apply orb_false_elim in H as [H _].
    rewrite orb_false_r. destruct (startswith (p ++ x) []) eqn:E; [|reflexivity].
    apply startswith_app_l in E. congruence.
  - cbn [occurs] in H |- *. apply orb_false_elim in H as [H1 H2].
    apply orb_false_intro; [|now apply IH].
    destruct (startswith (p ++ x) (c :: s)) eqn:E; [|reflexivity].
    apply startswith_app_l in E. congruence.
Qed.

Lemma version_key_past_flag (c : component) (b : Copy.args) (key : text) :
  fst (Copy.version_args b c) = Some key ->
  never_starts_in (arg_line key []) (install_flag (lang_name c) false) = true /\
  never_runs_into (arg_line key []) (install_flag (lang_name c) false) = true.
Proof.
  destruct c; cbn [Copy.version_args fst]; intros E; inversion E; subst;
    split; vm_compute; reflexivity.
Qed.

Lemma script_copy_same_key (a : Script.args) (b : Copy.args) (c : component)
  (key default value : text) :
  Script.version_rewrite a c = Some (key, default, value) ->
  fst (Copy.version_args b c) = Some key.
Proof. destruct c; cbn; intros E; inversion E; reflexivity. Qed.

(** X16.  On a text that holds no version assignment of the language and
    no commented block of it, one call of the copy's [configure_language],
    as [main] makes it, and the language's block of [create-dockerfile.py]
    give the same text when both are asked the same: the flag at [true] is
    set to [false] for a language that is not requested, and nothing is
    changed for one that is. *)
Theorem x16_scripts_agree_without_version_line_and_block (a : Script.args) (b : Copy.args)
  (c : component) (t : text) :
  Copy.plain_versions b = true ->
  Script.enabled a c = Copy.enabled b c ->
  (forall key, fst (Copy.version_args b c) = Some key ->
               occurs (arg_line key []) t = false) ->
  occurs (str "# " ++ Copy.block_head (lang_name c)) t = false ->
  Copy.configure b c t = Some (Script.configure a c t) /\
  Script.configure a c t =
    if Script.enabled a c then t
    else str_replace (install_flag (lang_name c) true) (install_flag (lang_name c) false) t.
Proof.
  intros Hp He Hk Hb.
  assert (S : Script.configure a c t =
              if Script.enabled a c then t
              else str_replace (install_flag (lang_name c) true)
                               (install_flag (lang_name c) false) t).
  { rewrite script_configure_rewrite. unfold Script.rewrite_of.
    destruct (Script.enabled a c); [|reflexivity].
    destruct (Script.version_rewrite a c) as [[[key default] value]|] eqn:E; [|reflexivity].
    apply str_replace_absent.
    - now destruct (script_version_one_line a c key default value E) as (_ & Hne & _).
    - rewrite arg_line_app. apply occurs_longer. apply Hk.
      eapply script_copy_same_key; eassumption. }
  split; [|exact S].
  rewrite S, He, copy_configure_steps by exact Hp.
  f_equal. unfold Copy.block_step, Copy.flag_step.
  destruct (Copy.enabled b c) eqn:Ec.
  - rewrite str_replace_same by apply install_flag_nonempty.
    rewrite copy_version_step_absent.
    + eapply uncommented_absent; [exact Hb|apply block_sub_uncommented].
    + intros key v E. apply Hk. now rewrite E.
  - apply copy_version_step_absent. intros key v E.
    destruct (version_key_past_flag c b key) as [Hs Hr]; [now rewrite E|].
    apply str_replace_brings_none; try assumption.
    + apply install_flag_nonempty.
    + apply Hk. now rewrite E.
Qed.

Lemma x16_scripts_agree_without_version_line_and_block_witness :
  Copy.plain_versions Copy.defaults = true /\
  Script.enabled Script.defaults GOLANG = Copy.enabled Copy.defaults GOLANG /\
  occurs (arg_line (str "GO_VERSION") []) two_profiles = false /\
  occurs (str "# " ++ Copy.block_head (lang_name GOLANG)) two_profiles = false /\
  Copy.configure Copy.defaults GOLANG two_profiles
    = Some (Script.configure Script.defaults GOLANG two_profiles).
Proof.
  split; [reflexivity|]. split; [reflexivity|].
  split; [vm_compute; reflexivity|]. split; [vm_compute; reflexivity|].
  apply (x16_scripts_agree_without_version_line_and_block Script.defaults Copy.defaults
           GOLANG two_profiles).
  - reflexivity.
  - reflexivity.
  - intros key E. inversion E; subst. vm_compute. reflexivity.
  - vm_compute. reflexivity.
Defined.

(** ** create-dockerfile.py: [--all] *)

(** X17.  With [--all], [create-dockerfile.py] touches no flag at all: what
    it writes is the base OS selection followed by the three version
    replacements, whatever the five language options are, so a flag the
    template has at [false] stays at [false]; and the report lists the
    five languages with the requested versions. *)
Theorem x17_script_all_writes_the_versions_only (a : Script.args) (content : text) :
  Script.all a = true ->
  Script.transform a content =
    str_replace (arg_line (str "JAVA_VERSION") (str "17"))
                (arg_line (str "JAVA_VERSION") (Script.java_version a))
      (str_replace (arg_line (str "NODE_MAJOR") (str "20"))
                   (arg_line (str "NODE_MAJOR") (Script.node_version a))
         (str_replace (arg_line (str "GO_VERSION") (str "1.22.2"))
                      (arg_line (str "GO_VERSION") (Script.go_version a))
            (Script.select_base (Script.base a) content))) /\
  Script.languages (Script.effective a) =
    [ str "Go " ++ Script.go_version a; str "Rust"; str "Python";
      str "Node.js " ++ Script.node_version a; str "Java " ++ Script.java_version a ].
Proof.
  intros H. unfold Script.transform, Script.effective. rewrite H.
  split; [|reflexivity].
  unfold Script.configure_in_order, components. cbn [fold_left].
  rewrite !script_configure_rewrite. reflexivity.
Qed.

Lemma x17_script_all_writes_the_versions_only_witness :
  Script.all script_all = true /\
  Script.transform script_all
    (str "ARG INSTALL_RUST=false" ++ nl :: str "ARG GO_VERSION=1.22.2") =
    str "ARG INSTALL_RUST=false" ++ nl :: str "ARG GO_VERSION=1.21.0" /\
  Script.languages (Script.effective script_all) =
    [ str "Go 1.21.0"; str "Rust"; str "Python"; str "Node.js 20"; str "Java 17" ].
Proof.
  split; [reflexivity|].
  destruct (x17_script_all_writes_the_versions_only script_all
              (str "ARG INSTALL_RUST=false" ++ nl :: str "ARG GO_VERSION=1.22.2") eq_refl)
    as [E1 E2].
  split; [etransitivity; [exact E1|vm_compute; reflexivity]|].
  etransitivity; [exact E2|reflexivity].
Defined.

(** ** The copy: an ubuntu section that runs to the end of the text *)

Lemma stays_commented_spec (l : text) :
  stays_commented l = true ->
  ~ In nl l /\ l <> [] /\
  startswith (str "FROM alpine") l = false /\
  startswith (str "RUN apk update") l = false /\
  occurs cmd_bash (Copy.comment_line l) = false.
Proof.
  unfold stays_commented. intros H.
  apply andb_prop in H as [H H5]. apply andb_prop in H as [H H4].
  apply andb_prop in H as [H H3]. apply andb_prop in H as [H1 H2].
  apply negb_true_iff in H2, H3, H4, H5. apply one_line_spec in H1.
  repeat split; try assumption. now apply text_eqb_neq.
Qed.

Lemma map_uncomment_line_keeps (head : text) (ls : list text) :
  Forall (fun l => startswith (str "# " ++ head) l = false) ls ->
  map (uncomment_line head) ls = ls.
Proof.
  intros H. induction H as [|l ls Hl _ IH]; [reflexivity|].
  cbn [map]. unfold uncomment_line at 1. now rewrite Hl, IH.
Qed.

Lemma re_sub_commented_keeps (fl : flags) (head s : text) :
  multiline fl = true -> ~ In nl head ->
  Forall (fun l => startswith (str "# " ++ head) l = false) (split_on nl s) ->
  re_sub fl (commented head [AnyStar true]) Copy.first_group s = s.
Proof.
  intros Hm Hh H. rewrite re_sub_commented_lines by assumption.
  rewrite map_uncomment_line_keeps by exact H. apply join_split_on.
Qed.

(** X18.  The pattern that comments the ubuntu section out also ends at the
    end of a text that ends in a newline.  On a template that begins with
    the [FROM ubuntu] line, ends in a newline and has no empty line, the
    [alpine] step therefore comments every line down to the end - commented
    alpine lines included, which get a second prefix and stay commented -
    and appends a last line [# ]: the output has no active [FROM] line. *)
Theorem x18_copy_alpine_comments_to_the_end (u : text) (body : list text) :
  forallb stays_commented ((str "FROM ubuntu" ++ u) :: body) = true ->
  Copy.configure_base_os (unlines ((str "FROM ubuntu" ++ u) :: body)) alpine =
  Some (unlines (map Copy.comment_line ((str "FROM ubuntu" ++ u) :: body)) ++ str "# ").
Proof.
  intros H. rewrite forallb_forall in H.
  set (ls := (str "FROM ubuntu" ++ u) :: body) in *.
  assert (Hall : Forall (fun l => ~ In nl l /\ l <> [] /\
                           startswith (str "FROM alpine") l = false /\
                           startswith (str "RUN apk update") l = false /\
                           occurs cmd_bash (Copy.comment_line l) = false) ls).
  { apply Forall_forall. intros l Hl. apply stays_commented_spec. now apply H. }
  assert (Hone : Forall (fun l => ~ In nl l) ls).
  { eapply Forall_impl; [|exact Hall]. now intros l (Hl & _). }
  assert (Hu : ~ In nl u).
  { inversion Hone as [|? ? Hl _]; subst. intros Hin. apply Hl.
    change (In nl (str "FROM ubuntu" ++ u)). apply in_or_app. now right. }
  assert (Hbody : Forall (fun l => ~ In nl l /\ l <> []) body).
  { inversion Hall as [|? ? _ Hb]; subst.
    eapply Forall_impl; [|exact Hb]. now intros l (Hl & Hne & _). }
  (* the ubuntu section: the whole text *)
  assert (E1 : re_sub MS Copy.ubuntu_section Copy.comment_out (unlines ls) =
               unlines (map Copy.comment_line ls) ++ str "# ").
  { unfold re_sub.
    pose proof (match_ubuntu_block None u body [] eq_refl Hu Hbody eq_refl) as E.
    rewrite app_nil_r in E. fold ls in E.
    rewrite (sub_from_hit MS _ _ None _ _ E).
    - cbn [m_end]. unfold group0. cbn [m_end].
      rewrite firstn_all, skipn_all.
      rewrite comment_out_unlines by exact Hone.
      rewrite sub_from_end; [apply app_nil_r|].
      rewrite match_ubuntu_section.
      change (startswith (str "FROM ubuntu") []) with false.
      now rewrite andb_false_r.
    - cbn [m_end]. unfold ls. cbn [unlines]. rewrite !length_app. simpl. lia.
    - cbn [m_end]. lia. }
  set (T := unlines (map Copy.comment_line ls) ++ str "# ") in *.
  assert (ET : split_on nl T = map Copy.comment_line ls ++ [str "# "]).
  { unfold T. rewrite <- join_unlines. unfold ls. cbn [map app].
    apply split_on_join.
    change (Copy.comment_line (str "FROM ubuntu" ++ u) ::
            map Copy.comment_line body ++ [str "# "])
      with (map Copy.comment_line ls ++ [str "# "]).
    apply Forall_app. split.
    - apply Forall_map. eapply Forall_impl; [|exact Hone].
      intros l Hl. now apply in_comment_line.
    - repeat constructor. apply one_line_spec. reflexivity. }
  rewrite copy_alpine_steps, E1.
  rewrite alpine_from_commented, alpine_run_commented.
  rewrite (re_sub_commented_keeps M).
  2: reflexivity.
  2: apply one_line_spec; reflexivity.
  2: { rewrite ET. apply Forall_app. split; [|repeat constructor].
       apply Forall_map. eapply Forall_impl; [|exact Hall].
       intros l (_ & _ & Hf & _). now rewrite startswith_comment_line. }
  rewrite (re_sub_commented_keeps MS).
  2: reflexivity.
  2: apply one_line_spec; reflexivity.
  2: { rewrite ET. apply Forall_app. split; [|repeat constructor].
       apply Forall_map. eapply Forall_impl; [|exact Hall].
       intros l (_ & _ & _ & Hr & _). now rewrite startswith_comment_line. }
  f_equal. unfold T. rewrite str_replace_keep_lines.
  - reflexivity.
  - nonempty_text.
  - apply one_line_spec. reflexivity.
  - apply Forall_map. eapply Forall_impl; [|exact Hall].
    now intros l (_ & _ & _ & _ & Hc).
Qed.

Lemma x18_copy_alpine_comments_to_the_end_witness :
  forallb stays_commented ((str "FROM ubuntu" ++ str ":22.04") :: no_empty_line_body) = true /\
  Copy.configure_base_os
    (unlines ((str "FROM ubuntu" ++ str ":22.04") :: no_empty_line_body)) alpine =
  Some (unlines [ str "# FROM ubuntu:22.04"; str "# RUN apt-get update";
                  str "# # FROM alpine:latest"; str "# # RUN apk update" ] ++ str "# ").
Proof.
  split; [reflexivity|].
  exact (x18_copy_alpine_comments_to_the_end (str ":22.04") no_empty_line_body eq_refl).
Defined.

(** ** The copy: a version assignment inside a line *)

Lemma version_key_apart_from_itself (b : Copy.args) (c : component) (key : text)
  (v : option text) :
  Copy.version_args b c = (Some key, v) ->
  never_runs_into (arg_line key []) (arg_line key []) = true.
Proof.
  destruct c; cbn [Copy.version_args]; intros E; inversion E; subst;
    vm_compute; reflexivity.
Qed.

Lemma version_skips_prefix (key : text) (repl : text -> text -> text) (x s : text) :
  never_runs_into (arg_line key []) (arg_line key []) = true ->
  occurs (arg_line key []) x = false ->
  forall prev,
    sub_from no_flags (Copy.version_pattern key) repl 0 prev (x ++ arg_line key [] ++ s) =
    x ++ sub_from no_flags (Copy.version_pattern key) repl 0 None (arg_line key [] ++ s).
Proof.
  intros Hr. induction x as [|c x IH]; intros Hx prev.
  - cbn [app]. apply version_prev.
  - change ((c :: x) ++ arg_line key [] ++ s) with (c :: (x ++ arg_line key [] ++ s)).
    rewrite version_miss.
    + cbn [app]. f_equal. apply IH. now apply occurs_tail in Hx.
    + change (c :: x ++ arg_line key [] ++ s) with ((c :: x) ++ arg_line key [] ++ s).
      destruct (Nat.le_gt_cases (length (arg_line key [])) (length (c :: x))) as [Hl|Hl].
      * rewrite startswith_within by exact Hl. now apply occurs_head.
      * apply never_runs_into_spec; [exact Hr|discriminate|exact Hl].
Qed.

(** X19.  The copy finds a version assignment anywhere in a line and
    replaces it up to the end of the line: of a line [<x>ARG <KEY>=<y>] -
    a commented or indented assignment, say, with a remark behind the value
    - what stands before the assignment is kept and everything behind the
    [=] is replaced by the requested value.  (Stated for a language that is
    not requested, on a text without its flag, so that the call rewrites
    nothing else.) *)
Theorem x19_copy_version_replaced_to_the_end_of_line (b : Copy.args) (c : component)
  (key v x y : text) :
  Copy.version_args b c = (Some key, Some v) ->
  Copy.plain_versions b = true -> v <> [] -> Copy.enabled b c = false ->
  occurs (install_flag (lang_name c) true) (x ++ arg_line key [] ++ y) = false ->
  occurs (arg_line key []) x = false -> ~ In nl y ->
  Copy.configure b c (x ++ arg_line key [] ++ y) = Some (x ++ arg_line key v).
Proof.
  intros Hv Hp Hne Hc Hf Hx Hy.
  rewrite copy_configure_disabled by assumption. f_equal.
  unfold Copy.flag_step.
  rewrite str_replace_absent by (apply install_flag_nonempty || exact Hf).
  unfold Copy.version_step. rewrite Hv.
  destruct v as [|a v]; [congruence|].
  unfold re_sub.
  rewrite version_skips_prefix;
    [|eapply version_key_apart_from_itself; exact Hv|exact Hx].
  f_equal. apply version_line; [reflexivity|exact Hy].
Qed.

Lemma x19_copy_version_replaced_to_the_end_of_line_witness :
  Copy.version_args Copy.defaults GOLANG = (Some (str "GO_VERSION"), Some (str "1.22.2")) /\
  Copy.plain_versions Copy.defaults = true /\ str "1.22.2" <> [] /\
  Copy.enabled Copy.defaults GOLANG = false /\
  occurs (install_flag (lang_name GOLANG) true)
         (str "# " ++ arg_line (str "GO_VERSION") [] ++ str "1.19  # pinned") = false /\
  occurs (arg_line (str "GO_VERSION") []) (str "# ") = false /\
  ~ In nl (str "1.19  # pinned") /\
  Copy.configure Copy.defaults GOLANG
    (str "# " ++ arg_line (str "GO_VERSION") [] ++ str "1.19  # pinned")
  = Some (str "# " ++ arg_line (str "GO_VERSION") (str "1.22.2")).
Proof.
  assert (Hn : ~ In nl (str "1.19  # pinned")) by (apply one_line_spec; reflexivity).
  split; [reflexivity|]. split; [reflexivity|]. split; [discriminate|].
  split; [reflexivity|]. split; [vm_compute; reflexivity|].
  split; [reflexivity|]. split; [exact Hn|].
  apply (x19_copy_version_replaced_to_the_end_of_line Copy.defaults GOLANG
           (str "GO_VERSION") (str "1.22.2") (str "# ") (str "1.19  # pinned"));
    try reflexivity; try discriminate; try exact Hn.
Defined.

(** ** The copy: as many lines as the template *)

Lemma newlines_app (a b : text) : newlines (a ++ b) = newlines a + newlines b.
Proof. unfold newlines. now rewrite filter_app, length_app. Qed.

Lemma newlines_cons (c : ascii) (s : text) :
  newlines (c :: s) = (if Ascii.eqb c nl then 1 else 0) + newlines s.
Proof. unfold newlines. cbn [filter]. now destruct (Ascii.eqb c nl). Qed.

Lemma newlines_one_line (l : text) : ~ In nl l -> newlines l = 0.
Proof.
  induction l as [|c l IH]; intros H; [reflexivity|].
  rewrite newlines_cons, (not_nl_eqb c l H), IH; [reflexivity|].
  intros Hin. apply H. now right.
Qed.

Lemma newlines_firstn_skipn (k : nat) (s : text) :
  newlines (firstn k s) + newlines (skipn k s) = newlines s.
Proof. now rewrite <- newlines_app, firstn_skipn. Qed.

(** A substitution that puts as many newlines back as each match holds
    keeps the number of newlines of the text. *)
Lemma sub_from_newlines (fl : flags) (re : regex) (repl : text -> text -> text) :
  (forall prev s m, match_here fl re 0 prev s = Some m ->
                    newlines (repl (group0 m s) (group1 m s)) = newlines (group0 m s)) ->
  forall s prev, newlines (sub_from fl re repl 0 prev s) = newlines s.
Proof.
  intros H s. remember (length s) as n eqn:Hn. revert s Hn.
  induction n as [n IH] using lt_wf_ind. intros s Hn prev.
  destruct s as [|c s].
  - cbn [sub_from]. destruct (match_here fl re 0 prev []) as [m|] eqn:E; [|reflexivity].
    rewrite (H _ _ _ E). unfold group0. now rewrite firstn_nil.
  - destruct (match_here fl re 0 prev (c :: s)) as [m|] eqn:E.
    + pose proof (match_end_bounds fl re 0 prev (c :: s) m E) as [_ Hhi].
      destruct (m_end m) as [|k] eqn:Ek.
      * cbn [sub_from]. rewrite E, Ek, newlines_app, (H _ _ _ E).
        unfold group0. rewrite Ek. cbn [firstn]. rewrite !newlines_cons.
        rewrite (IH (length s)); [reflexivity|subst n; simpl; lia|reflexivity].
      * rewrite (sub_from_hit fl re repl prev (c :: s) m E) by lia.
        rewrite newlines_app, (H _ _ _ E). unfold group0.
        rewrite (IH (length (skipn (m_end m) (c :: s)))); [| |reflexivity].
        -- apply newlines_firstn_skipn.
        -- subst n. rewrite length_skipn. simpl length in *. lia.
    + rewrite (sub_from_miss fl re repl prev c s E). rewrite !newlines_cons.
      rewrite (IH (length s)); [reflexivity|subst n; simpl; lia|reflexivity].
Qed.

Lemma str_replace_newlines (p r : text) :
  p <> [] -> ~ In nl p -> ~ In nl r ->
  forall s, newlines (str_replace p r s) = newlines s.
Proof.
  intros Hp Hnp Hnr s. pattern s. apply (scan_ind p Hp); clear s.
  - now rewrite (str_replace_nil p r Hp).
  - intros s IH. rewrite (str_replace_hit p r Hp), !newlines_app, IH.
    now rewrite (newlines_one_line p Hnp), (newlines_one_line r Hnr).
  - intros c s Hm IH. rewrite (str_replace_miss p r c s Hm), !newlines_cons.
    now rewrite IH.
Qed.

Lemma newlines_comment_line (l : text) : newlines (Copy.comment_line l) = newlines l.
Proof. unfold Copy.comment_line. now rewrite newlines_app. Qed.

Lemma newlines_join_comment_lines (ls : list text) :
  newlines (join [nl] (map Copy.comment_line ls)) = newlines (join [nl] ls).
Proof.
  induction ls as [|l ls IH]; [reflexivity|].
  destruct ls as [|l' ls].
  - cbn [map join]. apply newlines_comment_line.
  - change (join [nl] (map Copy.comment_line (l :: l' :: ls)))
      with (Copy.comment_line l ++ nl :: join [nl] (map Copy.comment_line (l' :: ls))).
    change (join [nl] (l :: l' :: ls)) with (l ++ nl :: join [nl] (l' :: ls)).
    rewrite !newlines_app, !newlines_cons, newlines_comment_line, IH. reflexivity.
Qed.

Lemma comment_out_newlines (g0 g1 : text) : newlines (Copy.comment_out g0 g1) = newlines g0.
Proof.
  unfold Copy.comment_out. change (fun line => str "# " ++ line) with Copy.comment_line.
  now rewrite newlines_join_comment_lines, join_split_on.
Qed.

(** The group of an uncommenting pattern is the match without its first two
    characters. *)
Lemma commented_group_newlines (fl : flags) (head : text) (tail : regex)
  (prev : option ascii) (s : text) (m : found) :
  groupless tail = true ->
  match_here fl (commented head tail) 0 prev s = Some m ->
  newlines (Copy.first_group (group0 m s) (group1 m s)) = newlines (group0 m s).
Proof.
  intros Hg E.
  apply match_commented in E as (_ & s2 & -> & _ & Hgs & Hge & Hlo & Hhi); [|exact Hg].
  unfold Copy.first_group, group0, group1. rewrite Hgs, Hge.
  destruct (m_end m) as [|[|k]]; try lia.
  cbn [skipn firstn Nat.sub]. rewrite Nat.sub_0_r.
  now rewrite !newlines_cons.
Qed.

Lemma firstn_upto_eol (s : text) : firstn (length (upto_eol s)) s = upto_eol s.
Proof.
  induction s as [|c s IH]; [reflexivity|].
  cbn [upto_eol]. destruct (Ascii.eqb c nl); [reflexivity|].
  cbn [length firstn]. now rewrite IH.
Qed.

Lemma upto_eol_one_line (s : text) : ~ In nl (upto_eol s).
Proof.
  induction s as [|c s IH]; [intros []|].
  cbn [upto_eol]. destruct (Ascii.eqb c nl) eqn:E; [intros []|].
  intros [H|H]; [|now apply IH]. subst c. now rewrite Ascii.eqb_refl in E.
Qed.

Lemma version_group_newlines (key r : text) (prev : option ascii) (s : text) (m : found) :
  ~ In nl (arg_line key []) -> ~ In nl r ->
  match_here no_flags (Copy.version_pattern key) 0 prev s = Some m ->
  newlines r = newlines (group0 m s).
Proof.
  intros Hk Hr E. rewrite match_version in E.
  destruct (startswith (arg_line key []) s) eqn:Es; [|discriminate].
  assert (Hend : m_end m = length (arg_line key []) +
                           length (upto_eol (skipn (length (arg_line key [])) s))).
  { injection E as <-. reflexivity. }
  unfold group0. rewrite Hend. clear E Hend.
  apply startswith_split in Es.
  set (K := arg_line key []) in *. set (rest := skipn (length K) s) in *.
  clearbody rest. subst s.
  rewrite firstn_app, firstn_all2 by lia.
  replace (length K + length (upto_eol rest) - length K)
    with (length (upto_eol rest)) by lia.
  rewrite firstn_upto_eol, newlines_app.
  rewrite (newlines_one_line r Hr), (newlines_one_line _ Hk).
  now rewrite (newlines_one_line _ (upto_eol_one_line _)).
Qed.

Lemma copy_versions_one_line_spec (b : Copy.args) (c : component) (v : text) :
  copy_versions_one_line b = true -> snd (Copy.version_args b c) = Some v -> ~ In nl v.
Proof.
  unfold copy_versions_one_line. intros H.
  apply andb_prop in H as [H H3]. apply andb_prop in H as [H1 H2].
  apply one_line_spec in H1, H2, H3.
  destruct c; cbn [Copy.version_args snd]; intros E; inversion E; subst; assumption.
Qed.

Lemma copy_steps_newlines (b : Copy.args) (c : component) (t : text) :
  copy_versions_one_line b = true ->
  newlines (Copy.block_step b c (Copy.version_step b c (Copy.flag_step b c t))) = newlines t.
Proof.
  intros Hv.
  assert (F : newlines (Copy.flag_step b c t) = newlines t).
  { unfold Copy.flag_step. apply str_replace_newlines;
      [apply install_flag_nonempty|apply install_flag_one_line|apply install_flag_one_line]. }
  assert (W : newlines (Copy.version_step b c (Copy.flag_step b c t)) = newlines t).
  { rewrite <- F. unfold Copy.version_step.
    destruct (Copy.version_args b c) as [[key|] [[|x v]|]] eqn:E; try reflexivity.
    unfold re_sub. apply sub_from_newlines. intros prev s m Hm.
    apply (version_group_newlines key _ prev s m); [| |exact Hm].
    - eapply copy_version_key_one_line. exact E.
    - assert (Hx : ~ In nl (x :: v))
        by (apply (copy_versions_one_line_spec b c); [exact Hv|now rewrite E]).
      pose proof (copy_version_key_one_line b c key _ E) as Hk.
      rewrite arg_line_app. intros Hin. apply in_app_or in Hin as [Hin|Hin]; auto. }
  rewrite <- W. unfold Copy.block_step.
  destruct (Copy.enabled b c); [|reflexivity].
  unfold re_sub. apply sub_from_newlines. intros prev s m Hm.
  rewrite block_pattern_commented in Hm.
  eapply commented_group_newlines; [|exact Hm]; apply block_tail_groupless.
Qed.

Lemma copy_configure_in_order_newlines (b : Copy.args) (order : list component) :
  Copy.plain_versions b = true -> copy_versions_one_line b = true ->
  forall t, exists t', Copy.configure_in_order order b t = Some t' /\
                       newlines t' = newlines t.
Proof.
  intros Hp Hv. induction order as [|c order IH]; intros t;
    cbn [Copy.configure_in_order].
  - now exists t.
  - rewrite copy_configure_steps by exact Hp.
    destruct (IH (Copy.block_step b c (Copy.version_step b c (Copy.flag_step b c t))))
      as (t' & E & N).
    exists t'. split; [exact E|]. rewrite N. now apply copy_steps_newlines.
Qed.

Lemma copy_alpine_newlines (content : text) :
  newlines (str_replace cmd_bash cmd_ash
              (re_sub MS Copy.alpine_run Copy.first_group
                 (re_sub M Copy.alpine_from Copy.first_group
                    (re_sub MS Copy.ubuntu_section Copy.comment_out content)))) =
  newlines content.
Proof.
  rewrite str_replace_newlines;
    [|nonempty_text|apply one_line_spec; reflexivity|apply one_line_spec; reflexivity].
  unfold re_sub.
  rewrite sub_from_newlines.
  2: { intros prev s m Hm. rewrite alpine_run_commented in Hm.
       eapply commented_group_newlines; [|exact Hm]; reflexivity. }
  rewrite sub_from_newlines.
  2: { intros prev s m Hm. rewrite alpine_from_commented in Hm.
       eapply commented_group_newlines; [|exact Hm]; reflexivity. }
  apply sub_from_newlines. intros prev s m _. apply comment_out_newlines.
Qed.

(** X20.  The copy neither adds nor removes a line: when no version value
    holds a backslash or a newline, the text it writes has exactly as many
    newlines as the template, for either base OS and whatever languages are
    requested - the ubuntu section is commented line for line, the
    uncommenting takes prefixes off, and a version assignment is replaced
    within its line. *)
Theorem x20_copy_keeps_the_number_of_lines (b : Copy.args) (content : text) :
  Copy.plain_versions b = true -> copy_versions_one_line b = true ->
  exists t, Copy.transform b content = Some t /\ newlines t = newlines content.
Proof.
  intros Hp Hv. unfold Copy.transform. destruct (Copy.os b).
  - cbn [Copy.configure_base_os]. now apply copy_configure_in_order_newlines.
  - rewrite copy_alpine_steps.
    destruct (copy_configure_in_order_newlines b components Hp Hv
                (str_replace cmd_bash cmd_ash
                   (re_sub MS Copy.alpine_run Copy.first_group
                      (re_sub M Copy.alpine_from Copy.first_group
                         (re_sub MS Copy.ubuntu_section Copy.comment_out content)))))
      as (t & E & N).
    exists t. split; [exact E|]. rewrite N. apply copy_alpine_newlines.
Qed.

Lemma x20_copy_keeps_the_number_of_lines_witness :
  Copy.plain_versions copy_alpine_rust = true /\
  copy_versions_one_line copy_alpine_rust = true /\
  newlines two_profiles = 8 /\
  exists t, Copy.transform copy_alpine_rust two_profiles = Some t /\
            newlines t = newlines two_profiles.
Proof.
  split; [reflexivity|]. split; [reflexivity|]. split; [reflexivity|].
  exact (x20_copy_keeps_the_number_of_lines copy_alpine_rust two_profiles eq_refl eq_refl).
Defined.
